(** * CAPEX dashboard: the filter / aggregate pipeline of [app.js]

    A shallow embedding of the pure core of the dashboard
    ([filtrarDatos], [calcularKPIs], [fmtUSD], [agruparPorCampoProy],
    [agruparPorMes], [top10Proyectos] and the status classification of
    [renderTablaTop10]) together with the properties the specification
    states about them.

    Conventions of the model.
    - The amounts and the year and month of a record are integers ([Z]),
      added exactly: the sums are those of the program while they stay
      within the integers a double holds exactly (up to [2^53]).  A finite
      number is represented by its exact value ([Q]); a division yields a
      [JS.Numero], which can also be [NaN] or an infinity.  The quotients
      that [fmtUSD] formats are rounded to the nearest double
      ([JS.doble]) before [toFixed] reads their digits; the percentages
      are kept exact.
    - A JavaScript object used as a lookup table only ([proyMap]) is a
      [gmap] over its own string keys.  An object whose enumeration order
      is observed ([acc] in the three grouping functions) is an
      association list in insertion order with unique keys, enumerated by
      [JS.Object_entries].  Both are plain objects: reading a key that is
      not an own property finds the member of [Object.prototype] of that
      name, when there is one ([JS.leer], [JS.heredada]).
    - A property that may be absent from a JSON object (the categorical
      attributes of a project) is an [option]; [None] is [undefined]. *)

From Stdlib Require Import ZArith QArith Qround Qpower Lia Lqa List Sorted.
From Stdlib Require Import Permutation.
From Stdlib Require Import Ascii String.
From stdpp Require Import base gmap strings.
Import ListNotations.

Close Scope Q_scope.
Local Open Scope Z_scope.

(** ** The JavaScript built-ins the program calls *)

Module JS.

(** [String(n)] and template interpolation of an integer number: the
    decimal digits, most significant first, after a minus sign for a
    negative number (the form JavaScript uses below [10^21]).  [digits]
    is given more fuel than [n] has digits. *)
Definition digit_char (d : Z) : ascii :=
  ascii_of_nat (48 + Z.to_nat d).

Fixpoint digits (fuel : nat) (n : Z) : string :=
  match fuel with
  | O => ""
  | S k =>
      (if n <? 10 then "" else digits k (n / 10))
      +:+ String (digit_char (n mod 10)) ""
  end.

Definition decimal (n : Z) : string :=
  digits (S (Z.to_nat (Z.log2 n))) n.

Definition Number_toString (n : Z) : string :=
  if n <? 0 then "-" +:+ decimal (- n) else decimal n.

(** Truthiness of a string: only the empty string is falsy. *)
Definition truthy (s : string) : bool :=
  match s with
  | EmptyString => false
  | String _ _ => true
  end.

(** [s.padStart(n, '0')]. *)
Definition padStart0 (n : nat) (s : string) : string :=
  String.concat "" (repeat "0" (n - String.length s)) +:+ s.

(** *** [parseInt(s)] with no radix argument

    Leading white space is skipped, an optional sign is read, a [0x] or
    [0X] prefix selects radix 16, and the longest prefix of digits is
    converted; [None] is [NaN].  White space is the ASCII part of the
    ECMAScript set. *)
Definition is_space (c : ascii) : bool :=
  let n := nat_of_ascii c in
  ((9 <=? n)%nat && (n <=? 13)%nat) || (n =? 32)%nat.

Fixpoint skip_spaces (s : string) : string :=
  match s with
  | String c s' => if is_space c then skip_spaces s' else s
  | EmptyString => s
  end.

Definition digit_val (radix : Z) (c : ascii) : option Z :=
  let n := Z.of_nat (nat_of_ascii c) in
  let v := if (48 <=? n) && (n <=? 57) then Some (n - 48)
           else if (97 <=? n) && (n <=? 122) then Some (n - 87)
           else if (65 <=? n) && (n <=? 90) then Some (n - 55)
           else None in
  match v with
  | Some d => if d <? radix then Some d else None
  | None => None
  end.

Fixpoint parse_digits (radix : Z) (s : string) (acc : option Z) : option Z :=
  match s with
  | String c s' =>
      match digit_val radix c with
      | Some d =>
          parse_digits radix s'
            (Some (match acc with Some a => a * radix + d | None => d end))
      | None => acc
      end
  | EmptyString => acc
  end.

Definition parseInt (s : string) : option Z :=
  let s1 := skip_spaces s in
  let '(neg, s2) :=
    match s1 with
    | String "-" r => (true, r)
    | String "+" r => (false, r)
    | _ => (false, s1)
    end in
  let '(radix, s3) :=
    match s2 with
    | String "0" (String "x" r) => (16, r)
    | String "0" (String "X" r) => (16, r)
    | _ => (10, s2)
    end in
  match parse_digits radix s3 None with
  | Some v => Some (if neg then - v else v)
  | None => None
  end.

(** [x !== parseInt(s)] for a number [x]: [NaN] differs from every number. *)
Definition strict_neq_num (x : Z) (y : option Z) : bool :=
  match y with
  | Some v => negb (x =? v)
  | None => true
  end.

(** [a !== b] where [a] is a possibly absent string property and [b] a string. *)
Definition strict_neq_str (a : option string) (b : string) : bool :=
  match a with
  | Some s => negb (String.eqb s b)
  | None => true
  end.

(** [a === b], same operands. *)
Definition strict_eq_str (a : option string) (b : string) : bool :=
  negb (strict_neq_str a b).

(** *** [Array.prototype.sort(cmp)]

    The sort is stable; [cmp a b <= 0] keeps [a] before [b].  With a
    consistent comparator the result is the one of a stable insertion
    sort. *)
Section Sort.
Context {A : Type} (cmp : A -> A -> Z).

Fixpoint insert_sorted (x : A) (l : list A) : list A :=
  match l with
  | [] => [x]
  | y :: l' => if cmp x y <=? 0 then x :: l else y :: insert_sorted x l'
  end.

Definition Array_sort (l : list A) : list A :=
  fold_right insert_sorted [] l.
End Sort.

(** [a.localeCompare(b)]: on the strings the program compares (decimal
    digits and the hyphen) the collation order is the order of the
    character codes. *)
Definition localeCompare (a b : string) : Z :=
  match String.compare a b with
  | Lt => -1
  | Eq => 0
  | Gt => 1
  end.

(** [[...new Set(l)]]: the distinct elements in order of first occurrence. *)
Definition Set_of (l : list string) : list string :=
  fold_left (fun seen x => if existsb (String.eqb x) seen then seen else seen ++ [x])
            l [].

(** [l.includes(x)]. *)
Definition includes (l : list string) (x : string) : bool :=
  existsb (String.eqb x) l.

(** *** Plain objects with observable key order *)
Section Obj.
Context {V : Type}.

(** [o[k]] *)
Fixpoint obj_get (o : list (string * V)) (k : string) : option V :=
  match o with
  | [] => None
  | (k', v) :: o' => if String.eqb k k' then Some v else obj_get o' k
  end.

(** [o[k] = v]: an existing key keeps its place, a new one goes last. *)
Fixpoint obj_set (o : list (string * V)) (k : string) (v : V) : list (string * V) :=
  match o with
  | [] => [(k, v)]
  | (k', v') :: o' =>
      if String.eqb k k' then (k', v) :: o' else (k', v') :: obj_set o' k v
  end.

(** A key is an array index when it is the canonical decimal form of an
    integer below [2^32 - 1]. *)
Definition array_index (k : string) : option Z :=
  match parse_digits 10 k None with
  | Some n =>
      if (n <? 4294967295) && String.eqb (Number_toString n) k
      then Some n else None
  | None => None
  end.

Definition is_index (e : string * V) : bool :=
  match array_index (fst e) with Some _ => true | None => false end.

Definition index_of (e : string * V) : Z :=
  match array_index (fst e) with Some n => n | None => 0 end.

(** [Object.entries(o)]: array-index keys in ascending numeric order,
    then the other keys in insertion order. *)
Definition Object_entries (o : list (string * V)) : list (string * V) :=
  Array_sort (fun a b => index_of a - index_of b) (List.filter is_index o)
  ++ List.filter (fun e => negb (is_index e)) o.

(** [Object.keys(o)] *)
Definition Object_keys (o : list (string * V)) : list string :=
  map fst (Object_entries o).
End Obj.

(** *** Plain objects and [Object.prototype]

    A plain object (an object literal, the result of
    [Object.fromEntries]) inherits the members of [Object.prototype].
    Reading [o[k]] gives the own property under [k] when there is one,
    else the inherited member of that name (a function, or
    [Object.prototype] itself for ["__proto__"]: a truthy value that has
    none of the properties the program asks for), else [undefined]. *)
Definition Object_prototype_keys : list string :=
  ["constructor"; "__defineGetter__"; "__defineSetter__"; "hasOwnProperty";
   "__lookupGetter__"; "__lookupSetter__"; "isPrototypeOf";
   "propertyIsEnumerable"; "toString"; "valueOf"; "__proto__";
   "toLocaleString"].

Definition heredada (k : string) : bool :=
  existsb (String.eqb k) Object_prototype_keys.

Inductive Miembro (V : Type) : Type :=
| propio (v : V)
| heredado
| indefinido.
Arguments propio {V} v.
Arguments heredado {V}.
Arguments indefinido {V}.

(** [o[k]] for a plain object with the own properties [o]. *)
Definition leer {V : Type} (o : gmap string V) (k : string) : Miembro V :=
  match o !! k with
  | Some v => propio v
  | None => if heredada k then heredado else indefinido
  end.

(** *** Numbers

    A number is finite, [NaN] or an infinity.  Zero is [+0]. *)
Inductive Numero : Type :=
| Num (q : Q)
| NaN
| Infinito (positivo : bool).

(** [a / b] on finite operands. *)
Definition dividir (a b : Q) : Numero :=
  if Qeq_bool b 0
  then (if Qeq_bool a 0 then NaN else Infinito (Qle_bool 0 a))
  else Num (a / b).

(** [x * c] for a finite [c]. *)
Definition multiplicar (x : Numero) (c : Q) : Numero :=
  match x with
  | Num q => Num (q * c)
  | NaN => NaN
  | Infinito s =>
      if Qeq_bool c 0 then NaN
      else Infinito (if Qle_bool 0 c then s else negb s)
  end.

(** The value of a finite number. *)
Definition finito (x : Numero) : Q :=
  match x with
  | Num q => q
  | _ => 0
  end.

(** *** Rounding to a double

    [doble x] is the double nearest to [x], the one with the even
    significand on a tie: [x] is scaled to a significand of 53 bits,
    rounded to an integer and scaled back.  The subnormal range (below
    [2^-1022]) and overflow (from [2^1024]) are outside the model. *)
Definition pow2 (e : Z) : Q := (2 ^ e)%Q.

(** The integer part of the binary logarithm of a positive number. *)
Definition ilog2 (x : Q) : Z :=
  if Qle_bool 1 x then Z.log2 (Qfloor x)
  else - Z.log2_up (Qceiling (/ x)).

(** The nearest integer, the even one on a tie. *)
Definition redondear_par (x : Q) : Z :=
  let f := Qfloor x in
  match (x - inject_Z f ?= 1 # 2)%Q with
  | Lt => f
  | Gt => f + 1
  | Eq => if Z.even f then f else f + 1
  end.

Definition doble_pos (x : Q) : Q :=
  let e := ilog2 x - 52 in
  (inject_Z (redondear_par (x / pow2 e)) * pow2 e)%Q.

Definition doble (x : Q) : Q :=
  match (x ?= 0)%Q with
  | Eq => 0%Q
  | Gt => doble_pos x
  | Lt => (- doble_pos (- x))%Q
  end.

(** A rational that is the value of a double. *)
Definition es_doble (x : Q) : bool := Qeq_bool (doble x) x.

(** *** [Number.prototype.toFixed(f)]

    [x] is the exact value of the number.  For [x < 0] the sign is
    written and [-x] is formatted (magnitudes below [10^21], above which
    JavaScript switches notation).  The digits are those of the integer
    [n] nearest to [x * 10^f], the larger one on a tie; with [f > 0] the
    last [f] digits follow the point, after padding with zeros on the
    left to [f + 1] digits. *)
Definition round_half_up (x : Q) : Z :=
  Qfloor (x + (1 # 2))%Q.

Definition toFixed_abs (x : Q) (f : nat) : string :=
  let n := round_half_up (x * inject_Z (10 ^ Z.of_nat f))%Q in
  let m := Number_toString n in
  match f with
  | O => m
  | S _ =>
      let m' := padStart0 (S f) m in
      let k := String.length m' in
      String.substring 0 (k - f) m' +:+ "." +:+ String.substring (k - f) f m'
  end.

Definition toFixed (x : Q) (f : nat) : string :=
  if Qlt_le_dec x 0 then "-" +:+ toFixed_abs (- x)%Q f else toFixed_abs x f.

End JS.

(** ** Data model *)

Module Proyecto.
Record t := mk {
  id : string;
  nombre : option string;
  area : option string;
  tipo : option string;
  estado : option string;
  region : option string;
  responsable : option string
}.
End Proyecto.

(** A monthly record of a project.  The year, the month and the two
    amounts are the integers of the data file; a sum of amounts is the
    one of the program while the magnitudes added stay within [2^53]. *)
Module Registro.
Record t := mk {
  id_proyecto : string;
  anio : Z;
  mes : Z;
  presupuestado : Z;
  ejecutado : Z
}.
End Registro.

(** [estado.filtros]: the empty string leaves a dimension unconstrained. *)
Module Filtros.
Record t := mk {
  anio : string;
  mes : string;
  area : string;
  tipo : string;
  estadoProy : string;
  region : string
}.
End Filtros.

Record Datos := mkDatos {
  proyectos : list Proyecto.t;
  registros : list Registro.t
}.

(** The global [estado] object, passed explicitly. *)
Record Estado := mkEstado {
  datos : Datos;
  filtros : Filtros.t
}.

(** The property names [proy[campo]] can be asked for. *)
Inductive Campo :=
| campo_id | campo_nombre | campo_area | campo_tipo
| campo_estado | campo_region | campo_responsable.

Definition prop (proy : Proyecto.t) (campo : Campo) : option string :=
  match campo with
  | campo_id => Some (Proyecto.id proy)
  | campo_nombre => Proyecto.nombre proy
  | campo_area => Proyecto.area proy
  | campo_tipo => Proyecto.tipo proy
  | campo_estado => Proyecto.estado proy
  | campo_region => Proyecto.region proy
  | campo_responsable => Proyecto.responsable proy
  end.

(** A value used as a property key: [undefined] becomes the string
    ["undefined"]. *)
Definition to_key (v : option string) : string :=
  match v with
  | Some s => s
  | None => "undefined"
  end.

Definition MESES_LABELS : list string :=
  [""; "Ene"; "Feb"; "Mar"; "Abr"; "May"; "Jun";
   "Jul"; "Ago"; "Sep"; "Oct"; "Nov"; "Dic"].

(** [`${MESES_LABELS[m]}`] *)
Definition mes_label (m : Z) : string :=
  if m <? 0 then "undefined"
  else to_key (nth_error MESES_LABELS (Z.to_nat m)).

(** ** 3. Filtering *)

(** [Object.fromEntries(proyectos.map(p => [p.id, p]))]: a later project
    with the same id replaces an earlier one. *)
Definition proyMap_of (ps : list Proyecto.t) : gmap string Proyecto.t :=
  fold_left (fun m p => <[Proyecto.id p := p]> m) ps ∅.

(** [proy[campo]] for the value read from the lookup: an inherited
    member has none of the attributes of a project. *)
Definition prop_de (proy : JS.Miembro Proyecto.t) (campo : Campo)
    : option string :=
  match proy with
  | JS.propio p => prop p campo
  | JS.heredado | JS.indefinido => None
  end.

(** The callback of [registros.filter] in [filtrarDatos]:
    [proy = proyMap[reg.id_proyecto]] is read from a plain object, so
    [!proy] holds only when the id is neither an own key nor a name
    inherited from [Object.prototype]. *)
Definition pasa (proyMap : gmap string Proyecto.t) (f : Filtros.t)
    (reg : Registro.t) : bool :=
  match JS.leer proyMap (Registro.id_proyecto reg) with
  | JS.indefinido => false
  | proy =>
      if JS.truthy (Filtros.anio f)
         && JS.strict_neq_num (Registro.anio reg) (JS.parseInt (Filtros.anio f))
      then false
      else if JS.truthy (Filtros.mes f)
         && JS.strict_neq_num (Registro.mes reg) (JS.parseInt (Filtros.mes f))
      then false
      else if JS.truthy (Filtros.area f)
         && JS.strict_neq_str (prop_de proy campo_area) (Filtros.area f)
      then false
      else if JS.truthy (Filtros.tipo f)
         && JS.strict_neq_str (prop_de proy campo_tipo) (Filtros.tipo f)
      then false
      else if JS.truthy (Filtros.estadoProy f)
         && JS.strict_neq_str (prop_de proy campo_estado) (Filtros.estadoProy f)
      then false
      else if JS.truthy (Filtros.region f)
         && JS.strict_neq_str (prop_de proy campo_region) (Filtros.region f)
      then false
      else true
  end.

Record Filtrado := mkFiltrado {
  registrosFilt : list Registro.t;
  proyectosFilt : list Proyecto.t;
  proyMap : gmap string Proyecto.t
}.

Definition filtrarDatos (e : Estado) : Filtrado :=
  let ps := proyectos (datos e) in
  let rs := registros (datos e) in
  let f := filtros e in
  let pm := proyMap_of ps in
  let rf := List.filter (pasa pm f) rs in
  let idsFiltrados := JS.Set_of (map Registro.id_proyecto rf) in
  let pf := List.filter (fun p => JS.includes idsFiltrados (Proyecto.id p)) ps in
  mkFiltrado rf pf pm.

(** The change handler of one select: [estado.filtros[key] = value]. *)
Inductive FiltroKey :=
| key_anio | key_mes | key_area | key_tipo | key_estadoProy | key_region.

Definition set_filtro (e : Estado) (k : FiltroKey) (v : string) : Estado :=
  let f := filtros e in
  let f' :=
    match k with
    | key_anio => Filtros.mk v (Filtros.mes f) (Filtros.area f) (Filtros.tipo f)
                    (Filtros.estadoProy f) (Filtros.region f)
    | key_mes => Filtros.mk (Filtros.anio f) v (Filtros.area f) (Filtros.tipo f)
                    (Filtros.estadoProy f) (Filtros.region f)
    | key_area => Filtros.mk (Filtros.anio f) (Filtros.mes f) v (Filtros.tipo f)
                    (Filtros.estadoProy f) (Filtros.region f)
    | key_tipo => Filtros.mk (Filtros.anio f) (Filtros.mes f) (Filtros.area f) v
                    (Filtros.estadoProy f) (Filtros.region f)
    | key_estadoProy => Filtros.mk (Filtros.anio f) (Filtros.mes f) (Filtros.area f)
                    (Filtros.tipo f) v (Filtros.region f)
    | key_region => Filtros.mk (Filtros.anio f) (Filtros.mes f) (Filtros.area f)
                    (Filtros.tipo f) (Filtros.estadoProy f) v
    end in
  mkEstado (datos e) f'.

(** The click handler of "Limpiar filtros": every field is set to [''],
    in the order of [Object.keys(estado.filtros)]. *)
Definition limpiar_filtros (e : Estado) : Estado :=
  fold_left (fun e k => set_filtro e k "")
    [key_anio; key_mes; key_area; key_tipo; key_estadoProy; key_region] e.

(** ** 4. KPIs *)

Record KPIs := mkKPIs {
  totalPresupuestado : Z;
  totalEjecutado : Z;
  pctEjecucion : Q;
  activos : nat
}.

(** [p > 0 ? (e / p) * 100 : 0], as a number. *)
Definition pct_js (presupuestado ejecutado : Z) : JS.Numero :=
  if 0 <? presupuestado
  then JS.multiplicar
         (JS.dividir (inject_Z ejecutado) (inject_Z presupuestado)) 100
  else JS.Num 0.

(** Its value: the percentage is always finite ([pct_js_finito]). *)
Definition pct_de (presupuestado ejecutado : Z) : Q :=
  JS.finito (pct_js presupuestado ejecutado).

Definition calcularKPIs (registrosFilt : list Registro.t)
    (proyectosFilt : list Proyecto.t) : KPIs :=
  let totalPresupuestado :=
    fold_left (fun s r => s + Registro.presupuestado r) registrosFilt 0 in
  let totalEjecutado :=
    fold_left (fun s r => s + Registro.ejecutado r) registrosFilt 0 in
  let pctEjecucion := pct_de totalPresupuestado totalEjecutado in
  let activos :=
    length (List.filter
              (fun p => JS.strict_eq_str (Proyecto.estado p) "En ejecución")
              proyectosFilt) in
  mkKPIs totalPresupuestado totalEjecutado pctEjecucion activos.

(** The KPI part of [actualizarDashboard]. *)
Definition actualizarDashboard_kpis (e : Estado) : KPIs :=
  let r := filtrarDatos e in
  calcularKPIs (registrosFilt r) (proyectosFilt r).

(** ** 5. Number formatting *)

(** [v] is the value of the number; the two quotients are doubles. *)
Definition fmtUSD (v : Q) : string :=
  if Qle_bool 1000000 v
  then "$" +:+ JS.toFixed (JS.doble (v / 1000000)) 1 +:+ "M"
  else if Qle_bool 1000 v
  then "$" +:+ JS.toFixed (JS.doble (v / 1000)) 0 +:+ "K"
  else "$" +:+ JS.toFixed v 0.

Definition fmtPct (v : Q) : string :=
  JS.toFixed v 1 +:+ "%".

(** ** 7. Grouping *)

(** The object [{ presupuestado, ejecutado }] kept per group. *)
Module Suma.
Record t := mk { presupuestado : Z; ejecutado : Z }.
End Suma.

(** The object [{ label, ejecutado, presupuestado }] kept per month. *)
Module Bucket.
Record t := mk { label : string; ejecutado : Z; presupuestado : Z }.
End Bucket.

(** The body shared by the three [forEach] loops:
    [if (!acc[k]) acc[k] = init; acc[k].a += ...; acc[k].b += ...].
    [acc] is a plain object: under a name inherited from
    [Object.prototype] that is not an own key, [acc[k]] is the inherited
    member, so no own property is created and the two additions write to
    that member, not to [acc]. *)
Section Acumular.
Context {V : Type}.
Variable init : Registro.t -> V.
Variables add1 add2 : Registro.t -> V -> V.

Definition obj_update (o : list (string * V)) (k : string) (f : V -> V)
    : list (string * V) :=
  match JS.obj_get o k with
  | Some v => JS.obj_set o k (f v)
  | None => o
  end.

Definition acumular (clave : Registro.t -> string)
    (acc : list (string * V)) (reg : Registro.t) : list (string * V) :=
  let k := clave reg in
  let acc1 :=
    match JS.obj_get acc k with
    | Some _ => acc
    | None => if JS.heredada k then acc else JS.obj_set acc k (init reg)
    end in
  let acc2 := obj_update acc1 k (add1 reg) in
  obj_update acc2 k (add2 reg).
End Acumular.

Definition suma_init (_ : Registro.t) : Suma.t := Suma.mk 0 0.
Definition suma_add_presupuestado (reg : Registro.t) (s : Suma.t) : Suma.t :=
  Suma.mk (Suma.presupuestado s + Registro.presupuestado reg) (Suma.ejecutado s).
Definition suma_add_ejecutado (reg : Registro.t) (s : Suma.t) : Suma.t :=
  Suma.mk (Suma.presupuestado s) (Suma.ejecutado s + Registro.ejecutado reg).

(** [proy ? proy[campo] : 'N/A'], as a property key, for
    [proy = proyMap[reg.id_proyecto]]. *)
Definition clave_campo (proyMap : gmap string Proyecto.t) (campo : Campo)
    (reg : Registro.t) : string :=
  match JS.leer proyMap (Registro.id_proyecto reg) with
  | JS.indefinido => "N/A"
  | proy => to_key (prop_de proy campo)
  end.

Definition agruparPorCampoProy (registrosFilt : list Registro.t)
    (proyMap : gmap string Proyecto.t) (campo : Campo)
    : list (string * Suma.t) :=
  fold_left
    (acumular suma_init suma_add_presupuestado suma_add_ejecutado
              (clave_campo proyMap campo))
    registrosFilt [].

(** [`${reg.anio}-${String(reg.mes).padStart(2,'0')}`] *)
Definition clave_mes (reg : Registro.t) : string :=
  JS.Number_toString (Registro.anio reg) +:+ "-"
  +:+ JS.padStart0 2 (JS.Number_toString (Registro.mes reg)).

Definition bucket_init (reg : Registro.t) : Bucket.t :=
  Bucket.mk (mes_label (Registro.mes reg) +:+ " "
             +:+ JS.Number_toString (Registro.anio reg)) 0 0.
Definition bucket_add_ejecutado (reg : Registro.t) (b : Bucket.t) : Bucket.t :=
  Bucket.mk (Bucket.label b) (Bucket.ejecutado b + Registro.ejecutado reg)
            (Bucket.presupuestado b).
Definition bucket_add_presupuestado (reg : Registro.t) (b : Bucket.t) : Bucket.t :=
  Bucket.mk (Bucket.label b) (Bucket.ejecutado b)
            (Bucket.presupuestado b + Registro.presupuestado reg).

Definition agruparPorMes (registrosFilt : list Registro.t)
    : list (string * Bucket.t) :=
  let acc :=
    fold_left
      (acumular bucket_init bucket_add_ejecutado bucket_add_presupuestado
                clave_mes)
      registrosFilt [] in
  JS.Array_sort (fun a b => JS.localeCompare (fst a) (fst b))
                (JS.Object_entries acc).

(** A row of the ranking. *)
Module Top.
Record t := mk {
  id : string;
  proy : option Proyecto.t;
  presupuestado : Z;
  ejecutado : Z;
  pct : Q
}.
End Top.

(** What the table can read from [item.proy]: the project, when
    [proyMap[id]] is an own property; an inherited member has none of
    the attributes asked for, like [undefined]. *)
Definition proyecto_de (proy : JS.Miembro Proyecto.t) : option Proyecto.t :=
  match proy with
  | JS.propio p => Some p
  | JS.heredado | JS.indefinido => None
  end.

Definition top_de (proyMap : gmap string Proyecto.t) (e : string * Suma.t) : Top.t :=
  let '(id, s) := e in
  Top.mk id (proyecto_de (JS.leer proyMap id))
         (Suma.presupuestado s) (Suma.ejecutado s)
         (pct_de (Suma.presupuestado s) (Suma.ejecutado s)).

(** The ranking before [slice(0, 10)]. *)
Definition ranking (registrosFilt : list Registro.t)
    (proyMap : gmap string Proyecto.t) : list Top.t :=
  let acc :=
    fold_left
      (acumular suma_init suma_add_presupuestado suma_add_ejecutado
                Registro.id_proyecto)
      registrosFilt [] in
  JS.Array_sort (fun a b => Top.ejecutado b - Top.ejecutado a)
                (map (top_de proyMap) (JS.Object_entries acc)).

Definition top10Proyectos (registrosFilt : list Registro.t)
    (proyMap : gmap string Proyecto.t) : list Top.t :=
  firstn 10 (ranking registrosFilt proyMap).

(** [top] in [renderChartPresupuesto]. *)
Definition renderChartPresupuesto_top (registrosFilt : list Registro.t)
    (proyMap : gmap string Proyecto.t) : list Top.t :=
  firstn 8 (top10Proyectos registrosFilt proyMap).

(** ** 9. Status classification in [renderTablaTop10] *)

Definition sobreEjec (item : Top.t) : bool :=
  Top.presupuestado item <? Top.ejecutado item.

Definition progClass_de (pct : Q) (sobre : bool) : string :=
  if Qle_bool 90 pct && negb sobre then "prog-green"
  else if negb (Qle_bool 50 pct) then "prog-red"
  else if sobre then "prog-red"
  else "prog-yellow".

Definition pctColor_de (pct : Q) (sobre : bool) : string :=
  if Qle_bool 90 pct && negb sobre then "var(--teal)"
  else if negb (Qle_bool 50 pct) || sobre then "var(--red-alert)"
  else "var(--gold)".

Definition progClass (item : Top.t) : string :=
  progClass_de (Top.pct item) (sobreEjec item).

Definition pctColor (item : Top.t) : string :=
  pctColor_de (Top.pct item) (sobreEjec item).

(** ** The worked example of the specification *)

Definition P1 : Proyecto.t :=
  Proyecto.mk "P1" (Some "Proyecto 1") (Some "Mina A") (Some "Expansión")
              (Some "En ejecución") (Some "Norte") (Some "A. Rojas").
Definition P2 : Proyecto.t :=
  Proyecto.mk "P2" (Some "Proyecto 2") (Some "Mina B") (Some "Sostenimiento")
              (Some "Cerrado") (Some "Sur") (Some "B. Soto").
Definition ejemplo : Datos :=
  mkDatos [P1; P2]
          [Registro.mk "P1" 2024 1 1000 900;
           Registro.mk "P1" 2024 2 500 600;
           Registro.mk "P2" 2024 1 2000 1000].
Definition sin_filtros : Filtros.t := Filtros.mk "" "" "" "" "" "".

(** A project whose JSON object has no [area] and no [region]. *)
Definition P3 : Proyecto.t :=
  Proyecto.mk "P3" (Some "Proyecto 3") None (Some "Expansión")
              (Some "Pausado") None None.

(** ** Predicates used to state the properties *)

(** A numeric dimension: unset, or the record's number is [parseInt] of
    the selected value. *)
Definition num_ok (sel : string) (x : Z) : Prop :=
  sel = "" \/ JS.parseInt sel = Some x.

(** A categorical dimension: unset, or the project's attribute is the
    selected value. *)
Definition attr_ok (sel : string) (v : option string) : Prop :=
  sel = "" \/ v = Some sel.

Definition satisfies (f : Filtros.t) (reg : Registro.t) (proy : Proyecto.t) : Prop :=
  num_ok (Filtros.anio f) (Registro.anio reg)
  /\ num_ok (Filtros.mes f) (Registro.mes reg)
  /\ attr_ok (Filtros.area f) (Proyecto.area proy)
  /\ attr_ok (Filtros.tipo f) (Proyecto.tipo proy)
  /\ attr_ok (Filtros.estadoProy f) (Proyecto.estado proy)
  /\ attr_ok (Filtros.region f) (Proyecto.region proy).

(** The same conditions on the value read from the lookup, which may be
    an inherited member: it has no attribute, so it meets only the
    categorical dimensions that are unset. *)
Definition satisface (f : Filtros.t) (reg : Registro.t)
    (proy : JS.Miembro Proyecto.t) : Prop :=
  num_ok (Filtros.anio f) (Registro.anio reg)
  /\ num_ok (Filtros.mes f) (Registro.mes reg)
  /\ attr_ok (Filtros.area f) (prop_de proy campo_area)
  /\ attr_ok (Filtros.tipo f) (prop_de proy campo_tipo)
  /\ attr_ok (Filtros.estadoProy f) (prop_de proy campo_estado)
  /\ attr_ok (Filtros.region f) (prop_de proy campo_region).

(** ** Sums and groups *)

(** The sum of a numeric field over a list of records. *)
Definition suma (campo : Registro.t -> Z) (l : list Registro.t) : Z :=
  fold_right (fun r s => campo r + s) 0 l.

(** The number of projects in execution. *)
Fixpoint en_ejecucion (l : list Proyecto.t) : nat :=
  match l with
  | [] => O
  | p :: l' =>
      if decide (Proyecto.estado p = Some "En ejecución")
      then S (en_ejecucion l') else en_ejecucion l'
  end.

(** The records of a list that fall under a key. *)
Definition grupo (clave : Registro.t -> string) (k : string)
    (regs : list Registro.t) : list Registro.t :=
  List.filter (fun r => String.eqb (clave r) k) regs.

(** The records that get a group: those whose key is not a name
    inherited from [Object.prototype]. *)
Definition agrupados (clave : Registro.t -> string)
    (regs : list Registro.t) : list Registro.t :=
  List.filter (fun r => negb (JS.heredada (clave r))) regs.

(** The value a group ends with, from the value it starts with: the two
    additions of the loop body, record after record. *)
Definition valor {V : Type} (add1 add2 : Registro.t -> V -> V) (v0 : V)
    (rs : list Registro.t) : V :=
  fold_left (fun v r => add2 r (add1 r v)) rs v0.

(** The sum of a field over the groups of a grouping. *)
Definition suma_grupos (campo : Suma.t -> Z) (o : list (string * Suma.t)) : Z :=
  fold_right (fun e s => campo (snd e) + s) 0 o.

(** The sums of the records that fall under a key. *)
Definition suma_de (clave : Registro.t -> string) (k : string)
    (regs : list Registro.t) : Suma.t :=
  Suma.mk (suma Registro.presupuestado (grupo clave k regs))
          (suma Registro.ejecutado (grupo clave k regs)).

(** A list that is a prefix of another and shorter. *)
Definition prefijo_estricto {A : Type} (l1 l2 : list A) : Prop :=
  exists rest, rest <> [] /\ l2 = l1 ++ rest.

(** ** The chronological series *)

(** The key and the label of the bucket of year [a] and month [m]. *)
Definition clave_ym (a m : Z) : string :=
  JS.Number_toString a +:+ "-" +:+ JS.padStart0 2 (JS.Number_toString m).

Definition label_ym (a m : Z) : string :=
  mes_label m +:+ " " +:+ JS.Number_toString a.

(** The strict order of character codes on strings. *)
Definition str_lt (a b : string) : Prop :=
  String.compare a b = Lt.

(** The chronological order of (year, month) pairs. *)
Definition ym_lt (p q : Z * Z) : Prop :=
  fst p < fst q \/ (fst p = fst q /\ snd p < snd q).

Definition ym_compare (p q : Z * Z) : comparison :=
  match fst p ?= fst q with
  | Eq => snd p ?= snd q
  | c => c
  end.

Definition del_mes (p : Z * Z) (r : Registro.t) : bool :=
  (Registro.anio r =? fst p) && (Registro.mes r =? snd p).

(** The bucket of the records of one month. *)
Definition bucket_de (regs : list Registro.t) (p : Z * Z) : string * Bucket.t :=
  (clave_ym (fst p) (snd p),
   Bucket.mk (label_ym (fst p) (snd p))
             (suma Registro.ejecutado (List.filter (del_mes p) regs))
             (suma Registro.presupuestado (List.filter (del_mes p) regs))).

(** The series is the list of the buckets of the months that occur in the
    records, in chronological order. *)
Definition serie_cronologica (regs : list Registro.t) : Prop :=
  exists ps : list (Z * Z),
    StronglySorted ym_lt ps
    /\ (forall p, In p ps <->
          exists r, In r regs /\ (Registro.anio r, Registro.mes r) = p)
    /\ agruparPorMes regs = map (bucket_de regs) ps.

(** The bucket of the records that fall under a key, labelled by the
    first of them. *)
Definition bucket_clave (regs : list Registro.t) (k : string) : Bucket.t :=
  Bucket.mk (match grupo clave_mes k regs with
             | r :: _ => label_ym (Registro.anio r) (Registro.mes r)
             | [] => ""
             end)
            (suma Registro.ejecutado (grupo clave_mes k regs))
            (suma Registro.presupuestado (grupo clave_mes k regs)).

(** [f] holds on the [n] integers from [desde] on. *)
Fixpoint todos (f : Z -> bool) (desde : Z) (n : nat) : bool :=
  match n with
  | O => true
  | S n' => f desde && todos f (desde + 1) n'
  end.

Definition es_Lt (c : comparison) : bool :=
  match c with Lt => true | _ => false end.

(** The (year, month) of the first record that falls under a key. *)
Definition ym_de_clave (regs : list Registro.t) (k : string) : Z * Z :=
  match grupo clave_mes k regs with
  | r :: _ => (Registro.anio r, Registro.mes r)
  | [] => (0, 0)
  end.

(** Years of four digits and months of at most two. *)
Definition en_rango (r : Registro.t) : Prop :=
  1000 <= Registro.anio r <= 9999 /\ 0 <= Registro.mes r <= 99.

(** ** Renderings named by the specification of [fmtUSD] *)




(** A non-negative number rounded to an integer, half up. *)
Definition entero (x : Q) : string :=
  JS.Number_toString (JS.round_half_up x).



(** A number rounded to an integer, the sign written first. *)
Definition redondeado (v : Q) : string :=
  if Qlt_le_dec v 0 then "-" +:+ entero (- v)%Q else entero v.

(** A string of decimal digits only. *)
Definition es_digito (c : ascii) : bool :=
  let n := nat_of_ascii c in (48 <=? n)%nat && (n <=? 57)%nat.

Fixpoint solo_digitos (s : string) : bool :=
  match s with
  | EmptyString => true
  | String c s' => es_digito c && solo_digitos s'
  end.

(** * The rest of the dashboard

    The option lists of [inicializarFiltros], what [renderKPIs] writes,
    the data handed to the four charts, the cells of the table that are
    computed, [estadoToBadge] and [actualizarChips].  The DOM and Chart.js
    are outside the model: a render function is modelled by the values it
    computes for them. *)

Module JSlib.

(** [[...new Set(l)]] for values compared by [eqb]. *)
Definition Set_de {A : Type} (eqb : A -> A -> bool) (l : list A) : list A :=
  fold_left (fun seen x => if existsb (eqb x) seen then seen else seen ++ [x])
            l [].

(** A text without characters outside the Basic Multilingual Plane: all
    its UTF-8 bytes are below [0xF0].  On such texts the order of the
    UTF-16 code units is the order of the bytes. *)
Definition texto_BMP (s : string) : bool :=
  forallb (fun c => (nat_of_ascii c <? 240)%nat) (list_ascii_of_string s).

(** The comparison [sort()] makes with no comparator, on the strings of two
    elements: the order of their UTF-16 code units, which on the texts of
    the Basic Multilingual Plane ([texto_BMP]) is the order of the bytes
    compared here. *)
Definition SortCompare (a b : string) : Z :=
  match String.compare a b with
  | Lt => -1
  | Eq => 0
  | Gt => 1
  end.

(** [l.sort()] on numbers: they are compared as strings. *)
Definition sort_numeros (l : list Z) : list Z :=
  JS.Array_sort
    (fun a b => SortCompare (JS.Number_toString a) (JS.Number_toString b)) l.

(** [l.sort()] on strings some of which are [undefined]: the strings in
    order, then the [undefined] ones. *)
Fixpoint definidos (l : list (option string)) : list string :=
  match l with
  | [] => []
  | Some s :: l' => s :: definidos l'
  | None :: l' => definidos l'
  end.

Definition es_undefined (v : option string) : bool :=
  match v with
  | None => true
  | Some _ => false
  end.

Definition sort_valores (l : list (option string)) : list (option string) :=
  map Some (JS.Array_sort SortCompare (definidos l))
  ++ List.filter es_undefined l.

(** [a[k]] for an array [a] and a string [k]. *)
Definition array_get {A : Type} (a : list A) (k : string) : option A :=
  match JS.array_index k with
  | Some n => nth_error a (Z.to_nat n)
  | None => None
  end.

(** [Math.min(x, 100)] *)
Definition min_100 (x : Q) : Q :=
  if Qle_bool x 100 then x else 100%Q.

(** The double quote, for the attributes of generated HTML. *)
Definition comilla : string := String (ascii_of_nat 34) EmptyString.

(** The names every plain object inherits from [Object.prototype]. *)
Definition Object_prototype_keys : list string := JS.Object_prototype_keys.

End JSlib.

(** ** 2. The option lists of the selects *)

Definition eqb_valor (a b : option string) : bool :=
  match a, b with
  | Some x, Some y => String.eqb x y
  | None, None => true
  | _, _ => false
  end.

(** The [valores] that [inicializarFiltros] hands to [poblarSelect]. *)
Record Opciones := mkOpciones {
  anios : list Z;
  meses : list Z;
  areas : list (option string);
  tipos : list (option string);
  estados_proy : list (option string);
  regiones : list (option string)
}.

Definition inicializarFiltros (d : Datos) : Opciones :=
  mkOpciones
    (JSlib.sort_numeros (JSlib.Set_de Z.eqb (map Registro.anio (registros d))))
    (JS.Array_sort (fun a b => a - b)
                   (JSlib.Set_de Z.eqb (map Registro.mes (registros d))))
    (JSlib.sort_valores (JSlib.Set_de eqb_valor (map Proyecto.area (proyectos d))))
    (JSlib.sort_valores (JSlib.Set_de eqb_valor (map Proyecto.tipo (proyectos d))))
    (JSlib.sort_valores (JSlib.Set_de eqb_valor (map Proyecto.estado (proyectos d))))
    (JSlib.sort_valores (JSlib.Set_de eqb_valor (map Proyecto.region (proyectos d)))).

(** [opt.value = v] in [poblarSelect], for a number. *)
Definition valor_opcion (v : Z) : string := JS.Number_toString v.

(** ** 6. What [renderKPIs] writes *)

Record VistaKPIs := mkVistaKPIs {
  kpi_presupuestado : string;
  kpi_ejecutado : string;
  kpi_pct : string;
  kpi_activos : string;
  kpi_pct_sub : string;
  kpi_pct_sub_color : string
}.

Definition renderKPIs (k : KPIs) : VistaKPIs :=
  let diff := totalEjecutado k - totalPresupuestado k in
  let '(sub, color) :=
    if 0 <? diff
    then ("▲ " +:+ fmtUSD (inject_Z (Z.abs diff)) +:+ " sobre presupuesto",
          "var(--red-alert)")
    else if diff <? 0
    then ("▼ " +:+ fmtUSD (inject_Z (Z.abs diff)) +:+ " bajo presupuesto",
          "var(--teal)")
    else ("Exactamente en presupuesto", "var(--text-secondary)") in
  mkVistaKPIs (fmtUSD (inject_Z (totalPresupuestado k)))
              (fmtUSD (inject_Z (totalEjecutado k)))
              (fmtPct (pctEjecucion k))
              (JS.Number_toString (Z.of_nat (activos k)))
              sub color.

(** ** 8. The data of the charts

    [None] is the call of [mostrarVacio]. *)

Definition COLORS : list (string * string) :=
  [("gold", "#fab93c"); ("teal", "#2dd4bf"); ("orange", "#fb923c");
   ("red", "#f87171"); ("blue", "#60a5fa"); ("purple", "#a78bfa");
   ("green", "#34d399"); ("pink", "#f472b6"); ("slate", "#94a3b8");
   ("amber", "#fbbf24")].

(** [Object.values(COLORS)] *)
Definition PALETTE : list string := map snd (JS.Object_entries COLORS).

(** [labels.map(k => agrupado[k].campo)]; [None] would be the read of a
    property of [undefined]. *)
Definition columna (campo : Suma.t -> Z) (agrupado : list (string * Suma.t))
    (labels : list string) : list (option Z) :=
  map (fun k => option_map campo (JS.obj_get agrupado k)) labels.

Record ChartArea := mkChartArea {
  area_labels : list string;
  area_pres : list (option Z);
  area_ejec : list (option Z)
}.

Definition renderChartArea (registrosFilt : list Registro.t)
    (proyMap : gmap string Proyecto.t) : option ChartArea :=
  let agrupado := agruparPorCampoProy registrosFilt proyMap campo_area in
  let labels := JS.Object_keys agrupado in
  let pres := columna Suma.presupuestado agrupado labels in
  let ejec := columna Suma.ejecutado agrupado labels in
  if (length labels =? 0)%nat then None
  else Some (mkChartArea labels pres ejec).

Record ChartTipo := mkChartTipo {
  tipo_labels : list string;
  tipo_ejec : list (option Z);
  tipo_backgroundColor : list string;
  tipo_borderColor : list string
}.

Definition renderChartTipo (registrosFilt : list Registro.t)
    (proyMap : gmap string Proyecto.t) : option ChartTipo :=
  let agrupado := agruparPorCampoProy registrosFilt proyMap campo_tipo in
  let labels := JS.Object_keys agrupado in
  let ejec := columna Suma.ejecutado agrupado labels in
  if (length labels =? 0)%nat then None
  else Some (mkChartTipo labels ejec
               (map (fun c => c +:+ "55") (firstn (length labels) PALETTE))
               (firstn (length labels) PALETTE)).

Record ChartLinea := mkChartLinea {
  linea_labels : list string;
  linea_ejec : list Z;
  linea_pres : list Z
}.

Definition renderChartLinea (registrosFilt : list Registro.t)
    : option ChartLinea :=
  let series := agruparPorMes registrosFilt in
  if (length series =? 0)%nat then None
  else Some (mkChartLinea (map (fun e => Bucket.label (snd e)) series)
                          (map (fun e => Bucket.ejecutado (snd e)) series)
                          (map (fun e => Bucket.presupuestado (snd e)) series)).

Record ChartPresupuesto := mkChartPresupuesto {
  presupuesto_labels : list string;
  presupuesto_pres : list Z;
  presupuesto_ejec : list Z;
  presupuesto_borderColor : list string
}.

(** [ejec.map((e, i) => e > pres[i] ? COLORS.red : COLORS.teal)]; a missing
    [pres[i]] is [undefined], and no number is greater than it. *)
Fixpoint colores_barras (i : nat) (pres ejec : list Z) : list string :=
  match ejec with
  | [] => []
  | e :: ejec' =>
      (match nth_error pres i with
       | Some p => if p <? e then "#f87171" else "#2dd4bf"
       | None => "#2dd4bf"
       end) :: colores_barras (S i) pres ejec'
  end.

Definition renderChartPresupuesto (registrosFilt : list Registro.t)
    (proyMap : gmap string Proyecto.t) : option ChartPresupuesto :=
  let top := renderChartPresupuesto_top registrosFilt proyMap in
  if (length top =? 0)%nat then None
  else
    let labels := map Top.id top in
    let pres := map Top.presupuestado top in
    let ejec := map Top.ejecutado top in
    Some (mkChartPresupuesto labels pres ejec (colores_barras 0 pres ejec)).

(** ** 9. The computed cells of a row of the table *)

(** [Math.min(pct, 100).toFixed(0)], the width of the bar in percent. *)
Definition ancho_barra (item : Top.t) : string :=
  JS.toFixed (JSlib.min_100 (Top.pct item)) 0.

(** [proy.nombre || item.id], with [proy = item.proy || {}]. *)
Definition nombre_fila (item : Top.t) : string :=
  match Top.proy item with
  | Some proy =>
      match Proyecto.nombre proy with
      | Some n => if JS.truthy n then n else Top.id item
      | None => Top.id item
      end
  | None => Top.id item
  end.

(** [proy.estado || ''], the argument of [estadoToBadge]. *)
Definition estado_fila (item : Top.t) : string :=
  match Top.proy item with
  | Some proy =>
      match Proyecto.estado proy with
      | Some s => s
      | None => EmptyString
      end
  | None => EmptyString
  end.

(** [renderTablaTop10] shows the placeholder row when the ranking is
    empty, else one row per entry. *)
Definition renderTablaTop10_filas (registrosFilt : list Registro.t)
    (proyMap : gmap string Proyecto.t) : option (list Top.t) :=
  let top := top10Proyectos registrosFilt proyMap in
  if (length top =? 0)%nat then None else Some top.

(** The literal [map] of [estadoToBadge], by its own keys. *)
Definition badge_map : list (string * (string * string)) :=
  [("En ejecución", ("status-activo", "En ejecución"));
   ("Cerrado", ("status-cerrado", "Cerrado"));
   ("Pausado", ("status-pausado", "Pausado"));
   ("En planificación", ("status-plan", "En planificación"))].

(** [map[estado] || ['status-cerrado', estado]] *)
Definition badge_par (estado : string) : string * string :=
  match JS.obj_get badge_map estado with
  | Some par => par
  | None => ("status-cerrado", estado)
  end.

Definition estadoToBadge (estado : string) : string :=
  let '(cls, lbl) := badge_par estado in
  "<span class=" +:+ JSlib.comilla +:+ "status-badge " +:+ cls
  +:+ JSlib.comilla +:+ ">" +:+ lbl +:+ "</span>".

(** ** 11. The chips of the active filters *)

(** [`${MESES_LABELS[f.mes]}`], the index being a string: an element, the
    length of the array, or [undefined]. *)
Definition mes_label_str (k : string) : string :=
  if String.eqb k "length"
  then JS.Number_toString (Z.of_nat (length MESES_LABELS))
  else to_key (JSlib.array_get MESES_LABELS k).

(** The values of [labels], in the order of its keys; [None] is [null]. *)
Definition chips_labels (f : Filtros.t) : list (option string) :=
  let con (pre v : string) : option string :=
    if JS.truthy v then Some (pre +:+ v) else None in
  [con "Año: " (Filtros.anio f);
   (if JS.truthy (Filtros.mes f)
    then Some ("Mes: " +:+ mes_label_str (Filtros.mes f)) else None);
   con "Área: " (Filtros.area f);
   con "Tipo: " (Filtros.tipo f);
   con "Estado: " (Filtros.estadoProy f);
   con "Región: " (Filtros.region f)].

(** [Object.values(labels).filter(Boolean)] *)
Definition chips (f : Filtros.t) : list string :=
  List.filter JS.truthy (JSlib.definidos (chips_labels f)).

Definition actualizarChips (f : Filtros.t) : string :=
  String.concat EmptyString
    (map (fun l => "<span class=" +:+ JSlib.comilla +:+ "filter-chip"
                   +:+ JSlib.comilla +:+ ">🔍 " +:+ l +:+ "</span>")
         (chips f)).

(** ** Notions used to state the further properties *)

(** [f'] sets every field [f] sets, to the same value. *)
Definition refina (f f' : Filtros.t) : Prop :=
  (Filtros.anio f = EmptyString \/ Filtros.anio f = Filtros.anio f')
  /\ (Filtros.mes f = EmptyString \/ Filtros.mes f = Filtros.mes f')
  /\ (Filtros.area f = EmptyString \/ Filtros.area f = Filtros.area f')
  /\ (Filtros.tipo f = EmptyString \/ Filtros.tipo f = Filtros.tipo f')
  /\ (Filtros.estadoProy f = EmptyString
      \/ Filtros.estadoProy f = Filtros.estadoProy f')
  /\ (Filtros.region f = EmptyString \/ Filtros.region f = Filtros.region f').

(** The last project of a list with a given id. *)
Definition ultimo_con_id (k : string) (ps : list Proyecto.t) : option Proyecto.t :=
  hd_error (rev (List.filter (fun p => String.eqb (Proyecto.id p) k) ps)).

(** Amounts that are not negative. *)
Definition no_negativo (r : Registro.t) : Prop :=
  0 <= Registro.presupuestado r /\ 0 <= Registro.ejecutado r.

(** The output of [filtrarDatos] taken as a dataset. *)
Definition datos_filtrados (e : Estado) : Datos :=
  mkDatos (proyectosFilt (filtrarDatos e)) (registrosFilt (filtrarDatos e)).

(** The attribute of the project a categorical select filters by. *)
Definition campo_de_filtro (k : FiltroKey) : option Campo :=
  match k with
  | key_area => Some campo_area
  | key_tipo => Some campo_tipo
  | key_estadoProy => Some campo_estado
  | key_region => Some campo_region
  | key_anio | key_mes => None
  end.

(** The joined project of a record has value [v] for attribute [c]. *)
Definition proyecto_con (pm : gmap string Proyecto.t) (c : Campo) (v : string)
    (r : Registro.t) : bool :=
  match pm !! Registro.id_proyecto r with
  | Some p => eqb_valor (prop p c) (Some v)
  | None => false
  end.

(** The option list of a categorical select. *)
Definition opciones_de (o : Opciones) (c : Campo) : list (option string) :=
  match c with
  | campo_area => areas o
  | campo_tipo => tipos o
  | campo_estado => estados_proy o
  | campo_region => regiones o
  | _ => []
  end.

(** A selection with only the year, or only the month, set. *)
Definition solo_anio (v : string) : Filtros.t :=
  Filtros.mk v EmptyString EmptyString EmptyString EmptyString EmptyString.
Definition solo_mes (v : string) : Filtros.t :=
  Filtros.mk EmptyString v EmptyString EmptyString EmptyString EmptyString.

(** Every record refers to a project of the dataset. *)
Definition integridad (d : Datos) : Prop :=
  forall r, In r (registros d) ->
    exists p, In p (proyectos d) /\ Proyecto.id p = Registro.id_proyecto r.

(** The sum of a list of numbers, and of a column some of whose reads
    may have failed. *)
Definition Zsuma (l : list Z) : Z := fold_right Z.add 0 l.

Definition columna_suma (l : list (option Z)) : option Z :=
  fold_right (fun v acc =>
                match v, acc with
                | Some x, Some a => Some (x + a)
                | _, _ => None
                end)
             (Some 0) l.

(** The number of fields of a selection that are set. *)
Definition campos_activos (f : Filtros.t) : nat :=
  length (List.filter JS.truthy
            [Filtros.anio f; Filtros.mes f; Filtros.area f; Filtros.tipo f;
             Filtros.estadoProy f; Filtros.region f]).

(** The colour of the bar of a row in the comparison chart. *)
Definition color_barra (item : Top.t) : string :=
  if sobreEjec item then "#f87171" else "#2dd4bf".

(** The order in which the keys of an object are enumerated, from the
    order [ks] in which they were inserted: the array indices in
    ascending numeric order, then the other keys as inserted. *)
Definition es_indice (k : string) : bool :=
  match JS.array_index k with Some _ => true | None => false end.

Definition indice_de (k : string) : Z :=
  match JS.array_index k with Some n => n | None => 0 end.

Definition orden_de_claves (ks : list string) : list string :=
  JS.Array_sort (fun a b => indice_de a - indice_de b) (List.filter es_indice ks)
  ++ List.filter (fun k => negb (es_indice k)) ks.

(** The executed amount of a project over a list of records. *)
Definition ejecutado_de (regs : list Registro.t) (id : string) : Z :=
  suma Registro.ejecutado (grupo Registro.id_proyecto id regs).

(** Neither the id of the record nor its area or type key is the name of
    a member inherited from [Object.prototype]. *)
Definition sin_heredadas (pm : gmap string Proyecto.t) (r : Registro.t) : Prop :=
  JS.heredada (Registro.id_proyecto r) = false
  /\ JS.heredada (clave_campo pm campo_area r) = false
  /\ JS.heredada (clave_campo pm campo_tipo r) = false.

(** Amounts on which the additions of the program are exact: integers
    whose magnitudes add up to at most [2^53], so that every partial sum,
    in any order and grouping, is an integer a double holds exactly. *)
Definition montos_exactos (regs : list Registro.t) : Prop :=
  suma (fun r => Z.abs (Registro.presupuestado r)) regs <= 2 ^ 53
  /\ suma (fun r => Z.abs (Registro.ejecutado r)) regs <= 2 ^ 53.

(** * Checks on concrete inputs *)

Example toString_2024 :
  map JS.Number_toString [2024; 0; 7; -15; 1000000; 4294967295]
  = ["2024"; "0"; "7"; "-15"; "1000000"; "4294967295"].
Proof. vm_compute. reflexivity. Qed.

Example parseInt_2024 : JS.parseInt "2024" = Some 2024.
Proof. reflexivity. Qed.

Example parseInt_03 : JS.parseInt " 03x" = Some 3.
Proof. reflexivity. Qed.

Example parseInt_nan : JS.parseInt "abc" = None.
Proof. reflexivity. Qed.

Example parseInt_hex : JS.parseInt "-0x1F" = Some (-31).
Proof. reflexivity. Qed.

Example toFixed_1 : JS.toFixed (2500000 # 1000000) 1 = "2.5".
Proof. vm_compute. reflexivity. Qed.

Example toFixed_2 : JS.toFixed (4 # 100) 1 = "0.0".
Proof. vm_compute. reflexivity. Qed.

Example toFixed_3 : JS.toFixed (- (4 # 10)) 0 = "-0".
Proof. vm_compute. reflexivity. Qed.

Example toFixed_4 : JS.toFixed (15 # 10) 0 = "2".
Proof. vm_compute. reflexivity. Qed.

Example entries_order :
  JS.Object_keys [("b", 1); ("10", 2); ("a", 3); ("9", 4); ("01", 5)]
  = ["9"; "10"; "b"; "a"; "01"].
Proof. vm_compute. reflexivity. Qed.

Example ejemplo_mina_a :
  let e := mkEstado ejemplo (Filtros.mk "" "" "Mina A" "" "" "") in
  registrosFilt (filtrarDatos e)
    = [Registro.mk "P1" 2024 1 1000 900; Registro.mk "P1" 2024 2 500 600]
  /\ proyectosFilt (filtrarDatos e) = [P1]
  /\ totalPresupuestado (actualizarDashboard_kpis e) = 1500
  /\ totalEjecutado (actualizarDashboard_kpis e) = 1500
  /\ fmtPct (pctEjecucion (actualizarDashboard_kpis e)) = "100.0%"
  /\ activos (actualizarDashboard_kpis e) = 1%nat
  /\ map (fun t => (Top.id t, Top.ejecutado t, fmtPct (Top.pct t), sobreEjec t))
         (firstn 1 (top10Proyectos (registrosFilt (filtrarDatos e))
                                   (proyMap (filtrarDatos e))))
     = [("P1", 1500, "100.0%", false)].
Proof. vm_compute. repeat split; reflexivity. Qed.

Example ejemplo_sin_filtros :
  let e := mkEstado ejemplo sin_filtros in
  totalPresupuestado (actualizarDashboard_kpis e) = 3500
  /\ totalEjecutado (actualizarDashboard_kpis e) = 2500
  /\ fmtPct (pctEjecucion (actualizarDashboard_kpis e)) = "71.4%"
  /\ activos (actualizarDashboard_kpis e) = 1%nat
  /\ map fst (agruparPorMes (registrosFilt (filtrarDatos e)))
     = ["2024-01"; "2024-02"]
  /\ map (fun b => Bucket.label (snd b))
         (agruparPorMes (registrosFilt (filtrarDatos e)))
     = ["Ene 2024"; "Feb 2024"]
  /\ map fst (agruparPorCampoProy (registrosFilt (filtrarDatos e))
                                  (proyMap (filtrarDatos e)) campo_area)
     = ["Mina A"; "Mina B"].
Proof. vm_compute. repeat split; reflexivity. Qed.

Example inicializarFiltros_ejemplo :
  inicializarFiltros ejemplo
  = mkOpciones [2024] [1; 2] [Some "Mina A"; Some "Mina B"]
               [Some "Expansión"; Some "Sostenimiento"]
               [Some "Cerrado"; Some "En ejecución"] [Some "Norte"; Some "Sur"].
Proof. vm_compute. reflexivity. Qed.

Example sort_numeros_texto : JSlib.sort_numeros [999; 1000; 25] = [1000; 25; 999].
Proof. vm_compute. reflexivity. Qed.

Example renderKPIs_ejemplo :
  renderKPIs (actualizarDashboard_kpis (mkEstado ejemplo sin_filtros))
  = mkVistaKPIs "$4K" "$3K" "71.4%" "1" "▼ $1K bajo presupuesto" "var(--teal)".
Proof. vm_compute. reflexivity. Qed.

Example chips_ejemplo :
  chips (Filtros.mk "2024" "2" "" "Expansión" "" "")
  = ["Año: 2024"; "Mes: Feb"; "Tipo: Expansión"].
Proof. vm_compute. reflexivity. Qed.

Example renderChartPresupuesto_ejemplo :
  renderChartPresupuesto (registros ejemplo) (proyMap_of (proyectos ejemplo))
  = Some (mkChartPresupuesto ["P1"; "P2"] [1500; 2000] [1500; 1000]
                             ["#2dd4bf"; "#2dd4bf"]).
Proof. vm_compute. reflexivity. Qed.

(** * Properties *)

(** ** Facts about the built-ins *)

Lemma truthy_false (s : string) : JS.truthy s = false <-> s = "".
Proof. destruct s; simpl; split; congruence. Qed.

Lemma truthy_true (s : string) : JS.truthy s = true <-> s <> "".
Proof. destruct s; simpl; split; congruence. Qed.

Lemma strict_neq_num_false (x : Z) (y : option Z) :
  JS.strict_neq_num x y = false <-> y = Some x.
Proof.
  destruct y as [v|]; simpl; [|split; congruence].
  rewrite negb_false_iff, Z.eqb_eq. split; congruence.
Qed.

Lemma strict_neq_str_false (a : option string) (b : string) :
  JS.strict_neq_str a b = false <-> a = Some b.
Proof.
  destruct a as [s|]; simpl; [|split; congruence].
  rewrite negb_false_iff, String.eqb_eq. split; congruence.
Qed.

Lemma strict_eq_str_true (a : option string) (b : string) :
  JS.strict_eq_str a b = true <-> a = Some b.
Proof.
  unfold JS.strict_eq_str. rewrite negb_true_iff. apply strict_neq_str_false.
Qed.

Lemma includes_In (l : list string) (x : string) :
  JS.includes l x = true <-> In x l.
Proof.
  unfold JS.includes. rewrite existsb_exists. split.
  - intros (y & Hy & E). apply String.eqb_eq in E. now subst.
  - intros H. exists x. split; [exact H | apply String.eqb_refl].
Qed.

Lemma Set_of_In_gen (l seen : list string) (x : string) :
  In x (fold_left
          (fun seen x => if existsb (String.eqb x) seen then seen else seen ++ [x])
          l seen)
  <-> In x seen \/ In x l.
Proof.
  revert seen. induction l as [|y l IH]; intros seen; simpl.
  - tauto.
  - rewrite IH. destruct (existsb (String.eqb y) seen) eqn:E.
    + apply (includes_In seen y) in E. split; [tauto|].
      intros [H|[H|H]]; subst; auto.
    + rewrite in_app_iff. simpl. tauto.
Qed.

Lemma Set_of_In (l : list string) (x : string) :
  In x (JS.Set_of l) <-> In x l.
Proof. unfold JS.Set_of. rewrite Set_of_In_gen. simpl. tauto. Qed.

Lemma filter_all {A : Type} (f : A -> bool) (l : list A) :
  (forall x, In x l -> f x = true) -> List.filter f l = l.
Proof.
  induction l as [|a l IH]; simpl; intros H; [reflexivity|].
  rewrite (H a (or_introl eq_refl)). f_equal. apply IH. auto.
Qed.

Lemma filter_is_sublist {A : Type} (f : A -> bool) (l : list A) :
  sublist (List.filter f l) l.
Proof.
  induction l as [|a l IH]; simpl; [constructor|].
  destruct (f a); now constructor.
Qed.

(** ** The project lookup *)

Lemma proyMap_of_gen_Some (ps : list Proyecto.t) (m : gmap string Proyecto.t)
    (k : string) (p : Proyecto.t) :
  fold_left (fun m p => <[Proyecto.id p := p]> m) ps m !! k = Some p ->
  (In p ps /\ Proyecto.id p = k) \/ m !! k = Some p.
Proof.
  revert m. induction ps as [|q ps IH]; intros m H; simpl in *; [now right|].
  apply IH in H as [[H1 H2]|H]; [left; tauto|].
  destruct (decide (Proyecto.id q = k)) as [E|NE].
  - subst k. rewrite lookup_insert_eq in H. injection H as ->. left; auto.
  - rewrite lookup_insert_ne in H by exact NE. now right.
Qed.

Lemma proyMap_of_gen_is_Some (ps : list Proyecto.t) (m : gmap string Proyecto.t)
    (k : string) :
  is_Some (m !! k) \/ (exists p, In p ps /\ Proyecto.id p = k) ->
  is_Some (fold_left (fun m p => <[Proyecto.id p := p]> m) ps m !! k).
Proof.
  revert m. induction ps as [|q ps IH]; intros m H; simpl in *.
  - destruct H as [H|(p & [] & _)]. exact H.
  - apply IH. destruct (decide (Proyecto.id q = k)) as [E|NE].
    + left. subst k. rewrite lookup_insert_eq. eauto.
    + rewrite lookup_insert_ne by exact NE.
      destruct H as [H|(p & [->|H] & E)]; [now left|congruence|right; eauto].
Qed.

(** The lookup holds, under every id, a project of the list with that id. *)
Lemma proyMap_of_Some (ps : list Proyecto.t) (k : string) (p : Proyecto.t) :
  proyMap_of ps !! k = Some p -> In p ps /\ Proyecto.id p = k.
Proof.
  intros H. apply proyMap_of_gen_Some in H as [H|H]; [exact H|].
  rewrite lookup_empty in H. discriminate.
Qed.

Lemma proyMap_of_is_Some (ps : list Proyecto.t) (k : string) :
  is_Some (proyMap_of ps !! k) <-> exists p, In p ps /\ Proyecto.id p = k.
Proof.
  split.
  - intros [p H]. exists p. now apply proyMap_of_Some.
  - intros H. apply proyMap_of_gen_is_Some. now right.
Qed.

(** Reading the lookup as the program does. *)
Lemma heredada_In (k : string) :
  JS.heredada k = true <-> In k JS.Object_prototype_keys.
Proof. apply includes_In. Qed.

Lemma leer_propio {V : Type} (o : gmap string V) (k : string) (v : V) :
  JS.leer o k = JS.propio v <-> o !! k = Some v.
Proof.
  unfold JS.leer. destruct (o !! k) as [w|].
  - split; congruence.
  - destruct (JS.heredada k); split; discriminate.
Qed.

Lemma leer_heredado {V : Type} (o : gmap string V) (k : string) :
  JS.leer o k = JS.heredado <-> o !! k = None /\ JS.heredada k = true.
Proof.
  unfold JS.leer. destruct (o !! k) as [w|].
  - split; [discriminate|]. intros [H _]. discriminate H.
  - destruct (JS.heredada k); split; try discriminate; auto.
    intros [_ H]. discriminate H.
Qed.

Lemma leer_indefinido {V : Type} (o : gmap string V) (k : string) :
  JS.leer o k = JS.indefinido <-> o !! k = None /\ JS.heredada k = false.
Proof.
  unfold JS.leer. destruct (o !! k) as [w|].
  - split; [discriminate|]. intros [H _]. discriminate H.
  - destruct (JS.heredada k); split; try discriminate; auto.
    intros [_ H]. discriminate H.
Qed.

Lemma proyecto_de_leer (pm : gmap string Proyecto.t) (k : string) :
  proyecto_de (JS.leer pm k) = pm !! k.
Proof.
  unfold JS.leer. destruct (pm !! k); [reflexivity|].
  now destruct (JS.heredada k).
Qed.

(** ** C1: the filter is the conjunction of the six conditions *)

Lemma guard_num (sel : string) (x : Z) :
  JS.truthy sel && JS.strict_neq_num x (JS.parseInt sel) = false <-> num_ok sel x.
Proof.
  unfold num_ok. rewrite andb_false_iff, truthy_false, strict_neq_num_false.
  tauto.
Qed.

Lemma guard_attr (sel : string) (v : option string) :
  JS.truthy sel && JS.strict_neq_str v sel = false <-> attr_ok sel v.
Proof.
  unfold attr_ok. rewrite andb_false_iff, truthy_false, strict_neq_str_false.
  tauto.
Qed.

(** A record passes exactly when the value read under its id is not
    [undefined] and meets the six conditions. *)
Lemma pasa_spec (pm : gmap string Proyecto.t) (f : Filtros.t) (reg : Registro.t) :
  pasa pm f reg = true <->
  JS.leer pm (Registro.id_proyecto reg) <> JS.indefinido
  /\ satisface f reg (JS.leer pm (Registro.id_proyecto reg)).
Proof.
  unfold pasa, satisface.
  rewrite <- !guard_num, <- !guard_attr.
  destruct (JS.leer pm (Registro.id_proyecto reg)) as [proy| |].
  3: { split; [discriminate|]. intros [H _]. now elim H. }
  all: split;
    [ intros H; split; [discriminate|];
      repeat match type of H with
             | (if ?b then _ else _) = _ => destruct b; [discriminate|]
             end; tauto
    | intros (_ & H1 & H2 & H3 & H4 & H5 & H6);
      now rewrite H1, H2, H3, H4, H5, H6 ].
Qed.

(** With a project under its id, a record passes exactly when it and the
    project meet the six conditions. *)
Lemma pasa_propio (pm : gmap string Proyecto.t) (f : Filtros.t)
    (reg : Registro.t) (proy : Proyecto.t) :
  pm !! Registro.id_proyecto reg = Some proy ->
  (pasa pm f reg = true <-> satisfies f reg proy).
Proof.
  intros H. apply leer_propio in H. rewrite pasa_spec, H.
  unfold satisface, satisfies. simpl. split; [tauto|].
  intros Hs. split; [discriminate|exact Hs].
Qed.

Lemma filtrarDatos_In (e : Estado) (reg : Registro.t) :
  In reg (registrosFilt (filtrarDatos e)) <->
  In reg (registros (datos e))
  /\ JS.leer (proyMap (filtrarDatos e)) (Registro.id_proyecto reg)
     <> JS.indefinido
  /\ satisface (filtros e) reg
       (JS.leer (proyMap (filtrarDatos e)) (Registro.id_proyecto reg)).
Proof.
  unfold filtrarDatos; simpl. now rewrite filter_In, pasa_spec.
Qed.

Lemma filtrarDatos_In_registros (e : Estado) (reg : Registro.t) :
  In reg (registrosFilt (filtrarDatos e)) -> In reg (registros (datos e)).
Proof. intros H. now apply filtrarDatos_In in H. Qed.

(** C1. The claim fails on the code: [proyMap] is a plain object, so for
    a record whose [id_proyecto] is the name of a member of
    [Object.prototype], such as "constructor", [proyMap[reg.id_proyecto]]
    is that member and [!proy] is false.  With no project of that id in
    the dataset the record is kept, with every filter empty and also with
    a year selected that the record has. *)
Theorem filtrarDatos_keeps_inherited_id :
  let reg := Registro.mk "constructor" 2024 1 10 5 in
  let d := mkDatos [P1] [reg; Registro.mk "P9" 2024 1 10 5] in
  ~ (exists p, In p (proyectos d)
               /\ Proyecto.id p = Registro.id_proyecto reg)
  /\ proyMap (filtrarDatos (mkEstado d sin_filtros)) !! "constructor" = None
  /\ registrosFilt (filtrarDatos (mkEstado d sin_filtros)) = [reg]
  /\ registrosFilt
       (filtrarDatos (mkEstado d (Filtros.mk "2024" "" "" "" "" ""))) = [reg]
  /\ proyectosFilt (filtrarDatos (mkEstado d sin_filtros)) = [].
Proof.
  cbn zeta. split.
  - intros (p & [<-|[]] & E). discriminate E.
  - vm_compute. repeat split; reflexivity.
Qed.

(** ** C2: clearing the filters *)

Lemma limpiar_filtros_filtros (e : Estado) :
  filtros (limpiar_filtros e) = sin_filtros.
Proof. reflexivity. Qed.

Lemma limpiar_filtros_datos (e : Estado) :
  datos (limpiar_filtros e) = datos e.
Proof. reflexivity. Qed.

Lemma satisfies_sin_filtros (reg : Registro.t) (proy : Proyecto.t) :
  satisfies sin_filtros reg proy.
Proof. repeat split; left; reflexivity. Qed.

(** With no filter set, a record with a project in the lookup is kept
    and the kept projects are those some kept record refers to. *)
Lemma filtrarDatos_sin_filtros (e : Estado) :
  filtros e = sin_filtros ->
  let r := filtrarDatos e in
  (forall reg, In reg (registros (datos e)) ->
     (exists p, In p (proyectos (datos e))
                /\ Proyecto.id p = Registro.id_proyecto reg) ->
     In reg (registrosFilt r))
  /\ (forall p, In p (proyectosFilt r) <->
        In p (proyectos (datos e))
        /\ exists reg, In reg (registrosFilt r)
                       /\ Registro.id_proyecto reg = Proyecto.id p).
Proof.
  intros Hf r. split.
  - intros reg Hin Hp. subst r. unfold filtrarDatos; simpl.
    apply filter_In. split; [exact Hin|].
    destruct (proj2 (proyMap_of_is_Some (proyectos (datos e))
                       (Registro.id_proyecto reg)) Hp) as [q Hq].
    apply (pasa_propio _ _ _ q Hq). rewrite Hf. apply satisfies_sin_filtros.
  - intros p. subst r. unfold filtrarDatos; simpl.
    rewrite filter_In, includes_In, Set_of_In, in_map_iff. split.
    + intros (Hp & reg & E & Hin). eauto.
    + intros (Hp & reg & Hin & E). eauto.
Qed.

(** C2, as amended. In a dataset where every record refers to a project of
    the dataset and every project is referred to by a record, the state
    left by "Limpiar filtros" (all six fields empty) gives back all the
    records and all the projects. *)
Theorem limpiar_filtros_identity (e : Estado) :
  (forall reg, In reg (registros (datos e)) ->
     exists p, In p (proyectos (datos e))
               /\ Proyecto.id p = Registro.id_proyecto reg) ->
  (forall p, In p (proyectos (datos e)) ->
     exists reg, In reg (registros (datos e))
                 /\ Registro.id_proyecto reg = Proyecto.id p) ->
  let r := filtrarDatos (limpiar_filtros e) in
  registrosFilt r = registros (datos e)
  /\ proyectosFilt r = proyectos (datos e).
Proof.
  intros Hreg Hproy r.
  destruct (filtrarDatos_sin_filtros (limpiar_filtros e)
              (limpiar_filtros_filtros e)) as [HR HP].
  cbn zeta in HR, HP. rewrite limpiar_filtros_datos in HR, HP.
  assert (ER : registrosFilt r = registros (datos e)).
  { subst r. unfold filtrarDatos; simpl. apply filter_all.
    intros reg Hin.
    assert (Hk : In reg (registrosFilt (filtrarDatos (limpiar_filtros e)))).
    { apply HR; [exact Hin|]. now apply Hreg. }
    unfold filtrarDatos in Hk; simpl in Hk.
    apply filter_In in Hk as [_ Hk]. exact Hk. }
  split; [exact ER|].
  subst r. unfold filtrarDatos; simpl. apply filter_all.
  intros p Hin.
  assert (Hk : In p (proyectosFilt (filtrarDatos (limpiar_filtros e)))).
  { apply HP. split; [exact Hin|]. rewrite ER. now apply Hproy. }
  unfold filtrarDatos in Hk; simpl in Hk.
  apply filter_In in Hk as [_ Hk]. exact Hk.
Qed.

Lemma limpiar_filtros_identity_witness :
  let e := mkEstado ejemplo (Filtros.mk "2024" "1" "Mina A" "" "" "") in
  registrosFilt (filtrarDatos (limpiar_filtros e)) = registros ejemplo
  /\ proyectosFilt (filtrarDatos (limpiar_filtros e)) = proyectos ejemplo.
Proof.
  intros e. apply (limpiar_filtros_identity e).
  - intros reg [<-|[<-|[<-|[]]]]; simpl;
      [exists P1|exists P1|exists P2]; simpl; auto.
  - intros p [<-|[<-|[]]]; simpl.
    + exists (Registro.mk "P1" 2024 1 1000 900); simpl; auto.
    + exists (Registro.mk "P2" 2024 1 2000 1000); simpl; auto.
Defined.

(** C2 as stated fails: a record of an unknown project is dropped and a
    project without records is dropped, also with every filter empty. *)
Lemma limpiar_filtros_counterexample :
  ~ (forall e : Estado,
       filtros e = sin_filtros ->
       registrosFilt (filtrarDatos e) = registros (datos e)
       /\ proyectosFilt (filtrarDatos e) = proyectos (datos e)).
Proof.
  intros H.
  destruct (H (mkEstado (mkDatos [P1; P2] [Registro.mk "P1" 2024 1 1000 900])
                        sin_filtros) eq_refl) as [_ HP].
  vm_compute in HP. discriminate HP.
Qed.

Lemma limpiar_filtros_drops_orphan :
  registrosFilt
    (filtrarDatos (mkEstado (mkDatos [P1] [Registro.mk "P9" 2024 1 10 10])
                            sin_filtros)) = [].
Proof. vm_compute. reflexivity. Qed.


(** ** Sorting *)

Section SortFacts.
Context {A : Type} (cmp : A -> A -> Z).

Lemma insert_sorted_perm (x : A) (l : list A) :
  Permutation (JS.insert_sorted cmp x l) (x :: l).
Proof.
  induction l as [|y l IH]; simpl; [reflexivity|].
  destruct (cmp x y <=? 0); [reflexivity|].
  rewrite IH. apply perm_swap.
Qed.

Lemma Array_sort_perm (l : list A) : Permutation (JS.Array_sort cmp l) l.
Proof.
  induction l as [|x l IH]; simpl; [reflexivity|].
  rewrite insert_sorted_perm. now constructor.
Qed.

Lemma Array_sort_In (l : list A) (x : A) :
  In x (JS.Array_sort cmp l) <-> In x l.
Proof.
  split; apply Permutation_in; [|symmetry]; apply Array_sort_perm.
Qed.

(** A comparator that is total and transitive as a preorder. *)
Hypothesis cmp_total : forall a b, cmp a b <= 0 \/ cmp b a <= 0.
Hypothesis cmp_trans : forall a b c, cmp a b <= 0 -> cmp b c <= 0 -> cmp a c <= 0.

Lemma insert_sorted_sorted (x : A) (l : list A) :
  StronglySorted (fun a b => cmp a b <= 0) l ->
  StronglySorted (fun a b => cmp a b <= 0) (JS.insert_sorted cmp x l).
Proof.
  induction 1 as [|y l Hs IH Hy]; simpl.
  - repeat constructor.
  - destruct (Z.leb_spec (cmp x y) 0) as [Hle|Hgt].
    + constructor; [now constructor|].
      constructor; [exact Hle|].
      rewrite List.Forall_forall in Hy |- *. intros z Hz.
      eapply cmp_trans; [exact Hle|]. now apply Hy.
    + constructor; [exact IH|].
      rewrite List.Forall_forall in Hy |- *. intros z Hz.
      apply (Permutation_in _ (insert_sorted_perm x l)) in Hz as [<-|Hz].
      * destruct (cmp_total x y); lia.
      * now apply Hy.
Qed.

Lemma Array_sort_sorted (l : list A) :
  StronglySorted (fun a b => cmp a b <= 0) (JS.Array_sort cmp l).
Proof.
  induction l as [|x l IH]; simpl; [constructor|].
  now apply insert_sorted_sorted.
Qed.
End SortFacts.

Lemma StronglySorted_firstn {A : Type} (R : A -> A -> Prop) (n : nat) (l : list A) :
  StronglySorted R l -> StronglySorted R (firstn n l).
Proof.
  intros H. revert n. induction H as [|x l Hs IH Hx]; intros [|n]; simpl;
    try constructor; auto.
  rewrite List.Forall_forall in Hx |- *. intros y Hy. apply Hx.
  rewrite <- (firstn_skipn n l). apply in_or_app. now left.
Qed.

Lemma In_firstn {A : Type} (n : nat) (l : list A) (x : A) :
  In x (firstn n l) -> In x l.
Proof.
  intros H. rewrite <- (firstn_skipn n l). apply in_or_app. now left.
Qed.

(** ** C5: status classification *)

(** C5. For every entry, over-execution is [ejecutado > presupuestado],
    and the class of the progress bar and the colour of the percentage
    that the table computes for the entry are green exactly when
    [pct >= 90] without over-execution, red exactly when the entry is
    over-executed or [pct < 50], and yellow in the remaining case; the
    entry of a project with [ejecutado = 120] and [presupuestado = 100] has
    [pct = 120] and is red. *)
Theorem progClass_classification (item : Top.t) :
  (sobreEjec item = true <-> Top.presupuestado item < Top.ejecutado item)
  /\ (progClass item = "prog-green"
        <-> (90 <= Top.pct item)%Q /\ sobreEjec item = false)
  /\ (progClass item = "prog-red"
        <-> sobreEjec item = true \/ (Top.pct item < 50)%Q)
  /\ (progClass item = "prog-yellow"
        <-> ~ ((90 <= Top.pct item)%Q /\ sobreEjec item = false)
            /\ ~ (sobreEjec item = true \/ (Top.pct item < 50)%Q))
  /\ (pctColor item = "var(--teal)"
        <-> (90 <= Top.pct item)%Q /\ sobreEjec item = false)
  /\ (pctColor item = "var(--red-alert)"
        <-> sobreEjec item = true \/ (Top.pct item < 50)%Q)
  /\ (pctColor item = "var(--gold)"
        <-> ~ ((90 <= Top.pct item)%Q /\ sobreEjec item = false)
            /\ ~ (sobreEjec item = true \/ (Top.pct item < 50)%Q))
  /\ (forall pm,
        let fila := top_de pm (Top.id item, Suma.mk 100 120) in
        (Top.pct fila == 120)%Q /\ sobreEjec fila = true
        /\ progClass fila = "prog-red" /\ pctColor fila = "var(--red-alert)").
Proof.
  assert (H90 : Qle_bool 90 (Top.pct item) = true <-> (90 <= Top.pct item)%Q)
    by apply Qle_bool_iff.
  assert (H50 : Qle_bool 50 (Top.pct item) = true <-> (50 <= Top.pct item)%Q)
    by apply Qle_bool_iff.
  assert (Hex : forall pm,
            let fila := top_de pm (Top.id item, Suma.mk 100 120) in
            (Top.pct fila == 120)%Q /\ sobreEjec fila = true
            /\ progClass fila = "prog-red"
            /\ pctColor fila = "var(--red-alert)").
  { intros pm. vm_compute. repeat split; reflexivity. }
  split; [unfold sobreEjec; apply Z.ltb_lt|].
  unfold progClass, pctColor, progClass_de, pctColor_de.
  destruct (Qle_bool 90 (Top.pct item)); destruct (Qle_bool 50 (Top.pct item));
    destruct (sobreEjec item); simpl;
    (split; [|split; [|split; [|split; [|split; [|split; [|exact Hex]]]]]]);
    intuition (first [discriminate | congruence | lra | idtac]).
Qed.

(** ** KPI totals *)

Lemma fold_left_suma (campo : Registro.t -> Z) (l : list Registro.t) (a : Z) :
  fold_left (fun s r => s + campo r) l a = a + suma campo l.
Proof.
  revert a. induction l as [|r l IH]; intros a; simpl; [lia|].
  rewrite IH. lia.
Qed.

Lemma activos_en_ejecucion (l : list Proyecto.t) :
  length (List.filter
            (fun p => JS.strict_eq_str (Proyecto.estado p) "En ejecución") l)
  = en_ejecucion l.
Proof.
  induction l as [|p l IH]; simpl; [reflexivity|].
  destruct (decide (Proyecto.estado p = Some "En ejecución")) as [E|NE].
  - apply strict_eq_str_true in E. rewrite E. simpl. now rewrite IH.
  - destruct (JS.strict_eq_str (Proyecto.estado p) "En ejecución") eqn:E; [|exact IH].
    apply strict_eq_str_true in E. contradiction.
Qed.

Lemma calcularKPIs_totales (rf : list Registro.t) (pf : list Proyecto.t) :
  totalPresupuestado (calcularKPIs rf pf) = suma Registro.presupuestado rf
  /\ totalEjecutado (calcularKPIs rf pf) = suma Registro.ejecutado rf
  /\ activos (calcularKPIs rf pf) = en_ejecucion pf.
Proof.
  unfold calcularKPIs; simpl. rewrite !fold_left_suma, activos_en_ejecucion.
  repeat split; lia.
Qed.

(** C8. The totals shown are the sums of [ejecutado] and of
    [presupuestado] over the filtered records, and [activos] is the number
    of filtered projects whose [estado] is "En ejecución"; this holds for
    every dataset and selection, and for every pair of lists handed to
    [calcularKPIs]. *)
Theorem kpi_consistency :
  (forall e : Estado,
     let r := filtrarDatos e in
     let k := actualizarDashboard_kpis e in
     totalEjecutado k = suma Registro.ejecutado (registrosFilt r)
     /\ totalPresupuestado k = suma Registro.presupuestado (registrosFilt r)
     /\ activos k = en_ejecucion (proyectosFilt r))
  /\ (forall rf pf,
        totalEjecutado (calcularKPIs rf pf) = suma Registro.ejecutado rf
        /\ totalPresupuestado (calcularKPIs rf pf) = suma Registro.presupuestado rf
        /\ activos (calcularKPIs rf pf) = en_ejecucion pf).
Proof.
  split.
  - intros e r k. subst k. unfold actualizarDashboard_kpis. fold r.
    destruct (calcularKPIs_totales (registrosFilt r) (proyectosFilt r))
      as (H1 & H2 & H3). auto.
  - intros rf pf. destruct (calcularKPIs_totales rf pf) as (H1 & H2 & H3). auto.
Qed.

(** ** C6: percentages with a zero budget *)

Lemma Qeq_bool_inject_Z_0 (p : Z) : Qeq_bool (inject_Z p) 0 = (p =? 0).
Proof.
  unfold Qeq_bool, inject_Z. simpl. now rewrite Z.mul_1_r.
Qed.

(** Under the guard the quotient is finite. *)
Lemma pct_js_eq (p e : Z) :
  pct_js p e
  = JS.Num (if 0 <? p then (inject_Z e / inject_Z p * 100)%Q else 0%Q).
Proof.
  unfold pct_js. destruct (Z.ltb_spec 0 p) as [H|H]; [|reflexivity].
  unfold JS.dividir. rewrite Qeq_bool_inject_Z_0.
  destruct (Z.eqb_spec p 0) as [->|_]; [lia|reflexivity].
Qed.

Lemma pct_de_eq (p e : Z) :
  pct_de p e = if 0 <? p then (inject_Z e / inject_Z p * 100)%Q else 0%Q.
Proof. unfold pct_de. now rewrite pct_js_eq. Qed.

Lemma pct_js_finito (p e : Z) : pct_js p e = JS.Num (pct_de p e).
Proof. unfold pct_de. now rewrite pct_js_eq. Qed.

Lemma pct_de_zero (ejecutado : Z) : pct_de 0 ejecutado = 0%Q.
Proof. reflexivity. Qed.

Lemma ranking_In_top_de (rf : list Registro.t) (pm : gmap string Proyecto.t)
    (item : Top.t) :
  In item (ranking rf pm) ->
  Top.pct item = pct_de (Top.presupuestado item) (Top.ejecutado item)
  /\ Top.proy item = pm !! Top.id item.
Proof.
  unfold ranking. rewrite Array_sort_In, in_map_iff.
  intros ([id s] & <- & _). simpl. split; [reflexivity|].
  apply proyecto_de_leer.
Qed.

Lemma filtrarDatos_vacio (e : Estado) :
  registrosFilt (filtrarDatos e) = [] -> proyectosFilt (filtrarDatos e) = [].
Proof.
  unfold filtrarDatos; simpl. intros ->. simpl.
  induction (proyectos (datos e)) as [|p l IH]; simpl; auto.
Qed.

(** C6. A quotient with a zero divisor is [NaN] or an infinity, and the
    two percentages never are: the number [calcularKPIs] computes for
    [pctEjecucion] and the number [top10Proyectos] computes for the [pct]
    of a row are finite, and they are 0 when the budget (the total one,
    or the one summed for the project) is 0; with no record (an empty
    dataset, or a selection nothing matches) the four KPIs are 0. *)
Theorem division_by_zero_totality :
  (JS.dividir 0 0 = JS.NaN
   /\ forall e, e <> 0 -> exists s, JS.dividir (inject_Z e) 0 = JS.Infinito s)
  /\ (forall rf pf,
        let k := calcularKPIs rf pf in
        pct_js (totalPresupuestado k) (totalEjecutado k)
        = JS.Num (pctEjecucion k)
        /\ (totalPresupuestado k = 0 -> pctEjecucion k = 0%Q))
  /\ (forall rf pm item,
        In item (top10Proyectos rf pm) ->
        pct_js (Top.presupuestado item) (Top.ejecutado item)
        = JS.Num (Top.pct item)
        /\ (Top.presupuestado item = 0 -> Top.pct item = 0%Q))
  /\ calcularKPIs [] [] = mkKPIs 0 0 0%Q 0%nat
  /\ (forall e,
        registrosFilt (filtrarDatos e) = [] ->
        actualizarDashboard_kpis e = mkKPIs 0 0 0%Q 0%nat)
  /\ (forall e,
        registros (datos e) = [] ->
        actualizarDashboard_kpis e = mkKPIs 0 0 0%Q 0%nat).
Proof.
  assert (Hvacio : forall e, registrosFilt (filtrarDatos e) = [] ->
            actualizarDashboard_kpis e = mkKPIs 0 0 0%Q 0%nat).
  { intros e H. unfold actualizarDashboard_kpis.
    rewrite (filtrarDatos_vacio e H), H. reflexivity. }
  split; [|split; [|split; [|split; [|split]]]].
  - split; [reflexivity|]. intros e He. unfold JS.dividir.
    rewrite Qeq_bool_inject_Z_0. destruct (Z.eqb_spec e 0); [contradiction|].
    change (Qeq_bool 0 0) with true. cbn iota. eauto.
  - intros rf pf k. split.
    + subst k. unfold calcularKPIs; simpl. apply pct_js_finito.
    + subst k. unfold calcularKPIs; simpl. intros ->. reflexivity.
  - intros rf pm item Hin. apply In_firstn in Hin.
    apply ranking_In_top_de in Hin as [-> _]. split.
    + apply pct_js_finito.
    + intros ->. apply pct_de_zero.
  - reflexivity.
  - exact Hvacio.
  - intros e H. apply Hvacio. unfold filtrarDatos; simpl. now rewrite H.
Qed.

Lemma division_by_zero_totality_witness :
  pctEjecucion (calcularKPIs [Registro.mk "P1" 2024 1 0 900] [P1]) = 0%Q
  /\ List.Forall (fun item => Top.pct item = 0%Q)
                 (top10Proyectos [Registro.mk "P1" 2024 1 0 900] ∅)
  /\ actualizarDashboard_kpis (mkEstado (mkDatos [P1; P2] []) sin_filtros)
     = mkKPIs 0 0 0%Q 0%nat.
Proof.
  destruct division_by_zero_totality as (_ & H1 & H2 & _ & _ & H5).
  split; [|split].
  - apply H1. reflexivity.
  - apply List.Forall_forall. intros item Hin.
    apply (H2 [Registro.mk "P1" 2024 1 0 900] ∅ item Hin).
    vm_compute in Hin. destruct Hin as [<-|[]]. reflexivity.
  - apply H5. reflexivity.
Defined.

(** ** Objects as ordered association lists *)

Section ObjFacts.
Context {V : Type}.
Implicit Types (o : list (string * V)) (k : string) (v : V).

Lemma obj_get_set_eq o k v : JS.obj_get (JS.obj_set o k v) k = Some v.
Proof.
  induction o as [|[k' v'] o IH]; simpl.
  - now rewrite String.eqb_refl.
  - destruct (String.eqb k k') eqn:E; simpl; rewrite E; auto.
Qed.

Lemma obj_get_set_ne o k k' v :
  k <> k' -> JS.obj_get (JS.obj_set o k v) k' = JS.obj_get o k'.
Proof.
  intros NE. induction o as [|[k0 v0] o IH]; simpl.
  - apply not_eq_sym in NE. apply String.eqb_neq in NE. now rewrite NE.
  - destruct (String.eqb k k0) eqn:E; simpl.
    + apply String.eqb_eq in E. subst k0.
      apply not_eq_sym in NE. apply String.eqb_neq in NE. now rewrite NE.
    + now rewrite IH.
Qed.

Lemma obj_get_None_keys o k :
  JS.obj_get o k = None <-> ~ In k (map fst o).
Proof.
  induction o as [|[k' v'] o IH]; simpl; [tauto|].
  destruct (String.eqb_spec k k') as [->|NE].
  - split; [discriminate|]. intros H. exfalso. auto.
  - rewrite IH. split; [intros H [E|H']; [congruence|auto]|tauto].
Qed.

Lemma obj_set_keys o k v :
  map fst (JS.obj_set o k v)
  = match JS.obj_get o k with
    | Some _ => map fst o
    | None => map fst o ++ [k]
    end.
Proof.
  induction o as [|[k' v'] o IH]; simpl; [reflexivity|].
  destruct (String.eqb k k') eqn:E; simpl; [reflexivity|].
  rewrite IH. now destruct (JS.obj_get o k).
Qed.

Lemma obj_set_NoDup o k v :
  NoDup (map fst o) -> NoDup (map fst (JS.obj_set o k v)).
Proof.
  intros H. rewrite obj_set_keys. destruct (JS.obj_get o k) eqn:E; [exact H|].
  apply obj_get_None_keys in E.
  apply NoDup_app; split; [exact H|]. split.
  - intros x Hx Hx'. apply list_elem_of_In in Hx, Hx'.
    destruct Hx' as [<-|[]]. auto.
  - apply NoDup_singleton.
Qed.

Lemma obj_get_In o k v :
  NoDup (map fst o) -> (JS.obj_get o k = Some v <-> In (k, v) o).
Proof.
  induction o as [|[k' v'] o IH]; simpl; intros H.
  - split; [discriminate|tauto].
  - apply NoDup_cons in H as [Hk H].
    rewrite list_elem_of_In in Hk.
    destruct (String.eqb_spec k k') as [->|NE].
    + split.
      * intros [= ->]. now left.
      * intros [[= ->]|Hin]; [reflexivity|].
        exfalso. apply Hk. apply in_map_iff. now exists (k', v).
    + rewrite (IH H). split; [tauto|]. intros [[= -> ->]|Hin]; [congruence|exact Hin].
Qed.

Lemma filter_partition_perm {A : Type} (f : A -> bool) (l : list A) :
  Permutation (List.filter f l ++ List.filter (fun x => negb (f x)) l) l.
Proof.
  induction l as [|x l IH]; simpl; [reflexivity|].
  destruct (f x); simpl.
  - now constructor.
  - rewrite <- Permutation_middle. now constructor.
Qed.

Lemma Object_entries_perm o : Permutation (JS.Object_entries o) o.
Proof.
  unfold JS.Object_entries. rewrite Array_sort_perm. apply filter_partition_perm.
Qed.

Lemma Object_entries_In o (e : string * V) :
  In e (JS.Object_entries o) <-> In e o.
Proof.
  split; apply Permutation_in; [|symmetry]; apply Object_entries_perm.
Qed.
End ObjFacts.

(** ** The accumulation loop *)

Section AcumularFacts.
Context {V : Type}.
Variable init : Registro.t -> V.
Variables add1 add2 : Registro.t -> V -> V.
Variable clave : Registro.t -> string.

Local Abbreviation valor := (valor add1 add2).
Local Abbreviation paso := (acumular init add1 add2 clave).

Lemma acumular_get acc reg k :
  JS.obj_get (paso acc reg) k
  = if String.eqb (clave reg) k
    then match JS.obj_get acc k with
         | Some v => Some (add2 reg (add1 reg v))
         | None => if JS.heredada k then None
                   else Some (add2 reg (add1 reg (init reg)))
         end
    else JS.obj_get acc k.
Proof.
  unfold acumular, obj_update.
  destruct (String.eqb_spec (clave reg) k) as [<-|NE].
  - destruct (JS.obj_get acc (clave reg)) as [v|] eqn:E.
    + rewrite E, obj_get_set_eq, obj_get_set_eq. reflexivity.
    + destruct (JS.heredada (clave reg)).
      * now rewrite !E.
      * rewrite !obj_get_set_eq. reflexivity.
  - destruct (JS.obj_get acc (clave reg)) as [v|] eqn:E.
    + rewrite E, obj_get_set_eq, !obj_get_set_ne by exact NE. reflexivity.
    + destruct (JS.heredada (clave reg)).
      * now rewrite !E.
      * rewrite !obj_get_set_eq, !obj_get_set_ne by exact NE. reflexivity.
Qed.

Lemma acumular_NoDup acc reg :
  NoDup (map fst acc) -> NoDup (map fst (paso acc reg)).
Proof.
  intros H. unfold acumular, obj_update.
  repeat match goal with
         | |- context [match ?x with Some _ => _ | None => _ end] =>
             destruct x
         | |- context [if ?x then _ else _] => destruct x
         end; repeat apply obj_set_NoDup; exact H.
Qed.

Lemma acumular_fold_NoDup regs acc :
  NoDup (map fst acc) -> NoDup (map fst (fold_left paso regs acc)).
Proof.
  revert acc. induction regs as [|r regs IH]; intros acc H; simpl; [exact H|].
  apply IH. now apply acumular_NoDup.
Qed.

Lemma acumular_fold_get regs acc k :
  JS.obj_get (fold_left paso regs acc) k
  = match JS.obj_get acc k with
    | Some v => Some (valor v (grupo clave k regs))
    | None =>
        if JS.heredada k then None
        else match grupo clave k regs with
             | [] => None
             | r :: rs => Some (valor (init r) (r :: rs))
             end
    end.
Proof.
  revert acc. induction regs as [|r regs IH]; intros acc; simpl.
  - destruct (JS.obj_get acc k); [reflexivity|]. now destruct (JS.heredada k).
  - rewrite IH, acumular_get. unfold grupo; simpl.
    destruct (String.eqb (clave r) k); [|reflexivity].
    destruct (JS.obj_get acc k); [reflexivity|].
    destruct (JS.heredada k); reflexivity.
Qed.

(** Starting from the empty object: the keys are distinct, none is a
    name inherited from [Object.prototype], and any other key holds a
    value exactly when some record falls under it, the value being
    accumulated over those records in their order. *)
Lemma acumular_fold_spec regs :
  let acc := fold_left paso regs [] in
  NoDup (map fst acc)
  /\ forall k v,
       In (k, v) acc <->
       JS.heredada k = false
       /\ exists r rs,
            grupo clave k regs = r :: rs /\ v = valor (init r) (r :: rs).
Proof.
  intros acc.
  assert (HN : NoDup (map fst acc)) by (apply acumular_fold_NoDup; constructor).
  split; [exact HN|]. intros k v.
  rewrite <- (obj_get_In acc k v HN). subst acc.
  rewrite acumular_fold_get. simpl.
  destruct (JS.heredada k).
  { split; [discriminate|]. intros [H _]. discriminate H. }
  destruct (grupo clave k regs) as [|r rs].
  - split; [discriminate|]. intros (_ & r & rs & H & _). discriminate.
  - split.
    + intros [= <-]. eauto.
    + intros (_ & r' & rs' & [= <- <-] & ->). reflexivity.
Qed.
End AcumularFacts.

Lemma grupo_In clave k regs r :
  In r (grupo clave k regs) <-> In r regs /\ clave r = k.
Proof. unfold grupo. now rewrite filter_In, String.eqb_eq. Qed.

Lemma valor_suma (s : Suma.t) (rs : list Registro.t) :
  valor suma_add_presupuestado suma_add_ejecutado s rs
  = Suma.mk (Suma.presupuestado s + suma Registro.presupuestado rs)
            (Suma.ejecutado s + suma Registro.ejecutado rs).
Proof.
  unfold valor. revert s. induction rs as [|r rs IH]; intros s; simpl.
  - destruct s; simpl; f_equal; lia.
  - rewrite IH. simpl. f_equal; lia.
Qed.

Lemma valor_bucket (b : Bucket.t) (rs : list Registro.t) :
  valor bucket_add_ejecutado bucket_add_presupuestado b rs
  = Bucket.mk (Bucket.label b)
              (Bucket.ejecutado b + suma Registro.ejecutado rs)
              (Bucket.presupuestado b + suma Registro.presupuestado rs).
Proof.
  unfold valor. revert b. induction rs as [|r rs IH]; intros b; simpl.
  - destruct b; simpl; f_equal; lia.
  - rewrite IH. simpl. f_equal; lia.
Qed.

(** ** Groups of sums *)

Lemma suma_indicador (k0 : string) (x : Z) (keys : list string) :
  NoDup keys -> In k0 keys ->
  fold_right (fun k s => (if String.eqb k0 k then x else 0) + s) 0 keys = x.
Proof.
  induction keys as [|k keys IH]; simpl; intros HN Hin; [tauto|].
  apply NoDup_cons in HN as [Hk HN]. rewrite list_elem_of_In in Hk.
  destruct (String.eqb_spec k0 k) as [->|NE].
  - assert (E : fold_right (fun k1 s => (if String.eqb k k1 then x else 0) + s)
                           0 keys = 0).
    { clear IH HN Hin. induction keys as [|k1 keys IH]; simpl; [reflexivity|].
      destruct (String.eqb_spec k k1) as [->|_].
      - exfalso. apply Hk. now left.
      - rewrite IH; [lia|]. intros H. apply Hk. now right. }
    rewrite E. lia.
  - destruct Hin as [->|Hin]; [congruence|]. rewrite IH by assumption. lia.
Qed.

(** Distinct keys that cover the records split the sum of a field. *)
Lemma suma_particion (clave : Registro.t -> string) (campo : Registro.t -> Z)
    (keys : list string) (regs : list Registro.t) :
  NoDup keys ->
  (forall r, In r regs -> In (clave r) keys) ->
  fold_right (fun k s => suma campo (grupo clave k regs) + s) 0 keys
  = suma campo regs.
Proof.
  intros HN. induction regs as [|r regs IH]; intros Hcov; simpl.
  - induction keys as [|k keys IHk]; simpl; [reflexivity|].
    apply NoDup_cons in HN as [_ HN]. now rewrite IHk.
  - rewrite <- IH by (intros; apply Hcov; now right).
    rewrite <- (suma_indicador (clave r) (campo r) keys HN)
      by (apply Hcov; now left).
    clear. induction keys as [|k keys IHk]; simpl; [reflexivity|].
    unfold grupo in *; simpl. destruct (String.eqb (clave r) k); simpl; lia.
Qed.

Lemma suma_grupos_keys (f : Suma.t -> Z) (h : string -> Z)
    (o : list (string * Suma.t)) :
  (forall e, In e o -> f (snd e) = h (fst e)) ->
  suma_grupos f o = fold_right (fun k s => h k + s) 0 (map fst o).
Proof.
  induction o as [|e o IH]; simpl; intros H; [reflexivity|].
  rewrite IH by auto. now rewrite H by auto.
Qed.

Lemma agrupados_In clave regs r :
  In r (agrupados clave regs) <-> In r regs /\ JS.heredada (clave r) = false.
Proof. unfold agrupados. now rewrite filter_In, negb_true_iff. Qed.

Lemma agrupados_todos clave regs :
  (forall r, In r regs -> JS.heredada (clave r) = false) ->
  agrupados clave regs = regs.
Proof.
  intros H. apply filter_all. intros r Hr. now rewrite (H r Hr).
Qed.

Lemma grupo_agrupados clave k regs :
  JS.heredada k = false ->
  grupo clave k (agrupados clave regs) = grupo clave k regs.
Proof.
  intros Hk. unfold grupo, agrupados.
  induction regs as [|r regs IH]; [reflexivity|]. simpl.
  destruct (String.eqb_spec (clave r) k) as [E|NE].
  - rewrite E, Hk. simpl. rewrite E, String.eqb_refl. now rewrite IH.
  - destruct (JS.heredada (clave r)); simpl; [exact IH|].
    destruct (String.eqb_spec (clave r) k); [contradiction|exact IH].
Qed.

(** What the loop over [Suma] objects builds, for any key function: a
    group for every key of a record that is not an inherited name, with
    the sums of the records under it; the groups add up to the sums over
    the records that got a group. *)
Lemma acumular_suma_spec (clave : Registro.t -> string) (regs : list Registro.t) :
  let acc := fold_left
               (acumular suma_init suma_add_presupuestado suma_add_ejecutado clave)
               regs [] in
  NoDup (map fst acc)
  /\ (forall k s, In (k, s) acc <->
        JS.heredada k = false
        /\ (exists r, In r regs /\ clave r = k) /\ s = suma_de clave k regs)
  /\ suma_grupos Suma.presupuestado acc
     = suma Registro.presupuestado (agrupados clave regs)
  /\ suma_grupos Suma.ejecutado acc
     = suma Registro.ejecutado (agrupados clave regs).
Proof.
  intros acc.
  destruct (acumular_fold_spec suma_init suma_add_presupuestado
              suma_add_ejecutado clave regs) as [HN Hin]. fold acc in HN, Hin.
  assert (Hiff : forall k s, In (k, s) acc <->
            JS.heredada k = false
            /\ (exists r, In r regs /\ clave r = k)
            /\ s = suma_de clave k regs).
  { intros k s. rewrite Hin. split.
    - intros (Hk & r & rs & Hg & ->). split; [exact Hk|]. split.
      + exists r. apply grupo_In. rewrite Hg. now left.
      + rewrite valor_suma, <- Hg. reflexivity.
    - intros (Hk & (r & Hr & Hc) & ->). split; [exact Hk|].
      assert (Hg : In r (grupo clave k regs)) by (apply grupo_In; auto).
      destruct (grupo clave k regs) as [|r0 rs] eqn:Hg0; [destruct Hg|].
      exists r0, rs. split; [reflexivity|].
      rewrite valor_suma. unfold suma_de. rewrite Hg0. reflexivity. }
  assert (Hcov : forall r, In r (agrupados clave regs) ->
            In (clave r) (map fst acc)).
  { intros r Hr. apply agrupados_In in Hr as [Hr Hk].
    apply in_map_iff. exists (clave r, suma_de clave (clave r) regs).
    split; [reflexivity|]. apply Hiff. eauto. }
  split; [exact HN|]. split; [exact Hiff|]. split.
  - rewrite (suma_grupos_keys _
               (fun k => suma Registro.presupuestado
                           (grupo clave k (agrupados clave regs)))).
    + now apply suma_particion.
    + intros [k s] He. apply Hiff in He as (Hk & _ & ->). simpl.
      now rewrite grupo_agrupados.
  - rewrite (suma_grupos_keys _
               (fun k => suma Registro.ejecutado
                           (grupo clave k (agrupados clave regs)))).
    + now apply suma_particion.
    + intros [k s] He. apply Hiff in He as (Hk & _ & ->). simpl.
      now rewrite grupo_agrupados.
Qed.

(** ** C7: grouping by an attribute of the project *)

Lemma clave_campo_propio (pm : gmap string Proyecto.t) (campo : Campo)
    (r : Registro.t) (proy : Proyecto.t) :
  pm !! Registro.id_proyecto r = Some proy ->
  clave_campo pm campo r = to_key (prop proy campo).
Proof.
  intros H. apply leer_propio in H. unfold clave_campo. now rewrite H.
Qed.

Lemma clave_campo_indefinido (pm : gmap string Proyecto.t) (campo : Campo)
    (r : Registro.t) :
  pm !! Registro.id_proyecto r = None ->
  JS.heredada (Registro.id_proyecto r) = false ->
  clave_campo pm campo r = "N/A".
Proof.
  intros H1 H2. unfold clave_campo.
  now rewrite (proj2 (leer_indefinido pm _) (conj H1 H2)).
Qed.

Lemma clave_campo_heredado (pm : gmap string Proyecto.t) (campo : Campo)
    (r : Registro.t) :
  pm !! Registro.id_proyecto r = None ->
  JS.heredada (Registro.id_proyecto r) = true ->
  clave_campo pm campo r = "undefined".
Proof.
  intros H1 H2. unfold clave_campo.
  now rewrite (proj2 (leer_heredado pm _) (conj H1 H2)).
Qed.

(** C7, as amended. When no [id_proyecto] and no group key is the name
    of a member inherited from [Object.prototype]: the keys of the grouping
    are distinct; a key is present exactly when some record falls under it
    and then holds the sums of [presupuestado] and of [ejecutado] over
    those records; a record falls under its project's value of the
    attribute, under "undefined" when its project lacks the attribute, and
    under "N/A" when its [id_proyecto] has no project in the lookup; every
    record is in the group of its key and in no other, and the groups add
    up to the totals over all the records. *)
Theorem agruparPorCampoProy_grupos (regs : list Registro.t)
    (pm : gmap string Proyecto.t) (campo : Campo) :
  let acc := agruparPorCampoProy regs pm campo in
  let clave := clave_campo pm campo in
  (forall r, In r regs -> JS.heredada (Registro.id_proyecto r) = false) ->
  (forall r, In r regs -> JS.heredada (clave r) = false) ->
  NoDup (map fst acc)
  /\ (forall k s, In (k, s) acc <->
        (exists r, In r regs /\ clave r = k) /\ s = suma_de clave k regs)
  /\ (forall r, In r regs -> exists s, In (clave r, s) acc)
  /\ (forall r proy a,
        In r regs ->
        pm !! Registro.id_proyecto r = Some proy -> prop proy campo = Some a ->
        clave r = a)
  /\ (forall r proy,
        In r regs ->
        pm !! Registro.id_proyecto r = Some proy -> prop proy campo = None ->
        clave r = "undefined")
  /\ (forall r, In r regs ->
        pm !! Registro.id_proyecto r = None -> clave r = "N/A")
  /\ suma_grupos Suma.presupuestado acc = suma Registro.presupuestado regs
  /\ suma_grupos Suma.ejecutado acc = suma Registro.ejecutado regs.
Proof.
  intros acc clave Hid Hclave.
  destruct (acumular_suma_spec clave regs) as (HN & Hiff & HP & HE).
  rewrite (agrupados_todos clave regs Hclave) in HP, HE.
  assert (Hiff' : forall k s, In (k, s) acc <->
            (exists r, In r regs /\ clave r = k) /\ s = suma_de clave k regs).
  { intros k s. unfold acc, agruparPorCampoProy. fold clave. rewrite Hiff.
    split; [tauto|]. intros [(r & Hr & <-) ->].
    split; [now apply Hclave|]. eauto. }
  split; [exact HN|]. split; [exact Hiff'|]. split.
  { intros r Hr. exists (suma_de clave (clave r) regs). apply Hiff'. eauto. }
  split.
  { intros r proy a _ H1 H2. subst clave.
    now rewrite (clave_campo_propio _ _ _ _ H1), H2. }
  split.
  { intros r proy _ H1 H2. subst clave.
    now rewrite (clave_campo_propio _ _ _ _ H1), H2. }
  split.
  { intros r Hr H1. subst clave. apply clave_campo_indefinido; auto. }
  split; assumption.
Qed.

Lemma agruparPorCampoProy_grupos_witness :
  let regs := [Registro.mk "P1" 2024 1 1000 900;
               Registro.mk "P9" 2024 1 20 10;
               Registro.mk "P3" 2024 2 7 5] in
  let pm := proyMap_of [P1; P3] in
  clave_campo pm campo_area (Registro.mk "P1" 2024 1 1000 900) = "Mina A"
  /\ clave_campo pm campo_area (Registro.mk "P3" 2024 2 7 5) = "undefined"
  /\ clave_campo pm campo_area (Registro.mk "P9" 2024 1 20 10) = "N/A"
  /\ exists s, In ("undefined", s) (agruparPorCampoProy regs pm campo_area).
Proof.
  intros regs pm.
  assert (H1 : forall r, In r regs ->
            JS.heredada (Registro.id_proyecto r) = false).
  { intros r [<-|[<-|[<-|[]]]]; reflexivity. }
  assert (H2 : forall r, In r regs ->
            JS.heredada (clave_campo pm campo_area r) = false).
  { intros r [<-|[<-|[<-|[]]]]; reflexivity. }
  destruct (agruparPorCampoProy_grupos regs pm campo_area H1 H2)
    as (_ & _ & Hin & Ha & Hu & Hna & _).
  split; [|split; [|split]].
  - apply (Ha _ P1); [left|..]; reflexivity.
  - apply (Hu _ P3); [right; right; left|..]; reflexivity.
  - apply Hna; [right; left|]; reflexivity.
  - apply (Hin (Registro.mk "P3" 2024 2 7 5)). right. right. left. reflexivity.
Defined.

(** C7 as stated fails: the record of a project without [area] is grouped
    under "undefined", and no "N/A" group exists. *)
Lemma agruparPorCampoProy_counterexample :
  ~ (forall regs pm campo r proy,
       In r regs ->
       pm !! Registro.id_proyecto r = Some proy ->
       prop proy campo = None ->
       In "N/A" (map fst (agruparPorCampoProy regs pm campo))).
Proof.
  intros H.
  specialize (H [Registro.mk "P3" 2024 2 7 5] (proyMap_of [P3]) campo_area
                (Registro.mk "P3" 2024 2 7 5) P3
                (or_introl eq_refl) eq_refl eq_refl).
  vm_compute in H. destruct H as [H|[]]. discriminate H.
Qed.

Example agruparPorCampoProy_sin_area :
  agruparPorCampoProy [Registro.mk "P3" 2024 2 7 5] (proyMap_of [P3]) campo_area
  = [("undefined", Suma.mk 7 5)].
Proof. vm_compute. reflexivity. Qed.

(** A record whose project has an attribute named like a member of
    [Object.prototype] gets no group, and a record whose id is such a
    name, without project, is keyed "undefined". *)
Example agruparPorCampoProy_heredadas :
  agruparPorCampoProy
    [Registro.mk "P4" 2024 1 10 5; Registro.mk "P1" 2024 1 1 1]
    (proyMap_of [P1; Proyecto.mk "P4" None (Some "constructor") None None
                                 None None])
    campo_area
  = [("Mina A", Suma.mk 1 1)]
  /\ agruparPorCampoProy [Registro.mk "constructor" 2024 1 10 5] ∅ campo_area
     = [("undefined", Suma.mk 10 5)].
Proof. vm_compute. split; reflexivity. Qed.

(** ** C4: the ranking *)

Lemma StronglySorted_app_order {A : Type} (R : A -> A -> Prop) (l1 l2 : list A) :
  StronglySorted R (l1 ++ l2) ->
  forall a b, In a l1 -> In b l2 -> R a b.
Proof.
  induction l1 as [|x l1 IH]; simpl; intros H a b Ha Hb; [destruct Ha|].
  apply StronglySorted_inv in H as [Hs Hx].
  destruct Ha as [<-|Ha]; [|now apply IH].
  rewrite List.Forall_forall in Hx. apply Hx. apply in_or_app. now right.
Qed.

Lemma StronglySorted_map_in {A B : Type} (R : A -> A -> Prop)
    (R' : B -> B -> Prop) (f : A -> B) (l : list A) :
  (forall x y, In x l -> In y l -> R x y -> R' (f x) (f y)) ->
  StronglySorted R l -> StronglySorted R' (map f l).
Proof.
  intros Hf H. induction H as [|x l Hs IH Hx]; simpl; constructor.
  - apply IH. intros a b Ha Hb. apply Hf; now right.
  - rewrite List.Forall_forall in Hx |- *. intros y Hy.
    apply in_map_iff in Hy as (z & <- & Hz).
    apply Hf; [now left|now right|now apply Hx].
Qed.

Lemma StronglySorted_mono {A : Type} (R R' : A -> A -> Prop) (l : list A) :
  (forall x y, R x y -> R' x y) ->
  StronglySorted R l -> StronglySorted R' l.
Proof.
  intros Hf H. rewrite <- (map_id l).
  apply (StronglySorted_map_in R R' (fun x => x)); auto.
Qed.

Lemma Permutation_in_iff {A : Type} (l l' : list A) (x : A) :
  Permutation l l' -> (In x l <-> In x l').
Proof.
  intros H. split; apply Permutation_in; [exact H|now symmetry].
Qed.

Lemma NoDup_firstn {A : Type} (n : nat) (l : list A) :
  NoDup l -> NoDup (firstn n l).
Proof.
  intros H. rewrite <- (firstn_skipn n l) in H.
  apply NoDup_app in H as (H & _ & _). exact H.
Qed.

Lemma ranking_spec (regs : list Registro.t) (pm : gmap string Proyecto.t) :
  let full := ranking regs pm in
  StronglySorted (fun a b => Top.ejecutado b <= Top.ejecutado a) full
  /\ NoDup (map Top.id full)
  /\ (forall item, In item full <->
        JS.heredada (Top.id item) = false
        /\ (exists r, In r regs /\ Registro.id_proyecto r = Top.id item)
        /\ item = top_de pm (Top.id item,
                             suma_de Registro.id_proyecto (Top.id item) regs)).
Proof.
  intros full. subst full. unfold ranking.
  set (acc := fold_left _ regs []).
  destruct (acumular_suma_spec Registro.id_proyecto regs) as (HN & Hiff & _).
  fold acc in HN, Hiff.
  set (cmp := fun a b : Top.t => Top.ejecutado b - Top.ejecutado a).
  assert (HP : Permutation (JS.Array_sort cmp (map (top_de pm) (JS.Object_entries acc)))
                           (map (top_de pm) acc)).
  { rewrite Array_sort_perm. apply Permutation_map, Object_entries_perm. }
  split; [|split].
  - assert (Hs := Array_sort_sorted cmp
                    ltac:(intros a b; unfold cmp; lia)
                    ltac:(intros a b c; unfold cmp; lia)
                    (map (top_de pm) (JS.Object_entries acc))).
    revert Hs. apply StronglySorted_mono.
    intros a b. unfold cmp. lia.
  - rewrite HP. rewrite map_map.
    replace (map (fun x => Top.id (top_de pm x)) acc) with (map fst acc); [exact HN|].
    apply map_ext. now intros [k s].
  - intros item. split.
    + intros Hin. apply (Permutation_in _ HP) in Hin.
      apply in_map_iff in Hin as ([k s] & <- & Hks). simpl.
      apply Hiff in Hks as (Hk & Hr & ->). auto.
    + intros (Hk & Hr & ->). apply (Permutation_in _ (Permutation_sym HP)).
      apply in_map_iff. eexists (_, _). split; [reflexivity|].
      apply Hiff. simpl. auto.
Qed.

(** C4, as amended. When no [id_proyecto] is the name of a member
    inherited from [Object.prototype], the ranking has one row per project
    id occurring in the records, holding the sums of [presupuestado] and
    [ejecutado] over the records of that project; [top10Proyectos] is its
    first 10 rows at most, in descending order of summed [ejecutado], no
    row left out having more than a row kept; the list of the comparison
    chart is the first 8 rows of those 10: a prefix of the same ranking,
    equal to it when there are at most 8 rows and a strict prefix exactly
    when there are more. *)
Theorem top10Proyectos_ranking (regs : list Registro.t)
    (pm : gmap string Proyecto.t) :
  let full := ranking regs pm in
  let top := top10Proyectos regs pm in
  let chart := renderChartPresupuesto_top regs pm in
  (forall r, In r regs -> JS.heredada (Registro.id_proyecto r) = false) ->
  (length top <= 10)%nat
  /\ StronglySorted (fun a b => Top.ejecutado b <= Top.ejecutado a) top
  /\ NoDup (map Top.id top)
  /\ (forall item, In item top ->
        (exists r, In r regs /\ Registro.id_proyecto r = Top.id item)
        /\ Top.presupuestado item
           = suma Registro.presupuestado
                  (grupo Registro.id_proyecto (Top.id item) regs)
        /\ Top.ejecutado item
           = suma Registro.ejecutado
                  (grupo Registro.id_proyecto (Top.id item) regs)
        /\ Top.proy item = pm !! Top.id item)
  /\ top = firstn 10 full
  /\ (forall r, In r regs ->
        exists item, In item full /\ Top.id item = Registro.id_proyecto r)
  /\ (forall a b, In a top -> In b (skipn 10 full) ->
        Top.ejecutado b <= Top.ejecutado a)
  /\ (length chart <= 8)%nat
  /\ chart = firstn 8 top
  /\ chart = firstn 8 full
  /\ (exists rest, top = chart ++ rest)
  /\ ((length top <= 8)%nat -> chart = top)
  /\ (prefijo_estricto chart top <-> (8 < length top)%nat).
Proof.
  intros full top chart Hid.
  destruct (ranking_spec regs pm) as (Hs & HN & Hiff). fold full in Hs, HN, Hiff.
  assert (Etop : top = firstn 10 full) by reflexivity.
  assert (Echart : chart = firstn 8 top) by reflexivity.
  split; [rewrite Etop; apply firstn_le_length|].
  split; [rewrite Etop; now apply StronglySorted_firstn|].
  split; [rewrite Etop, <- firstn_map; now apply NoDup_firstn|].
  split.
  { intros item Hin. rewrite Etop in Hin. apply In_firstn in Hin.
    apply Hiff in Hin as (_ & Hr & E). split; [exact Hr|].
    rewrite E. simpl. repeat split. apply proyecto_de_leer. }
  split; [exact Etop|].
  split.
  { intros r Hr.
    exists (top_de pm (Registro.id_proyecto r,
                       suma_de Registro.id_proyecto (Registro.id_proyecto r) regs)).
    split; [|reflexivity]. apply Hiff. simpl.
    split; [now apply Hid|]. eauto. }
  split.
  { intros a b Ha Hb. rewrite Etop in Ha.
    rewrite <- (firstn_skipn 10 full) in Hs.
    exact (StronglySorted_app_order _ _ _ Hs a b Ha Hb). }
  split; [rewrite Echart; apply firstn_le_length|].
  split; [exact Echart|].
  split; [rewrite Echart, Etop; now rewrite firstn_firstn|].
  split; [exists (skipn 8 top); rewrite Echart; symmetry; apply firstn_skipn|].
  split; [intros Hl; rewrite Echart; now apply firstn_all2|].
  unfold prefijo_estricto. split.
  - intros (rest & Hne & E).
    assert (L : length top = (length chart + length rest)%nat)
      by (rewrite E at 1; apply length_app).
    rewrite Echart, length_firstn in L.
    destruct rest as [|x rest]; [now elim Hne|]. cbn [length] in L. lia.
  - intros Hl. exists (skipn 8 top). split.
    + intros E. apply (f_equal (@length _)) in E.
      rewrite length_skipn in E. simpl in E. lia.
    + rewrite Echart. symmetry. apply firstn_skipn.
Qed.

Lemma top10Proyectos_ranking_witness :
  exists item,
    In item (ranking (registros ejemplo) (proyMap_of (proyectos ejemplo)))
    /\ Top.id item = "P2".
Proof.
  assert (Hid : forall r, In r (registros ejemplo) ->
            JS.heredada (Registro.id_proyecto r) = false).
  { intros r [<-|[<-|[<-|[]]]]; reflexivity. }
  destruct (top10Proyectos_ranking (registros ejemplo)
              (proyMap_of (proyectos ejemplo)) Hid)
    as (_ & _ & _ & _ & _ & Hcov & _).
  apply (Hcov (Registro.mk "P2" 2024 1 2000 1000)).
  right. right. left. reflexivity.
Defined.

(** C4 as stated fails: with at most 8 projects the list of the chart is
    the whole ranking, not a strict prefix of it. *)
Lemma top10Proyectos_counterexample :
  ~ prefijo_estricto
      (renderChartPresupuesto_top (registros ejemplo)
                                  (proyMap_of (proyectos ejemplo)))
      (top10Proyectos (registros ejemplo) (proyMap_of (proyectos ejemplo))).
Proof.
  intros (rest & Hne & E). apply (f_equal (@length _)) in E.
  rewrite length_app in E. vm_compute in E.
  destruct rest as [|x rest]; [now elim Hne|]. simpl in E. lia.
Qed.

Example top10Proyectos_ejemplo :
  map (fun t => (Top.id t, Top.presupuestado t, Top.ejecutado t))
      (top10Proyectos (registros ejemplo) (proyMap_of (proyectos ejemplo)))
  = [("P1", 1500, 1500); ("P2", 2000, 1000)].
Proof. vm_compute. reflexivity. Qed.

(** The records of an id that is the name of a member of
    [Object.prototype] get no row. *)
Example top10Proyectos_constructor :
  map (fun t => (Top.id t, Top.presupuestado t, Top.ejecutado t))
      (top10Proyectos [Registro.mk "constructor" 2024 1 10 5;
                       Registro.mk "P1" 2024 1 1 1] ∅)
  = [("P1", 1, 1)].
Proof. vm_compute. reflexivity. Qed.

(** ** Decimal digits *)




Lemma decimal_length (n : Z) : 0 <= n -> (1 <= String.length (JS.decimal n))%nat.
Proof.
  intros H. unfold JS.decimal. simpl.
  generalize (if n <? 10 then "" else JS.digits (Z.to_nat (Z.log2 n)) (n / 10)).
  intros s. induction s as [|c s IH]; simpl; lia.
Qed.

Lemma Number_toString_nonneg (n : Z) : 0 <= n -> JS.Number_toString n = JS.decimal n.
Proof.
  intros H. unfold JS.Number_toString. destruct (Z.ltb_spec n 0); [lia|reflexivity].
Qed.


Lemma substring_all (s : string) : String.substring 0 (String.length s) s = s.
Proof. induction s as [|c s IH]; simpl; [reflexivity|now rewrite IH]. Qed.




Lemma round_half_up_nonneg (x : Q) : (0 <= x)%Q -> 0 <= JS.round_half_up x.
Proof.
  intros H. unfold JS.round_half_up.
  change 0 with (Qfloor 0). apply Qfloor_resp_le. lra.
Qed.

Lemma digit_char_digito (d : Z) : 0 <= d < 10 -> es_digito (JS.digit_char d) = true.
Proof.
  intros H.
  assert (E : d = 0 \/ d = 1 \/ d = 2 \/ d = 3 \/ d = 4 \/ d = 5 \/ d = 6
              \/ d = 7 \/ d = 8 \/ d = 9) by lia.
  repeat (destruct E as [->|E]; [reflexivity|]). now subst.
Qed.

Lemma solo_digitos_app (s t : string) :
  solo_digitos (s +:+ t) = solo_digitos s && solo_digitos t.
Proof.
  induction s as [|c s IH]; simpl; [reflexivity|].
  now rewrite IH, andb_assoc.
Qed.

Lemma digits_solo_digitos (k : nat) (n : Z) :
  0 <= n -> solo_digitos (JS.digits k n) = true.
Proof.
  revert n. induction k as [|k IH]; intros n H; cbn [JS.digits]; [reflexivity|].
  rewrite solo_digitos_app. cbn [solo_digitos].
  rewrite digit_char_digito by (apply Z.mod_pos_bound; lia).
  rewrite andb_true_r.
  destruct (n <? 10); [reflexivity|].
  apply IH. apply Z.div_pos; lia.
Qed.

(** A rounded non-negative number is written with digits only. *)
Lemma entero_solo_digitos (x : Q) : (0 <= x)%Q -> solo_digitos (entero x) = true.
Proof.
  intros H. unfold entero.
  assert (Hn := round_half_up_nonneg x H).
  rewrite Number_toString_nonneg by exact Hn. now apply digits_solo_digitos.
Qed.

Lemma decimal_inicio (n : Z) :
  0 <= n ->
  exists c s, JS.decimal n = String c s
              /\ es_digito c = true /\ solo_digitos s = true.
Proof.
  intros H.
  assert (Hd : solo_digitos (JS.decimal n) = true)
    by (now apply digits_solo_digitos).
  assert (Hl := decimal_length n H).
  destruct (JS.decimal n) as [|c s]; [simpl in Hl; lia|].
  cbn [solo_digitos] in Hd. apply andb_true_iff in Hd as [Hc Hs]. eauto.
Qed.

(** The key of a month never is the name of a member of
    [Object.prototype]: it starts with a digit or a minus sign. *)
Lemma Number_toString_inicio (n : Z) :
  exists c s, JS.Number_toString n = String c s
              /\ (es_digito c = true \/ c = "-"%char).
Proof.
  unfold JS.Number_toString. destruct (Z.ltb_spec n 0) as [H|H].
  - destruct (decimal_inicio (- n) ltac:(lia)) as (c & s & -> & _).
    exists "-"%char, (String c s). split; [reflexivity|now right].
  - destruct (decimal_inicio n H) as (c & s & -> & Hc & _).
    exists c, s. split; [reflexivity|now left].
Qed.

Lemma heredada_inicio (c : ascii) (s : string) :
  es_digito c = true \/ c = "-"%char -> JS.heredada (String c s) = false.
Proof.
  intros Hc. destruct (JS.heredada (String c s)) eqn:E; [|reflexivity].
  apply heredada_In in E. unfold JS.Object_prototype_keys in E.
  cbn [In] in E.
  repeat (destruct E as [E|E];
          [injection E as <- _; destruct Hc as [Hc|Hc]; discriminate Hc|]).
  destruct E.
Qed.

Lemma clave_mes_propia (r : Registro.t) : JS.heredada (clave_mes r) = false.
Proof.
  unfold clave_mes.
  destruct (Number_toString_inicio (Registro.anio r)) as (c & s & -> & Hc).
  change (String c s +:+ "-" +:+
          JS.padStart0 2 (JS.Number_toString (Registro.mes r)))
    with (String c (s +:+ "-" +:+
                    JS.padStart0 2 (JS.Number_toString (Registro.mes r)))).
  now apply heredada_inicio.
Qed.

(** ** The order of strings *)

Lemma str_compare_refl (s : string) : String.compare s s = Eq.
Proof.
  induction s as [|c s IH]; simpl; [reflexivity|].
  unfold Ascii.compare. now rewrite N.compare_refl.
Qed.

Lemma str_le_iff (a b : string) :
  JS.localeCompare a b <= 0 <-> String.le a b.
Proof.
  unfold JS.localeCompare, String.le, String.leb.
  destruct (String.compare a b); simpl; split; intros H; try lia; try exact I;
    destruct H.
Qed.

Lemma str_le_neq_lt (a b : string) : String.le a b -> a <> b -> str_lt a b.
Proof.
  unfold String.le, String.leb, str_lt. intros H NE.
  destruct (String.compare a b) eqn:E; [|reflexivity|destruct H].
  apply String.compare_eq_iff in E. contradiction.
Qed.

Lemma str_lt_le (a b : string) : str_lt a b -> String.le a b /\ a <> b.
Proof.
  unfold String.le, String.leb, str_lt. intros H. rewrite H. split; [exact I|].
  intros ->. rewrite str_compare_refl in H. discriminate.
Qed.

Lemma str_lt_trans (a b c : string) : str_lt a b -> str_lt b c -> str_lt a c.
Proof.
  intros H1 H2. apply str_lt_le in H1 as [L1 N1]. apply str_lt_le in H2 as [L2 N2].
  apply str_le_neq_lt; [etrans; eassumption|].
  intros ->. apply N1. now apply (anti_symm String.le).
Qed.

Lemma str_compare_Gt (a b : string) : str_lt b a -> String.compare a b = Gt.
Proof.
  unfold str_lt. intros H. rewrite String.compare_antisym, H. reflexivity.
Qed.

(** Appending to prefixes of the same length compares the prefixes first. *)
Lemma str_compare_app (s1 s2 t1 t2 : string) :
  String.length s1 = String.length s2 ->
  String.compare (s1 +:+ t1) (s2 +:+ t2)
  = match String.compare s1 s2 with
    | Eq => String.compare t1 t2
    | c => c
    end.
Proof.
  revert s2. induction s1 as [|c1 s1 IH]; intros [|c2 s2]; simpl;
    try discriminate; [reflexivity|].
  intros [= H]. rewrite (IH s2 H). now destruct (Ascii.compare c1 c2).
Qed.

Lemma todos_spec (f : Z -> bool) (desde : Z) (n : nat) :
  todos f desde n = true ->
  forall x, desde <= x < desde + Z.of_nat n -> f x = true.
Proof.
  revert desde. induction n as [|n IH]; intros desde H x Hx; simpl in *; [lia|].
  apply andb_true_iff in H as [H0 H].
  destruct (Z.eq_dec x desde) as [->|NE]; [exact H0|].
  apply (IH (desde + 1) H). lia.
Qed.

(** A function on an interval that increases at every step is an order
    embedding into the strings. *)
Section Monotone.
Variable f : Z -> string.
Variables lo hi : Z.
Hypothesis paso : forall x, lo <= x < hi -> str_lt (f x) (f (x + 1)).

Lemma monotone_lt (x y : Z) : lo <= x -> x < y -> y <= hi -> str_lt (f x) (f y).
Proof.
  intros Hlo Hxy Hhi.
  assert (H : forall n : nat, x + 1 + Z.of_nat n <= hi ->
                              str_lt (f x) (f (x + 1 + Z.of_nat n))).
  { induction n as [|n IH]; intros Hn.
    - rewrite Z.add_0_r. apply paso. lia.
    - eapply str_lt_trans; [apply IH; lia|].
      replace (x + 1 + Z.of_nat (S n)) with (x + 1 + Z.of_nat n + 1) by lia.
      apply paso. lia. }
  specialize (H (Z.to_nat (y - x - 1))).
  replace (x + 1 + Z.of_nat (Z.to_nat (y - x - 1))) with y in H by lia.
  apply H. lia.
Qed.

Lemma monotone_compare (x y : Z) :
  lo <= x <= hi -> lo <= y <= hi -> String.compare (f x) (f y) = (x ?= y).
Proof.
  intros Hx Hy. destruct (Z.compare_spec x y) as [->|H|H].
  - apply str_compare_refl.
  - apply monotone_lt; lia.
  - apply str_compare_Gt. apply monotone_lt; lia.
Qed.
End Monotone.

(** Four-digit years: four characters, in the order of the numbers. *)
Lemma anio_length (a : Z) :
  1000 <= a <= 9999 -> String.length (JS.Number_toString a) = 4%nat.
Proof.
  intros H.
  assert (C : todos (fun a => (String.length (JS.Number_toString a) =? 4)%nat)
                    1000 (Z.to_nat 9000) = true) by (vm_compute; reflexivity).
  apply Nat.eqb_eq. apply (todos_spec _ _ _ C). lia.
Qed.

Lemma anio_compare (a b : Z) :
  1000 <= a <= 9999 -> 1000 <= b <= 9999 ->
  String.compare (JS.Number_toString a) (JS.Number_toString b) = (a ?= b).
Proof.
  apply (monotone_compare JS.Number_toString 1000 9999).
  intros x Hx.
  assert (C : todos (fun a => es_Lt (String.compare (JS.Number_toString a)
                                                    (JS.Number_toString (a + 1))))
                    1000 (Z.to_nat 8999) = true) by (vm_compute; reflexivity).
  assert (E := todos_spec _ _ _ C x ltac:(lia)). simpl in E.
  unfold str_lt. now destruct (String.compare _ _).
Qed.

(** Months of at most two digits, padded: two characters, in order. *)
Lemma mes_length (m : Z) :
  0 <= m <= 99 -> String.length (JS.padStart0 2 (JS.Number_toString m)) = 2%nat.
Proof.
  intros H.
  assert (C : todos (fun m => (String.length
                                 (JS.padStart0 2 (JS.Number_toString m)) =? 2)%nat)
                    0 (Z.to_nat 100) = true) by (vm_compute; reflexivity).
  apply Nat.eqb_eq. apply (todos_spec _ _ _ C). lia.
Qed.

Lemma mes_compare (m n : Z) :
  0 <= m <= 99 -> 0 <= n <= 99 ->
  String.compare (JS.padStart0 2 (JS.Number_toString m))
                 (JS.padStart0 2 (JS.Number_toString n)) = (m ?= n).
Proof.
  apply (monotone_compare (fun m => JS.padStart0 2 (JS.Number_toString m)) 0 99).
  intros x Hx.
  assert (C : todos (fun m => es_Lt (String.compare
                                       (JS.padStart0 2 (JS.Number_toString m))
                                       (JS.padStart0 2 (JS.Number_toString (m + 1)))))
                    0 (Z.to_nat 99) = true) by (vm_compute; reflexivity).
  assert (E := todos_spec _ _ _ C x ltac:(lia)). simpl in E.
  unfold str_lt. now destruct (String.compare _ _).
Qed.

(** On four-digit years and two-digit months the keys are ordered as the
    (year, month) pairs. *)
Lemma clave_ym_compare (p q : Z * Z) :
  1000 <= fst p <= 9999 -> 0 <= snd p <= 99 ->
  1000 <= fst q <= 9999 -> 0 <= snd q <= 99 ->
  String.compare (clave_ym (fst p) (snd p)) (clave_ym (fst q) (snd q))
  = ym_compare p q.
Proof.
  intros Hp1 Hp2 Hq1 Hq2. unfold clave_ym, ym_compare.
  rewrite str_compare_app by (now rewrite !anio_length).
  rewrite anio_compare by assumption.
  destruct (fst p ?= fst q); try reflexivity.
  simpl. now apply mes_compare.
Qed.

Lemma ym_compare_Lt (p q : Z * Z) : ym_compare p q = Lt <-> ym_lt p q.
Proof.
  unfold ym_compare, ym_lt.
  destruct (Z.compare_spec (fst p) (fst q)) as [E|H|H].
  - rewrite Z.compare_lt_iff. lia.
  - split; auto.
  - split; [discriminate|lia].
Qed.

Lemma ym_compare_Eq (p q : Z * Z) : ym_compare p q = Eq <-> p = q.
Proof.
  unfold ym_compare. destruct p as [a m], q as [b n]; simpl.
  destruct (Z.compare_spec a b) as [E|H|H].
  - rewrite Z.compare_eq_iff. split; [intros ->; now subst|intros [= _ ->]; reflexivity].
  - split; [discriminate|intros [= -> _]; lia].
  - split; [discriminate|intros [= -> _]; lia].
Qed.

(** ** C3: the monthly series *)

Lemma StronglySorted_strict {A : Type} (f : A -> string) (l : list A) :
  StronglySorted (fun a b => String.le (f a) (f b)) l ->
  NoDup (map f l) ->
  StronglySorted (fun a b => str_lt (f a) (f b)) l.
Proof.
  induction 1 as [|x l Hs IH Hx]; simpl; intros HN; constructor.
  - apply IH. now apply NoDup_cons in HN as [_ HN].
  - apply NoDup_cons in HN as [Hk _]. rewrite list_elem_of_In in Hk.
    rewrite List.Forall_forall in Hx |- *. intros y Hy.
    apply str_le_neq_lt; [now apply Hx|].
    intros E. apply Hk. rewrite E. now apply in_map.
Qed.

(** The series for any records: strictly ascending keys, one bucket per
    key that occurs, holding the sums over the records under that key. *)
Lemma agruparPorMes_spec (regs : list Registro.t) :
  let serie := agruparPorMes regs in
  StronglySorted (fun a b => str_lt (fst a) (fst b)) serie
  /\ (forall k b, In (k, b) serie <->
        (exists r, In r regs /\ clave_mes r = k) /\ b = bucket_clave regs k).
Proof.
  intros serie. subst serie. unfold agruparPorMes.
  set (acc := fold_left _ regs []).
  destruct (acumular_fold_spec bucket_init bucket_add_ejecutado
              bucket_add_presupuestado clave_mes regs) as [HN Hin].
  fold acc in HN, Hin.
  set (cmp := fun a b : string * Bucket.t => JS.localeCompare (fst a) (fst b)).
  assert (HP : Permutation (JS.Array_sort cmp (JS.Object_entries acc)) acc).
  { rewrite Array_sort_perm. apply Object_entries_perm. }
  split.
  - apply StronglySorted_strict.
    + assert (Hs := Array_sort_sorted cmp
                      ltac:(intros a b; unfold cmp; rewrite !str_le_iff;
                            apply (total String.le))
                      ltac:(intros a b c; unfold cmp; rewrite !str_le_iff;
                            apply transitivity)
                      (JS.Object_entries acc)).
      revert Hs. apply StronglySorted_mono.
      intros a b. unfold cmp. apply str_le_iff.
    + now rewrite HP.
  - intros k b. rewrite (Permutation_in_iff _ _ _ HP), Hin. unfold bucket_clave. split.
    + intros (_ & r & rs & Hg & ->). split.
      * exists r. apply grupo_In. rewrite Hg. now left.
      * rewrite valor_bucket, Hg. reflexivity.
    + intros ((r & Hr & Hk) & ->).
      split; [rewrite <- Hk; apply clave_mes_propia|].
      assert (Hg : In r (grupo clave_mes k regs)) by (apply grupo_In; auto).
      destruct (grupo clave_mes k regs) as [|r0 rs] eqn:Hg0; [destruct Hg|].
      exists r0, rs. split; [reflexivity|].
      rewrite valor_bucket. reflexivity.
Qed.

Lemma clave_ym_inj (p q : Z * Z) :
  1000 <= fst p <= 9999 -> 0 <= snd p <= 99 ->
  1000 <= fst q <= 9999 -> 0 <= snd q <= 99 ->
  clave_ym (fst p) (snd p) = clave_ym (fst q) (snd q) -> p = q.
Proof.
  intros Hp1 Hp2 Hq1 Hq2 E. apply ym_compare_Eq.
  rewrite <- clave_ym_compare, E by assumption. apply str_compare_refl.
Qed.

(** With years and months in range, the key of a record decodes to its
    (year, month), and the records under the key are those of that month. *)
Lemma ym_de_clave_spec (regs : list Registro.t) (r : Registro.t) :
  (forall r, In r regs -> en_rango r) ->
  In r regs ->
  ym_de_clave regs (clave_mes r) = (Registro.anio r, Registro.mes r)
  /\ bucket_de regs (Registro.anio r, Registro.mes r)
     = (clave_mes r, bucket_clave regs (clave_mes r)).
Proof.
  intros Hrango Hr.
  assert (Hinj : forall r1 r2, In r1 regs -> In r2 regs ->
            clave_mes r1 = clave_mes r2 ->
            (Registro.anio r1, Registro.mes r1) = (Registro.anio r2, Registro.mes r2)).
  { intros r1 r2 H1 H2 E. destruct (Hrango r1 H1), (Hrango r2 H2).
    now apply clave_ym_inj. }
  assert (Hg : In r (grupo clave_mes (clave_mes r) regs)) by (apply grupo_In; auto).
  assert (Hdec : ym_de_clave regs (clave_mes r) = (Registro.anio r, Registro.mes r)).
  { unfold ym_de_clave.
    destruct (grupo clave_mes (clave_mes r) regs) as [|r0 rs] eqn:Hg0; [destruct Hg|].
    assert (H0 : In r0 (grupo clave_mes (clave_mes r) regs))
      by (rewrite Hg0; now left).
    apply grupo_In in H0 as [H0 E0]. now apply Hinj. }
  split; [exact Hdec|].
  assert (Hfil : grupo clave_mes (clave_mes r) regs
                 = List.filter (del_mes (Registro.anio r, Registro.mes r)) regs).
  { unfold grupo. apply filter_ext_in. intros r' Hr'. unfold del_mes; simpl.
    destruct (String.eqb_spec (clave_mes r') (clave_mes r)) as [E|NE].
    - injection (Hinj r' r Hr' Hr E) as -> ->. now rewrite !Z.eqb_refl.
    - symmetry. apply andb_false_iff.
      destruct (Z.eqb_spec (Registro.anio r') (Registro.anio r)) as [Ea|]; [|now left].
      destruct (Z.eqb_spec (Registro.mes r') (Registro.mes r)) as [Em|]; [|now right].
      exfalso. apply NE. unfold clave_mes. now rewrite Ea, Em. }
  unfold bucket_de, bucket_clave; simpl. rewrite <- Hfil.
  unfold ym_de_clave in Hdec.
  destruct (grupo clave_mes (clave_mes r) regs) as [|r0 rs]; [destruct Hg|].
  injection Hdec as -> ->. reflexivity.
Qed.

(** C3, as amended. For every list of records the buckets are strictly
    ascending by their key [anio-zeroPaddedMes] in the order of character
    codes, one bucket per key, holding the sums of [ejecutado] and
    [presupuestado] over the records under that key.  When every year has
    four digits (1000 to 9999) and every month at most two (0 to 99, so 1
    to 12), that is the chronological order: the series is the list of the
    buckets of the (anio, mes) pairs that occur, strictly ascending by
    (anio, mes), each with the sums over the records of that pair. *)
Theorem agruparPorMes_orden (regs : list Registro.t) :
  let serie := agruparPorMes regs in
  StronglySorted (fun a b => str_lt (fst a) (fst b)) serie
  /\ (forall k b, In (k, b) serie <->
        (exists r, In r regs /\ clave_mes r = k) /\ b = bucket_clave regs k)
  /\ ((forall r, In r regs -> en_rango r) -> serie_cronologica regs).
Proof.
  intros serie. destruct (agruparPorMes_spec regs) as [Hs Hin].
  fold serie in Hs, Hin.
  split; [exact Hs|]. split; [exact Hin|].
  intros Hrango.
  assert (Hdec : forall e, In e serie ->
            exists r, In r regs
              /\ ym_de_clave regs (fst e) = (Registro.anio r, Registro.mes r)
              /\ clave_mes r = fst e
              /\ bucket_de regs (Registro.anio r, Registro.mes r) = e).
  { intros [k b] He. apply Hin in He as [(r & Hr & <-) ->].
    destruct (ym_de_clave_spec regs r Hrango Hr) as [H1 H2]. exists r. auto. }
  exists (map (fun e => ym_de_clave regs (fst e)) serie).
  split; [|split].
  - revert Hs. apply StronglySorted_map_in.
    intros x y Hx Hy Hlt.
    destruct (Hdec x Hx) as (rx & Hrx & -> & Ex & _).
    destruct (Hdec y Hy) as (ry & Hry & -> & Ey & _).
    destruct (Hrango rx Hrx), (Hrango ry Hry).
    apply ym_compare_Lt. rewrite <- clave_ym_compare by assumption.
    change (str_lt (clave_mes rx) (clave_mes ry)). now rewrite Ex, Ey.
  - intros p. rewrite in_map_iff. split.
    + intros (e & <- & He). destruct (Hdec e He) as (r & Hr & -> & _). eauto.
    + intros (r & Hr & <-).
      exists (clave_mes r, bucket_clave regs (clave_mes r)). split.
      * apply (ym_de_clave_spec regs r Hrango Hr).
      * apply Hin. eauto.
  - fold serie. rewrite map_map.
    transitivity (map (fun e : string * Bucket.t => e) serie);
      [symmetry; apply List.map_id|].
    apply map_ext_in. intros e He.
    destruct (Hdec e He) as (r & Hr & -> & _ & E). now rewrite E.
Qed.

Lemma agruparPorMes_orden_witness :
  serie_cronologica [Registro.mk "P1" 2025 1 10 5;
                     Registro.mk "P2" 2024 12 7 3;
                     Registro.mk "P1" 2024 12 1 1].
Proof.
  apply agruparPorMes_orden.
  intros r [<-|[<-|[<-|[]]]]; unfold en_rango; simpl; lia.
Defined.

Example agruparPorMes_fin_de_anio :
  agruparPorMes [Registro.mk "P1" 2025 1 10 5;
                 Registro.mk "P2" 2024 12 7 3;
                 Registro.mk "P1" 2024 12 1 1]
  = [("2024-12", Bucket.mk "Dic 2024" 4 8); ("2025-01", Bucket.mk "Ene 2025" 5 10)].
Proof. vm_compute. reflexivity. Qed.

(** C3 as stated fails when the years differ in their number of digits:
    the bucket of January 10000 comes before the one of December 9999. *)
Lemma agruparPorMes_counterexample :
  ~ serie_cronologica [Registro.mk "P1" 9999 12 7 3;
                       Registro.mk "P1" 10000 1 10 5].
Proof.
  intros (ps & Hs & Hin & E).
  assert (L : agruparPorMes [Registro.mk "P1" 9999 12 7 3;
                             Registro.mk "P1" 10000 1 10 5]
              = [("10000-01", Bucket.mk "Ene 10000" 5 10);
                 ("9999-12", Bucket.mk "Dic 9999" 3 7)])
    by (vm_compute; reflexivity).
  rewrite L in E. clear L.
  destruct ps as [|p1 [|p2 [|p3 ps]]]; try discriminate E.
  assert (H1 : p1 = (9999, 12) \/ p1 = (10000, 1)).
  { destruct (proj1 (Hin p1) (or_introl eq_refl)) as (r & [<-|[<-|[]]] & <-); auto. }
  assert (H2 : p2 = (9999, 12) \/ p2 = (10000, 1)).
  { destruct (proj1 (Hin p2) (or_intror (or_introl eq_refl)))
      as (r & [<-|[<-|[]]] & <-); auto. }
  apply StronglySorted_inv in Hs as [_ Hlt].
  apply Forall_inv in Hlt. unfold ym_lt in Hlt.
  destruct H1 as [-> | ->].
  - vm_compute in E. discriminate E.
  - destruct H2 as [-> | ->]; simpl in Hlt; lia.
Qed.

(** ** [toFixed] *)


Lemma toFixed_entero (x : Q) : (0 <= x)%Q -> JS.toFixed x 0 = entero x.
Proof.
  intros H. unfold JS.toFixed. destruct (Qlt_le_dec x 0) as [Hn|_]; [lra|].
  unfold JS.toFixed_abs, entero.
  change (inject_Z (10 ^ Z.of_nat 0)) with 1%Q.
  f_equal. unfold JS.round_half_up. apply Qfloor_comp. lra.
Qed.

Lemma toFixed_entero_neg (x : Q) :
  (x < 0)%Q -> JS.toFixed x 0 = "-" +:+ entero (- x)%Q.
Proof.
  intros H. unfold JS.toFixed. destruct (Qlt_le_dec x 0) as [_|Hn]; [|lra].
  unfold JS.toFixed_abs, entero.
  change (inject_Z (10 ^ Z.of_nat 0)) with 1%Q.
  do 2 f_equal. unfold JS.round_half_up. apply Qfloor_comp. lra.
Qed.


(** ** Doubles *)

Lemma pow2_pos (e : Z) : (0 < JS.pow2 e)%Q.
Proof. apply Qpower_0_lt. reflexivity. Qed.

Lemma pow2_add (a b : Z) : (JS.pow2 (a + b) == JS.pow2 a * JS.pow2 b)%Q.
Proof. apply Qpower_plus. intros H. discriminate H. Qed.

Lemma pow2_Z (e : Z) : 0 <= e -> (JS.pow2 e == inject_Z (2 ^ e))%Q.
Proof. intros H. symmetry. exact (Zpower_Qpower 2 e H). Qed.

Lemma pow2_le (a b : Z) : a <= b -> (JS.pow2 a <= JS.pow2 b)%Q.
Proof. intros H. apply Qpower_le_compat_l; [exact H|]. discriminate. Qed.

Lemma pow2_lt (a b : Z) : a < b -> (JS.pow2 a < JS.pow2 b)%Q.
Proof. intros H. apply Qpower_lt_compat_l; [exact H|]. reflexivity. Qed.

Lemma pow2_lt_inv (a b : Z) : (JS.pow2 a < JS.pow2 b)%Q -> a < b.
Proof. intros H. apply (Qpower_lt_compat_l_inv 2); [exact H|]. reflexivity. Qed.

(** The integer part of the binary logarithm, from 1 on. *)
Lemma ilog2_spec (x : Q) :
  (1 <= x)%Q ->
  0 <= JS.ilog2 x
  /\ (JS.pow2 (JS.ilog2 x) <= x)%Q /\ (x < JS.pow2 (JS.ilog2 x + 1))%Q.
Proof.
  intros H. unfold JS.ilog2. rewrite (proj2 (Qle_bool_iff 1 x) H).
  assert (Hf : 1 <= Qfloor x).
  { change 1 with (Qfloor 1). now apply Qfloor_resp_le. }
  destruct (Z.log2_spec (Qfloor x) ltac:(lia)) as [L U].
  assert (H0 := Z.log2_nonneg (Qfloor x)).
  split; [exact H0|]. split.
  - rewrite pow2_Z by lia.
    apply Qle_trans with (inject_Z (Qfloor x)); [|apply Qfloor_le].
    now rewrite <- Zle_Qle.
  - rewrite pow2_Z by lia.
    apply Qlt_le_trans with (inject_Z (Qfloor x + 1)); [apply Qlt_floor|].
    rewrite <- Zle_Qle. lia.
Qed.

Lemma ilog2_unico (x : Q) (l : Z) :
  (1 <= x)%Q -> (JS.pow2 l <= x)%Q -> (x < JS.pow2 (l + 1))%Q -> JS.ilog2 x = l.
Proof.
  intros H L U. destruct (ilog2_spec x H) as (_ & L' & U').
  assert (H1 : l < JS.ilog2 x + 1).
  { apply pow2_lt_inv. eapply Qle_lt_trans; eassumption. }
  assert (H2 : JS.ilog2 x < l + 1).
  { apply pow2_lt_inv. eapply Qle_lt_trans; eassumption. }
  lia.
Qed.

Lemma redondear_par_cota (y : Q) :
  (y - (1 # 2) <= inject_Z (JS.redondear_par y))%Q
  /\ (inject_Z (JS.redondear_par y) <= y + (1 # 2))%Q.
Proof.
  unfold JS.redondear_par.
  assert (L := Qfloor_le y). assert (U := Qlt_floor y).
  rewrite inject_Z_plus in U. change (inject_Z 1) with 1%Q in U.
  destruct (Qcompare_spec (y - inject_Z (Qfloor y)) (1 # 2)) as [E|E|E].
  - destruct (Z.even (Qfloor y)).
    + split; lra.
    + rewrite inject_Z_plus. change (inject_Z 1) with 1%Q. split; lra.
  - split; lra.
  - rewrite inject_Z_plus. change (inject_Z 1) with 1%Q. split; lra.
Qed.

(** From 1 on, a double is an integer of 53 bits times a power of two,
    within half a unit of the scaled number. *)
Lemma doble_forma (x : Q) :
  (1 <= x)%Q ->
  exists M : Z,
    (JS.doble x == inject_Z M * JS.pow2 (JS.ilog2 x - 52))%Q
    /\ (x / JS.pow2 (JS.ilog2 x - 52) - (1 # 2) <= inject_Z M)%Q
    /\ (inject_Z M <= x / JS.pow2 (JS.ilog2 x - 52) + (1 # 2))%Q
    /\ 2 ^ 52 <= M.
Proof.
  intros H. destruct (ilog2_spec x H) as (_ & L & _).
  set (e := JS.ilog2 x - 52) in *.
  assert (Hp := pow2_pos e).
  exists (JS.redondear_par (x / JS.pow2 e)).
  destruct (redondear_par_cota (x / JS.pow2 e)) as [C1 C2].
  split; [|split; [exact C1|split; [exact C2|]]].
  - unfold JS.doble. destruct (Qcompare_spec x 0) as [E|E|E]; try lra.
    reflexivity.
  - assert (Hy : (JS.pow2 52 <= x / JS.pow2 e)%Q).
    { apply Qle_shift_div_l; [exact Hp|].
      rewrite <- pow2_add. replace (52 + e) with (JS.ilog2 x) by (unfold e; lia).
      exact L. }
    rewrite pow2_Z in Hy by lia.
    assert (Hq : (inject_Z (2 ^ 52 - 1) < inject_Z (JS.redondear_par (x / JS.pow2 e)))%Q).
    { change (inject_Z (2 ^ 52 - 1)) with 4503599627370495%Q.
      change (inject_Z (2 ^ 52)) with 4503599627370496%Q in Hy. lra. }
    rewrite <- Zlt_Qlt in Hq. lia.
Qed.


Lemma doble_ge_1 (x : Q) : (1 <= x)%Q -> (1 <= JS.doble x)%Q.
Proof.
  intros H. destruct (doble_forma x H) as (M & E & _ & _ & HM).
  destruct (ilog2_spec x H) as (H0 & _ & _).
  rewrite E.
  assert (Hp := pow2_pos (JS.ilog2 x - 52)).
  assert (L : (JS.pow2 0 <= JS.pow2 (JS.ilog2 x))%Q) by now apply pow2_le.
  replace (JS.ilog2 x) with (52 + (JS.ilog2 x - 52)) in L at 1 by lia.
  rewrite pow2_add, pow2_Z in L by lia. change (JS.pow2 0) with 1%Q in L.
  apply Qle_trans with (inject_Z (2 ^ 52) * JS.pow2 (JS.ilog2 x - 52))%Q;
    [exact L|].
  apply Qmult_le_compat_r; [|lra]. now rewrite <- Zle_Qle.
Qed.

Lemma round_half_up_cotas (x : Q) :
  (inject_Z (JS.round_half_up x) - (1 # 2) <= x
   /\ x < inject_Z (JS.round_half_up x) + (1 # 2))%Q.
Proof.
  unfold JS.round_half_up.
  assert (H1 := Qfloor_le (x + (1 # 2))).
  assert (H2 := Qlt_floor (x + (1 # 2))).
  rewrite inject_Z_plus in H2. change (inject_Z 1) with 1%Q in H2.
  split; lra.
Qed.




(** ** C9 and C10: [fmtUSD] *)


Lemma fmtUSD_miles (v : Q) :
  (1000 <= v)%Q -> (v < 1000000)%Q ->
  fmtUSD v = "$" +:+ entero (JS.doble (v / 1000)) +:+ "K"
  /\ (1 <= v / 1000)%Q.
Proof.
  intros H1 H2.
  assert (Hx : (1 <= v / 1000)%Q).
  { unfold Qdiv. change (/ 1000)%Q with (1 # 1000)%Q. lra. }
  split; [|exact Hx]. unfold fmtUSD.
  destruct (Qle_bool 1000000 v) eqn:E; [apply Qle_bool_iff in E; lra|].
  rewrite (proj2 (Qle_bool_iff 1000 v) H1).
  rewrite toFixed_entero; [reflexivity|].
  apply doble_ge_1 in Hx. lra.
Qed.

Lemma fmtUSD_base (v : Q) :
  (v < 1000)%Q -> fmtUSD v = "$" +:+ JS.toFixed v 0.
Proof.
  intros H. unfold fmtUSD.
  destruct (Qle_bool 1000000 v) eqn:E; [apply Qle_bool_iff in E; lra|].
  destruct (Qle_bool 1000 v) eqn:E'; [apply Qle_bool_iff in E'; lra|].
  reflexivity.
Qed.



(** The division is the one of doubles: 1,150,000 / 1,000,000 is the
    double just below 1.15, which reads 1.1; 1.25 is a double and a tie,
    which reads 1.3. *)
Example fmtUSD_dobles :
  map fmtUSD [1150000%Q; 1250000%Q; 2500000%Q; 1005000%Q; 1450%Q; 1500%Q]
  = ["$1.1M"; "$1.3M"; "$2.5M"; "$1.0M"; "$1K"; "$2K"].
Proof. vm_compute. reflexivity. Qed.

(** C10. A negative value is below both thresholds: the result is "$",
    the minus sign, and the magnitude rounded to an integer, written with
    digits only, so without "M" or "K"; [-2,500,000] gives "$-2500000". *)
Theorem fmtUSD_negative (v : Q) :
  (v < 0)%Q ->
  fmtUSD v = "$" +:+ JS.toFixed v 0
  /\ fmtUSD v = "$" +:+ "-" +:+ entero (- v)%Q
  /\ solo_digitos (entero (- v)%Q) = true.
Proof.
  intros H. assert (H' : (v < 1000)%Q) by lra.
  rewrite fmtUSD_base by exact H'. split; [reflexivity|]. split.
  - f_equal. now apply toFixed_entero_neg.
  - apply entero_solo_digitos. lra.
Qed.

Lemma fmtUSD_negative_witness : fmtUSD (-2500000) = "$-2500000".
Proof.
  rewrite (proj1 (proj2 (fmtUSD_negative (-2500000) ltac:(vm_compute; reflexivity)))).
  vm_compute. reflexivity.
Defined.

Example fmtUSD_ejemplos :
  map fmtUSD [3500000%Q; 1000000%Q; 999999%Q; 1000%Q; 999%Q; 0%Q; (-1 # 4)%Q;
              (-2500000)%Q; (5 # 2)%Q]
  = ["$3.5M"; "$1.0M"; "$1000K"; "$1K"; "$999"; "$0"; "$-0"; "$-2500000"; "$3"].
Proof. vm_compute. reflexivity. Qed.

(** * Further properties *)

(** ** The filter: projects, lookup, refinement *)

Lemma filter_sublist_impl {A : Type} (p p' : A -> bool) (l : list A) :
  (forall x, In x l -> p' x = true -> p x = true) ->
  sublist (List.filter p' l) (List.filter p l).
Proof.
  induction l as [|a l IH]; simpl; intros H; [constructor|].
  assert (IH' := IH (fun x Hx => H x (or_intror Hx))).
  destruct (p' a) eqn:E'.
  - rewrite (H a (or_introl eq_refl) E'). now constructor.
  - destruct (p a); [now constructor|exact IH'].
Qed.

Lemma sublist_In {A : Type} (l1 l2 : list A) (x : A) :
  sublist l1 l2 -> In x l1 -> In x l2.
Proof.
  intros H. rewrite <- !list_elem_of_In. intros Hx.
  exact (elem_of_sublist _ _ _ Hx H).
Qed.

(** X1. The filtered projects are the projects of the dataset, in their
    order, that some filtered record refers to. *)
Theorem filtrarDatos_proyectos (e : Estado) :
  let r := filtrarDatos e in
  sublist (proyectosFilt r) (proyectos (datos e))
  /\ forall p, In p (proyectosFilt r) <->
       In p (proyectos (datos e))
       /\ exists reg, In reg (registrosFilt r)
                      /\ Registro.id_proyecto reg = Proyecto.id p.
Proof.
  cbn zeta. split; [apply filter_is_sublist|].
  intros p. unfold filtrarDatos; simpl.
  rewrite filter_In, includes_In, Set_of_In, in_map_iff. split.
  - intros (Hp & reg & E & Hin). eauto.
  - intros (Hp & reg & Hin & E). eauto.
Qed.

Lemma proyMap_of_gen_ultimo (ps : list Proyecto.t) (m : gmap string Proyecto.t)
    (k : string) :
  fold_left (fun m p => <[Proyecto.id p := p]> m) ps m !! k
  = match ultimo_con_id k ps with
    | Some p => Some p
    | None => m !! k
    end.
Proof.
  unfold ultimo_con_id. revert m.
  induction ps as [|q ps IH]; intros m; simpl; [reflexivity|].
  rewrite IH. destruct (String.eqb_spec (Proyecto.id q) k) as [E|NE]; simpl.
  - destruct (rev (List.filter (fun p => String.eqb (Proyecto.id p) k) ps));
      simpl; [|reflexivity].
    subst k. apply lookup_insert_eq.
  - destruct (rev (List.filter (fun p => String.eqb (Proyecto.id p) k) ps));
      simpl; [|reflexivity].
    now apply lookup_insert_ne.
Qed.

Lemma proyMap_of_ultimo (ps : list Proyecto.t) (k : string) :
  proyMap_of ps !! k = ultimo_con_id k ps.
Proof.
  unfold proyMap_of. rewrite proyMap_of_gen_ultimo, lookup_empty.
  now destruct (ultimo_con_id k ps).
Qed.

Lemma filter_id_unico (ps : list Proyecto.t) (p : Proyecto.t) :
  NoDup (map Proyecto.id ps) -> In p ps ->
  List.filter (fun q => String.eqb (Proyecto.id q) (Proyecto.id p)) ps = [p].
Proof.
  induction ps as [|q ps IH]; simpl; intros HN Hin; [destruct Hin|].
  apply NoDup_cons in HN as [Hq HN]. rewrite list_elem_of_In in Hq.
  destruct Hin as [->|Hin].
  - rewrite String.eqb_refl. f_equal.
    clear IH HN. induction ps as [|a ps IH]; simpl; [reflexivity|].
    destruct (String.eqb_spec (Proyecto.id a) (Proyecto.id p)) as [E|_].
    + exfalso. apply Hq. left. exact E.
    + apply IH. intros H. apply Hq. now right.
  - destruct (String.eqb_spec (Proyecto.id q) (Proyecto.id p)) as [E|_].
    + exfalso. apply Hq. rewrite E. now apply in_map.
    + now apply IH.
Qed.

(** X2. Reading the lookup built by [filtrarDatos] under an id gives the
    last project of the list with that id; under an id no project has it
    gives the member of [Object.prototype] of that name, if there is one,
    and [undefined] otherwise; when the ids are unique every project is
    found under its id. *)
Theorem proyMap_of_last_wins (ps : list Proyecto.t) :
  (forall k, JS.leer (proyMap_of ps) k
             = match ultimo_con_id k ps with
               | Some p => JS.propio p
               | None => if JS.heredada k then JS.heredado else JS.indefinido
               end)
  /\ (forall p, JS.leer (proyMap_of (ps ++ [p])) (Proyecto.id p) = JS.propio p)
  /\ (NoDup (map Proyecto.id ps) ->
      forall p, In p ps -> JS.leer (proyMap_of ps) (Proyecto.id p) = JS.propio p).
Proof.
  split; [|split].
  - intros k. unfold JS.leer. rewrite proyMap_of_ultimo.
    now destruct (ultimo_con_id k ps).
  - intros p. apply leer_propio. rewrite proyMap_of_ultimo. unfold ultimo_con_id.
    rewrite List.filter_app, rev_app_distr. simpl. now rewrite String.eqb_refl.
  - intros HN p Hin. apply leer_propio. rewrite proyMap_of_ultimo.
    unfold ultimo_con_id. now rewrite filter_id_unico.
Qed.

Lemma proyMap_of_last_wins_witness :
  JS.leer (proyMap_of [P1; P2; P3]) "P2" = JS.propio P2.
Proof.
  destruct (proyMap_of_last_wins [P1; P2; P3]) as (_ & _ & H).
  apply (fun HN => H HN P2); [|right; left; reflexivity].
  repeat (apply NoDup_cons_2;
          [rewrite list_elem_of_In; simpl; intuition discriminate|]).
  apply NoDup_nil_2.
Defined.

Example proyMap_of_heredado :
  JS.leer (proyMap_of [P1; P2]) "toString" = JS.heredado
  /\ JS.leer (proyMap_of [P1; P2]) "P9" = JS.indefinido.
Proof. vm_compute. split; reflexivity. Qed.

Lemma satisface_refina (f f' : Filtros.t) (reg : Registro.t)
    (proy : JS.Miembro Proyecto.t) :
  refina f f' -> satisface f' reg proy -> satisface f reg proy.
Proof.
  unfold refina, satisface, num_ok, attr_ok.
  intros (R1 & R2 & R3 & R4 & R5 & R6) (S1 & S2 & S3 & S4 & S5 & S6).
  repeat split;
    match goal with
    | R : ?x = EmptyString \/ ?x = _ |- ?x = _ \/ _ =>
        destruct R as [R|R]; [left; exact R|rewrite R; assumption]
    end.
Qed.

Lemma pasa_refina (pm : gmap string Proyecto.t) (f f' : Filtros.t)
    (reg : Registro.t) :
  refina f f' -> pasa pm f' reg = true -> pasa pm f reg = true.
Proof.
  intros HR. rewrite !pasa_spec. intros [Hl Hs].
  split; [exact Hl|]. now apply (satisface_refina f f').
Qed.

Lemma filtrar_refina_sublist (d : Datos) (f f' : Filtros.t) :
  refina f f' ->
  sublist (registrosFilt (filtrarDatos (mkEstado d f')))
          (registrosFilt (filtrarDatos (mkEstado d f)))
  /\ sublist (proyectosFilt (filtrarDatos (mkEstado d f')))
             (proyectosFilt (filtrarDatos (mkEstado d f))).
Proof.
  intros HR.
  assert (H1 : sublist (registrosFilt (filtrarDatos (mkEstado d f')))
                       (registrosFilt (filtrarDatos (mkEstado d f)))).
  { unfold filtrarDatos; simpl. apply filter_sublist_impl.
    intros x _. now apply pasa_refina. }
  split; [exact H1|].
  unfold filtrarDatos in *; simpl in *. apply filter_sublist_impl.
  intros p _. rewrite !includes_In, !Set_of_In, !in_map_iff.
  intros (reg & E & Hin). exists reg. split; [exact E|].
  exact (sublist_In _ _ _ H1 Hin).
Qed.

Lemma set_filtro_vacio_refina (e : Estado) (k : FiltroKey) (v : string) :
  refina (filtros (set_filtro e k EmptyString)) (filtros (set_filtro e k v))
  /\ refina (filtros (set_filtro e k EmptyString)) (filtros e).
Proof.
  destruct e as [d [a m ar t es r]].
  destruct k; unfold refina; simpl; repeat split; auto.
Qed.

(** X3. Filtering is monotone in the selection: a selection that sets
    every field another one sets, to the same value, keeps a subsequence of
    its records and of its projects.  So choosing a value in a select never
    adds a record to what the wildcard of that select shows, and putting a
    select back to the wildcard never removes one. *)
Theorem filtrarDatos_monotone :
  (forall d f f',
     refina f f' ->
     sublist (registrosFilt (filtrarDatos (mkEstado d f')))
             (registrosFilt (filtrarDatos (mkEstado d f)))
     /\ sublist (proyectosFilt (filtrarDatos (mkEstado d f')))
                (proyectosFilt (filtrarDatos (mkEstado d f))))
  /\ (forall e k v,
        sublist (registrosFilt (filtrarDatos (set_filtro e k v)))
                (registrosFilt (filtrarDatos (set_filtro e k EmptyString)))
        /\ sublist (registrosFilt (filtrarDatos e))
                   (registrosFilt (filtrarDatos (set_filtro e k EmptyString)))).
Proof.
  split; [apply filtrar_refina_sublist|].
  intros e k v. destruct (set_filtro_vacio_refina e k v) as [R1 R2].
  split.
  - exact (proj1 (filtrar_refina_sublist (datos e) _ _ R1)).
  - destruct e as [d f]. exact (proj1 (filtrar_refina_sublist d _ _ R2)).
Qed.

Lemma filtrarDatos_monotone_witness :
  sublist
    (registrosFilt (filtrarDatos
       (mkEstado ejemplo (Filtros.mk "2024" "1" "Mina A" EmptyString EmptyString EmptyString))))
    (registrosFilt (filtrarDatos
       (mkEstado ejemplo (Filtros.mk "2024" EmptyString EmptyString EmptyString EmptyString EmptyString)))).
Proof.
  apply (proj1 filtrarDatos_monotone ejemplo).
  unfold refina; simpl. repeat split; auto.
Defined.

Lemma suma_sublist (campo : Registro.t -> Z) (l1 l2 : list Registro.t) :
  sublist l1 l2 -> (forall r, In r l2 -> 0 <= campo r) ->
  suma campo l1 <= suma campo l2.
Proof.
  induction 1 as [|x l1 l2 Hs IH|x l1 l2 Hs IH]; simpl; intros Hpos.
  - lia.
  - assert (suma campo l1 <= suma campo l2) by (apply IH; auto). lia.
  - assert (suma campo l1 <= suma campo l2) by (apply IH; auto).
    assert (0 <= campo x) by (apply Hpos; now left). lia.
Qed.

Lemma en_ejecucion_sublist (l1 l2 : list Proyecto.t) :
  sublist l1 l2 -> (en_ejecucion l1 <= en_ejecucion l2)%nat.
Proof.
  induction 1 as [|x l1 l2 Hs IH|x l1 l2 Hs IH]; simpl.
  - lia.
  - destruct (decide (Proyecto.estado x = Some "En ejecución")); lia.
  - destruct (decide (Proyecto.estado x = Some "En ejecución")); lia.
Qed.

(** X4. With amounts that are not negative, narrowing the selection never
    raises a KPI: the total budget, the total executed and the number of
    active projects of the narrower selection are at most those of the
    wider one. *)
Theorem kpis_monotone (d : Datos) (f f' : Filtros.t) :
  (forall r, In r (registros d) -> no_negativo r) ->
  refina f f' ->
  let k := actualizarDashboard_kpis (mkEstado d f) in
  let k' := actualizarDashboard_kpis (mkEstado d f') in
  totalPresupuestado k' <= totalPresupuestado k
  /\ totalEjecutado k' <= totalEjecutado k
  /\ (activos k' <= activos k)%nat.
Proof.
  intros Hpos HR k k'. subst k k'. unfold actualizarDashboard_kpis.
  destruct (filtrar_refina_sublist d f f' HR) as [H1 H2].
  destruct (calcularKPIs_totales (registrosFilt (filtrarDatos (mkEstado d f)))
              (proyectosFilt (filtrarDatos (mkEstado d f)))) as (-> & -> & ->).
  destruct (calcularKPIs_totales (registrosFilt (filtrarDatos (mkEstado d f')))
              (proyectosFilt (filtrarDatos (mkEstado d f')))) as (-> & -> & ->).
  assert (Hin : forall r, In r (registrosFilt (filtrarDatos (mkEstado d f))) ->
                          no_negativo r).
  { intros r Hr. apply Hpos. apply filtrarDatos_In in Hr. tauto. }
  split; [|split].
  - apply suma_sublist; [exact H1|]. intros r Hr. now apply Hin.
  - apply suma_sublist; [exact H1|]. intros r Hr. now apply Hin.
  - now apply en_ejecucion_sublist.
Qed.

Lemma kpis_monotone_witness :
  totalEjecutado
    (actualizarDashboard_kpis
       (mkEstado ejemplo (Filtros.mk EmptyString EmptyString "Mina A" EmptyString EmptyString EmptyString)))
  <= totalEjecutado (actualizarDashboard_kpis (mkEstado ejemplo sin_filtros)).
Proof.
  apply (kpis_monotone ejemplo sin_filtros).
  - intros r [<-|[<-|[<-|[]]]]; unfold no_negativo; simpl; lia.
  - unfold refina; simpl. repeat split; auto.
Defined.

Lemma ultimo_con_id_filter (q : Proyecto.t -> bool) (ps : list Proyecto.t)
    (k : string) :
  (forall p, In p ps -> Proyecto.id p = k -> q p = true) ->
  ultimo_con_id k (List.filter q ps) = ultimo_con_id k ps.
Proof.
  intros H. unfold ultimo_con_id. do 2 f_equal.
  induction ps as [|p ps IH]; simpl; [reflexivity|].
  assert (IH' := IH (fun p' Hp' => H p' (or_intror Hp'))).
  destruct (String.eqb_spec (Proyecto.id p) k) as [E|NE].
  - rewrite (H p (or_introl eq_refl) E). simpl.
    destruct (String.eqb_spec (Proyecto.id p) k); [|contradiction].
    now rewrite IH'.
  - destruct (q p); simpl; [|exact IH'].
    destruct (String.eqb_spec (Proyecto.id p) k); [contradiction|exact IH'].
Qed.

Lemma pasa_lookup_ext (pm pm' : gmap string Proyecto.t) (f : Filtros.t)
    (reg : Registro.t) :
  pm !! Registro.id_proyecto reg = pm' !! Registro.id_proyecto reg ->
  pasa pm f reg = pasa pm' f reg.
Proof. unfold pasa, JS.leer. now intros ->. Qed.

Lemma filter_filter_same {A : Type} (p : A -> bool) (l : list A) :
  List.filter p (List.filter p l) = List.filter p l.
Proof.
  apply filter_all. intros x Hx. now apply filter_In in Hx.
Qed.

(** X5. Filtering is idempotent: applied with the same selection to the
    records and projects it returned, [filtrarDatos] returns them again,
    also when several projects share an id. *)
Theorem filtrarDatos_idempotent (e : Estado) :
  let r := filtrarDatos e in
  let r' := filtrarDatos (mkEstado (datos_filtrados e) (filtros e)) in
  registrosFilt r' = registrosFilt r /\ proyectosFilt r' = proyectosFilt r.
Proof.
  intros r r'.
  assert (Hlook : forall reg, In reg (registrosFilt r) ->
            proyMap r' !! Registro.id_proyecto reg
            = proyMap r !! Registro.id_proyecto reg).
  { intros reg Hin. subst r r'. unfold filtrarDatos, datos_filtrados; simpl.
    rewrite !proyMap_of_ultimo. apply ultimo_con_id_filter.
    intros p _ E. apply includes_In, Set_of_In, in_map_iff.
    exists reg. split; [now rewrite E|exact Hin]. }
  assert (ER : registrosFilt r' = registrosFilt r).
  { assert (E : registrosFilt r'
                = List.filter (pasa (proyMap r') (filtros e)) (registrosFilt r))
      by reflexivity.
    rewrite E. apply filter_all. intros reg Hin.
    rewrite (pasa_lookup_ext _ _ _ _ (Hlook reg Hin)).
    subst r. unfold filtrarDatos in Hin; simpl in Hin.
    now apply filter_In in Hin. }
  split; [exact ER|].
  assert (EP : proyectosFilt r'
               = List.filter
                   (fun p => JS.includes
                               (JS.Set_of (map Registro.id_proyecto (registrosFilt r')))
                               (Proyecto.id p))
                   (proyectosFilt r)) by reflexivity.
  rewrite EP, ER. subst r. unfold filtrarDatos; simpl.
  apply filter_filter_same.
Qed.

Example filtrarDatos_duplicados :
  let d := mkDatos [P1; Proyecto.mk "P1" None (Some "Mina C") None None None None]
                   [Registro.mk "P1" 2024 1 10 5] in
  registrosFilt (filtrarDatos
    (mkEstado d (Filtros.mk EmptyString EmptyString "Mina A" EmptyString EmptyString EmptyString))) = []
  /\ registrosFilt (filtrarDatos
       (mkEstado d (Filtros.mk EmptyString EmptyString "Mina C" EmptyString EmptyString EmptyString)))
     = [Registro.mk "P1" 2024 1 10 5].
Proof. vm_compute. split; reflexivity. Qed.

(** ** Numbers to strings and back *)

Lemma es_digito_cases (c : ascii) :
  es_digito c = true -> exists d, 0 <= d < 10 /\ c = JS.digit_char d.
Proof.
  destruct c as [[] [] [] [] [] [] [] []]; intros H; try discriminate H;
    first [ exists 0; split; [lia|reflexivity] | exists 1; split; [lia|reflexivity]
          | exists 2; split; [lia|reflexivity] | exists 3; split; [lia|reflexivity]
          | exists 4; split; [lia|reflexivity] | exists 5; split; [lia|reflexivity]
          | exists 6; split; [lia|reflexivity] | exists 7; split; [lia|reflexivity]
          | exists 8; split; [lia|reflexivity] | exists 9; split; [lia|reflexivity] ].
Qed.

Lemma digit_val_digit_char (d : Z) :
  0 <= d < 10 -> JS.digit_val 10 (JS.digit_char d) = Some d.
Proof.
  intros H.
  assert (E : d = 0 \/ d = 1 \/ d = 2 \/ d = 3 \/ d = 4 \/ d = 5 \/ d = 6
              \/ d = 7 \/ d = 8 \/ d = 9) by lia.
  repeat (destruct E as [->|E]; [reflexivity|]). now subst.
Qed.

Lemma parse_digits_app (s t : string) (acc : option Z) :
  solo_digitos s = true ->
  JS.parse_digits 10 (s +:+ t) acc
  = JS.parse_digits 10 t (JS.parse_digits 10 s acc).
Proof.
  revert acc. induction s as [|c s IH]; intros acc H; [reflexivity|].
  cbn [solo_digitos] in H. apply andb_true_iff in H as [Hc Hs].
  apply es_digito_cases in Hc as (d & Hd & ->).
  change (String (JS.digit_char d) s +:+ t)
    with (String (JS.digit_char d) (s +:+ t)).
  cbn [JS.parse_digits]. rewrite digit_val_digit_char by exact Hd.
  now apply IH.
Qed.

Lemma parse_digits_digits (k : nat) (n : Z) :
  (1 <= k)%nat -> 0 <= n < 10 ^ Z.of_nat k ->
  JS.parse_digits 10 (JS.digits k n) None = Some n.
Proof.
  revert n. induction k as [|k IH]; intros n Hk Hn; [lia|].
  cbn [JS.digits].
  assert (Hm : 0 <= n mod 10 < 10) by (apply Z.mod_pos_bound; lia).
  destruct (Z.ltb_spec n 10) as [Hs|Hb].
  - change (EmptyString +:+ ?s) with s. cbn [JS.parse_digits].
    rewrite digit_val_digit_char by exact Hm. f_equal. apply Z.mod_small. lia.
  - rewrite parse_digits_app by (apply digits_solo_digitos; apply Z.div_pos; lia).
    rewrite Nat2Z.inj_succ, Z.pow_succ_r in Hn by lia.
    assert (Hd : 10 * (n / 10) <= n) by (apply Z.mul_div_le; lia).
    assert (Hq : 1 <= n / 10) by (apply Z.div_le_lower_bound; lia).
    rewrite IH.
    + cbn [JS.parse_digits]. rewrite digit_val_digit_char by exact Hm.
      f_equal. rewrite (Z.div_mod n 10) at 3 by lia. lia.
    + destruct k; [simpl in Hn; lia|lia].
    + lia.
Qed.

Lemma parse_digits_decimal (n : Z) :
  0 <= n -> JS.parse_digits 10 (JS.decimal n) None = Some n.
Proof.
  intros H. unfold JS.decimal. apply parse_digits_digits; [lia|].
  split; [exact H|].
  assert (L0 : 0 <= Z.log2 n) by apply Z.log2_nonneg.
  rewrite Nat2Z.inj_succ, Z2Nat.id by exact L0.
  destruct (Z.eq_dec n 0) as [->|NE]; [reflexivity|].
  destruct (Z.log2_spec n ltac:(lia)) as [_ L2].
  eapply Z.lt_le_trans; [exact L2|].
  apply Z.pow_le_mono_l. lia.
Qed.

Lemma parseInt_digitos (c : ascii) (s : string) :
  es_digito c = true -> solo_digitos s = true ->
  JS.parseInt (String c s)
  = match JS.parse_digits 10 (String c s) None with
    | Some v => Some v
    | None => None
    end.
Proof.
  intros Hc Hs. apply es_digito_cases in Hc as (d & Hd & ->).
  assert (E : d = 0 \/ d = 1 \/ d = 2 \/ d = 3 \/ d = 4 \/ d = 5 \/ d = 6
              \/ d = 7 \/ d = 8 \/ d = 9) by lia.
  unfold JS.parseInt.
  destruct E as [->|E].
  - destruct s as [|c2 s2]; [reflexivity|].
    cbn [solo_digitos] in Hs. apply andb_true_iff in Hs as [Hc2 Hs2].
    apply es_digito_cases in Hc2 as (d2 & Hd2 & ->).
    assert (E : d2 = 0 \/ d2 = 1 \/ d2 = 2 \/ d2 = 3 \/ d2 = 4 \/ d2 = 5
                \/ d2 = 6 \/ d2 = 7 \/ d2 = 8 \/ d2 = 9) by lia.
    repeat (destruct E as [->|E]; [reflexivity|]). now subst.
  - repeat (destruct E as [->|E]; [reflexivity|]). now subst.
Qed.

Lemma parseInt_menos_digitos (c : ascii) (s : string) :
  es_digito c = true -> solo_digitos s = true ->
  JS.parseInt (String "-" (String c s))
  = match JS.parse_digits 10 (String c s) None with
    | Some v => Some (- v)
    | None => None
    end.
Proof.
  intros Hc Hs. apply es_digito_cases in Hc as (d & Hd & ->).
  assert (E : d = 0 \/ d = 1 \/ d = 2 \/ d = 3 \/ d = 4 \/ d = 5 \/ d = 6
              \/ d = 7 \/ d = 8 \/ d = 9) by lia.
  unfold JS.parseInt.
  destruct E as [->|E].
  - destruct s as [|c2 s2]; [reflexivity|].
    cbn [solo_digitos] in Hs. apply andb_true_iff in Hs as [Hc2 Hs2].
    apply es_digito_cases in Hc2 as (d2 & Hd2 & ->).
    assert (E : d2 = 0 \/ d2 = 1 \/ d2 = 2 \/ d2 = 3 \/ d2 = 4 \/ d2 = 5
                \/ d2 = 6 \/ d2 = 7 \/ d2 = 8 \/ d2 = 9) by lia.
    repeat (destruct E as [->|E]; [reflexivity|]). now subst.
  - repeat (destruct E as [->|E]; [reflexivity|]). now subst.
Qed.

Lemma parseInt_toString (n : Z) :
  JS.parseInt (JS.Number_toString n) = Some n.
Proof.
  unfold JS.Number_toString. destruct (Z.ltb_spec n 0) as [Hneg|Hpos].
  - destruct (decimal_inicio (- n) ltac:(lia)) as (c & s & E & Hc & Hs).
    rewrite E. change ("-" +:+ String c s) with (String "-" (String c s)).
    rewrite parseInt_menos_digitos by assumption.
    rewrite <- E, parse_digits_decimal by lia. f_equal. lia.
  - destruct (decimal_inicio n Hpos) as (c & s & E & Hc & Hs).
    rewrite E, parseInt_digitos by assumption.
    now rewrite <- E, parse_digits_decimal.
Qed.

Lemma Number_toString_truthy (n : Z) : JS.truthy (JS.Number_toString n) = true.
Proof.
  unfold JS.Number_toString. destruct (n <? 0); [reflexivity|].
  destruct (Z.le_gt_cases 0 n) as [H|H].
  - destruct (decimal_inicio n H) as (c & s & -> & _). reflexivity.
  - unfold JS.decimal. cbn [JS.digits].
    destruct (if n <? 10 then EmptyString else _); reflexivity.
Qed.

Lemma Number_toString_inj (a b : Z) :
  JS.Number_toString a = JS.Number_toString b -> a = b.
Proof.
  intros E. assert (H := parseInt_toString a).
  rewrite E, parseInt_toString in H. congruence.
Qed.

(** X6. [parseInt] undoes the conversion of an integer to a string: the
    value the year and month selects carry for a number is never empty
    and parses back to that number, so the comparison in [filtrarDatos]
    is with the number the option was made from, and two different
    numbers never share an option value. *)
Theorem parseInt_Number_toString (n : Z) :
  JS.parseInt (valor_opcion n) = Some n
  /\ JS.truthy (valor_opcion n) = true
  /\ (forall m, valor_opcion m = valor_opcion n -> m = n).
Proof.
  unfold valor_opcion. split; [apply parseInt_toString|].
  split; [apply Number_toString_truthy|].
  intros m. apply Number_toString_inj.
Qed.

Lemma array_index_Number_toString (n : Z) :
  0 <= n < 4294967295 -> JS.array_index (JS.Number_toString n) = Some n.
Proof.
  intros H. unfold JS.array_index.
  rewrite (Number_toString_nonneg n) at 1 by lia.
  rewrite parse_digits_decimal by lia.
  destruct (Z.ltb_spec n 4294967295); [|lia].
  now rewrite String.eqb_refl.
Qed.

(** ** Choosing an option *)

Lemma filter_filter_and {A : Type} (p q : A -> bool) (l : list A) :
  List.filter p (List.filter q l) = List.filter (fun x => q x && p x) l.
Proof.
  induction l as [|a l IH]; simpl; [reflexivity|].
  destruct (q a); simpl; [|exact IH]. destruct (p a); now rewrite IH.
Qed.

Lemma pasa_anio (pm : gmap string Proyecto.t) (f : Filtros.t) (y : Z)
    (r : Registro.t) :
  pasa pm (Filtros.mk (valor_opcion y) (Filtros.mes f) (Filtros.area f)
                      (Filtros.tipo f) (Filtros.estadoProy f) (Filtros.region f)) r
  = pasa pm (Filtros.mk EmptyString (Filtros.mes f) (Filtros.area f)
                        (Filtros.tipo f) (Filtros.estadoProy f) (Filtros.region f)) r
    && (Registro.anio r =? y).
Proof.
  unfold pasa, valor_opcion. cbn [Filtros.anio Filtros.mes Filtros.area
    Filtros.tipo Filtros.estadoProy Filtros.region].
  destruct (JS.leer pm (Registro.id_proyecto r)) as [p| |]; [| |reflexivity].
  all: rewrite Number_toString_truthy, parseInt_toString.
  all: cbn [JS.truthy JS.strict_neq_num andb].
  all: destruct (Registro.anio r =? y); cbn [negb].
  all: rewrite ?andb_true_r, ?andb_false_r; reflexivity.
Qed.

Lemma pasa_mes (pm : gmap string Proyecto.t) (f : Filtros.t) (m : Z)
    (r : Registro.t) :
  pasa pm (Filtros.mk (Filtros.anio f) (valor_opcion m) (Filtros.area f)
                      (Filtros.tipo f) (Filtros.estadoProy f) (Filtros.region f)) r
  = pasa pm (Filtros.mk (Filtros.anio f) EmptyString (Filtros.area f)
                        (Filtros.tipo f) (Filtros.estadoProy f) (Filtros.region f)) r
    && (Registro.mes r =? m).
Proof.
  unfold pasa, valor_opcion. cbn [Filtros.anio Filtros.mes Filtros.area
    Filtros.tipo Filtros.estadoProy Filtros.region].
  destruct (JS.leer pm (Registro.id_proyecto r)) as [p| |]; [| |reflexivity].
  all: rewrite Number_toString_truthy, parseInt_toString.
  all: cbn [JS.truthy JS.strict_neq_num andb].
  all: destruct (JS.truthy (Filtros.anio f)
            && JS.strict_neq_num (Registro.anio r) (JS.parseInt (Filtros.anio f)));
    [reflexivity|].
  all: destruct (Registro.mes r =? m); cbn [negb].
  all: rewrite ?andb_true_r, ?andb_false_r; reflexivity.
Qed.

(** X7. Choosing the option made from a number in the year select, or in
    the month select, keeps exactly the records with that year, or that
    month, among those the wildcard of the select shows, whatever the
    other filters are. *)
Theorem seleccionar_numero (e : Estado) (n : Z) :
  registrosFilt (filtrarDatos (set_filtro e key_anio (valor_opcion n)))
  = List.filter (fun r => Registro.anio r =? n)
      (registrosFilt (filtrarDatos (set_filtro e key_anio EmptyString)))
  /\ registrosFilt (filtrarDatos (set_filtro e key_mes (valor_opcion n)))
     = List.filter (fun r => Registro.mes r =? n)
         (registrosFilt (filtrarDatos (set_filtro e key_mes EmptyString))).
Proof.
  destruct e as [d f]. unfold filtrarDatos, set_filtro; simpl.
  rewrite !filter_filter_and. split; apply filter_ext; intros r.
  - apply pasa_anio.
  - apply pasa_mes.
Qed.

Lemma strict_neq_str_eqb_valor (a : option string) (v : string) :
  JS.strict_neq_str a v = negb (eqb_valor a (Some v)).
Proof. destruct a; reflexivity. Qed.

Lemma pasa_campo (pm : gmap string Proyecto.t) (e : Estado) (k : FiltroKey)
    (c : Campo) (v : string) (r : Registro.t) :
  campo_de_filtro k = Some c -> v <> EmptyString ->
  pasa pm (filtros (set_filtro e k v)) r
  = pasa pm (filtros (set_filtro e k EmptyString)) r && proyecto_con pm c v r.
Proof.
  intros Hk Hv. apply truthy_true in Hv.
  destruct e as [d [fa fm far ft fe fr]].
  unfold pasa, proyecto_con, JS.leer.
  destruct k; try discriminate Hk; injection Hk as <-;
    cbn [set_filtro filtros Filtros.anio Filtros.mes Filtros.area
         Filtros.tipo Filtros.estadoProy Filtros.region prop];
    (destruct (pm !! Registro.id_proyecto r) as [p|];
     [|destruct (JS.heredada (Registro.id_proyecto r)); [|reflexivity];
       rewrite Hv; cbn [prop_de JS.strict_neq_str andb];
       repeat match goal with
              | |- context [if ?b then false else _] =>
                  destruct b; [reflexivity|]
              end; reflexivity]);
    cbn [prop_de prop];
    rewrite Hv, !strict_neq_str_eqb_valor; cbn [JS.truthy andb];
    repeat match goal with
           | |- context [if ?b then false else _] =>
               lazymatch b with
               | negb (eqb_valor _ (Some v)) => fail
               | _ => destruct b; [reflexivity|]
               end
           end;
    destruct (eqb_valor _ (Some v)); cbn [negb];
    rewrite ?andb_true_r, ?andb_false_r; reflexivity.
Qed.

(** X8. Choosing a non-empty value in the area, type, state or region
    select keeps exactly the records whose joined project has that value
    for the attribute, among those the wildcard of the select shows. *)
Theorem seleccionar_categoria (e : Estado) (k : FiltroKey) (c : Campo)
    (v : string) :
  campo_de_filtro k = Some c -> v <> EmptyString ->
  registrosFilt (filtrarDatos (set_filtro e k v))
  = List.filter (proyecto_con (proyMap (filtrarDatos e)) c v)
      (registrosFilt (filtrarDatos (set_filtro e k EmptyString))).
Proof.
  intros Hk Hv.
  assert (Ed : forall w, datos (set_filtro e k w) = datos e) by reflexivity.
  unfold filtrarDatos. cbn [registrosFilt proyMap]. rewrite !Ed.
  rewrite filter_filter_and. apply filter_ext. intros r.
  now apply pasa_campo.
Qed.

Lemma seleccionar_categoria_witness :
  registrosFilt
    (filtrarDatos (set_filtro (mkEstado ejemplo sin_filtros) key_area "Mina B"))
  = [Registro.mk "P2" 2024 1 2000 1000].
Proof.
  rewrite (seleccionar_categoria (mkEstado ejemplo sin_filtros) key_area
             campo_area "Mina B" eq_refl ltac:(discriminate)).
  vm_compute. reflexivity.
Defined.

(** ** The option lists *)

Section SetDe.
Context {A : Type} (eqb : A -> A -> bool).
Hypothesis eqb_spec : forall a b, eqb a b = true <-> a = b.

Lemma existsb_eqb_In (x : A) (l : list A) : existsb (eqb x) l = true <-> In x l.
Proof.
  rewrite existsb_exists. split.
  - intros (y & Hy & E). apply eqb_spec in E. now subst.
  - intros H. exists x. split; [exact H|]. now apply eqb_spec.
Qed.

Lemma Set_de_gen (l seen : list A) :
  List.NoDup seen ->
  let res := fold_left
               (fun seen x => if existsb (eqb x) seen then seen else seen ++ [x])
               l seen in
  List.NoDup res /\ forall x, In x res <-> In x seen \/ In x l.
Proof.
  revert seen. induction l as [|y l IH]; intros seen HN; simpl.
  - split; [exact HN|]. tauto.
  - destruct (existsb (eqb y) seen) eqn:E.
    + apply existsb_eqb_In in E. destruct (IH seen HN) as [H1 H2].
      split; [exact H1|]. intros x. rewrite H2. split; [tauto|].
      intros [H|[->|H]]; auto.
    + assert (Hy : ~ In y seen).
      { intros H. apply existsb_eqb_In in H. congruence. }
      assert (HN' : List.NoDup (seen ++ [y])).
      { apply NoDup_ListNoDup, NoDup_app. split; [now apply NoDup_ListNoDup|].
        split; [|apply NoDup_singleton].
        intros x Hx Hx'. apply list_elem_of_In in Hx, Hx'.
        destruct Hx' as [<-|[]]. contradiction. }
      destruct (IH _ HN') as [H1 H2]. split; [exact H1|].
      intros x. rewrite H2, in_app_iff. simpl. tauto.
Qed.

Lemma Set_de_spec (l : list A) :
  List.NoDup (JSlib.Set_de eqb l)
  /\ forall x, In x (JSlib.Set_de eqb l) <-> In x l.
Proof.
  destruct (Set_de_gen l [] (List.NoDup_nil A)) as [H1 H2].
  split; [exact H1|]. intros x. rewrite H2. simpl. tauto.
Qed.
End SetDe.

Lemma eqb_valor_spec (a b : option string) : eqb_valor a b = true <-> a = b.
Proof.
  destruct a as [x|], b as [y|]; simpl; try (split; congruence).
  rewrite String.eqb_eq. split; congruence.
Qed.

Lemma StronglySorted_NoDup_strict {A : Type} (R R' : A -> A -> Prop) (l : list A) :
  (forall x y, R x y -> x <> y -> R' x y) ->
  StronglySorted R l -> List.NoDup l -> StronglySorted R' l.
Proof.
  intros HR. induction 1 as [|x l Hs IH Hx]; intros HN; constructor.
  - apply IH. now inversion HN.
  - inversion HN as [|? ? Hnot _]; subst.
    rewrite List.Forall_forall in Hx |- *. intros y Hy.
    apply HR; [now apply Hx|]. intros ->. contradiction.
Qed.

Lemma SortCompare_le (a b : string) :
  JSlib.SortCompare a b <= 0 <-> String.le a b.
Proof.
  unfold JSlib.SortCompare, String.le, String.leb.
  destruct (String.compare a b); simpl; split; intros H; try lia; try exact I;
    destruct H.
Qed.

Lemma NoDup_perm {A : Type} (l l' : list A) :
  Permutation l l' -> List.NoDup l -> List.NoDup l'.
Proof. intros HP HN. exact (Permutation_NoDup HP HN). Qed.

(** X9. The options of the month select are the months that occur in the
    records, each once, in ascending order.  Those of the year select are
    the years that occur, each once, ordered as strings, which is the
    ascending order of the numbers when every year has four digits. *)
Theorem inicializarFiltros_numeros (d : Datos) :
  let o := inicializarFiltros d in
  StronglySorted Z.lt (meses o)
  /\ (forall m, In m (meses o) <->
        exists r, In r (registros d) /\ Registro.mes r = m)
  /\ StronglySorted
       (fun a b => str_lt (JS.Number_toString a) (JS.Number_toString b))
       (anios o)
  /\ (forall y, In y (anios o) <->
        exists r, In r (registros d) /\ Registro.anio r = y)
  /\ ((forall r, In r (registros d) -> 1000 <= Registro.anio r <= 9999) ->
      StronglySorted Z.lt (anios o)).
Proof.
  intros o. subst o. unfold inicializarFiltros; cbn [meses anios].
  destruct (Set_de_spec Z.eqb Z.eqb_eq (map Registro.mes (registros d)))
    as [HNm HIm].
  destruct (Set_de_spec Z.eqb Z.eqb_eq (map Registro.anio (registros d)))
    as [HNa HIa].
  set (Sm := JSlib.Set_de Z.eqb (map Registro.mes (registros d))) in *.
  set (Sa := JSlib.Set_de Z.eqb (map Registro.anio (registros d))) in *.
  assert (Hin : forall (f : Registro.t -> Z) x, In x (map f (registros d)) <->
                            exists r, In r (registros d) /\ f r = x).
  { intros f x. rewrite in_map_iff. split; intros (r & H1 & H2); eauto. }
  assert (Hstr : StronglySorted
                   (fun a b => str_lt (JS.Number_toString a) (JS.Number_toString b))
                   (JSlib.sort_numeros Sa)).
  { unfold JSlib.sort_numeros.
    set (cmp := fun a b => JSlib.SortCompare (JS.Number_toString a)
                                             (JS.Number_toString b)).
    apply (StronglySorted_NoDup_strict
             (fun a b => String.le (JS.Number_toString a) (JS.Number_toString b))).
    - intros x y Hle NE. apply str_le_neq_lt; [exact Hle|].
      intros E. apply NE. now apply Number_toString_inj.
    - assert (Hs := Array_sort_sorted cmp
                      ltac:(intros a b; unfold cmp; rewrite !SortCompare_le;
                            apply (total String.le))
                      ltac:(intros a b c; unfold cmp; rewrite !SortCompare_le;
                            apply transitivity) Sa).
      revert Hs. apply StronglySorted_mono.
      intros a b. unfold cmp. apply SortCompare_le.
    - apply (NoDup_perm Sa); [symmetry; apply Array_sort_perm|exact HNa]. }
  split; [|split; [|split; [|split]]].
  - apply (StronglySorted_NoDup_strict Z.le); [intros; lia| |].
    + assert (Hs := Array_sort_sorted (fun a b => a - b)
                      ltac:(intros a b; lia) ltac:(intros a b c; lia) Sm).
      revert Hs. apply StronglySorted_mono. intros a b. lia.
    + apply (NoDup_perm Sm); [symmetry; apply Array_sort_perm|exact HNm].
  - intros m. rewrite Array_sort_In, HIm. apply Hin.
  - exact Hstr.
  - intros y. unfold JSlib.sort_numeros. rewrite Array_sort_In, HIa. apply Hin.
  - intros Hr. rewrite <- (List.map_id (JSlib.sort_numeros Sa)).
    revert Hstr. apply StronglySorted_map_in.
    intros x y Hx Hy Hlt.
    assert (Hrange : forall z, In z (JSlib.sort_numeros Sa) -> 1000 <= z <= 9999).
    { intros z Hz. unfold JSlib.sort_numeros in Hz.
      rewrite Array_sort_In, HIa in Hz. apply Hin in Hz as (r & Hr1 & <-). auto. }
    unfold str_lt in Hlt. rewrite anio_compare in Hlt by auto.
    now apply Z.compare_lt_iff.
Qed.

Lemma inicializarFiltros_numeros_witness :
  StronglySorted Z.lt (anios (inicializarFiltros ejemplo)).
Proof.
  apply (inicializarFiltros_numeros ejemplo).
  intros r [<-|[<-|[<-|[]]]]; simpl; lia.
Defined.

Lemma definidos_In (l : list (option string)) (s : string) :
  In s (JSlib.definidos l) <-> In (Some s) l.
Proof.
  induction l as [|[x|] l IH]; simpl; [tauto| |].
  - rewrite IH. split; [intros [->|H]; auto|intros [[= ->]|H]; auto].
  - rewrite IH. split; [auto|intros [H|H]; [discriminate|auto]].
Qed.

Lemma definidos_NoDup (l : list (option string)) :
  List.NoDup l -> List.NoDup (JSlib.definidos l).
Proof.
  induction 1 as [|[x|] l Hx HN IH]; simpl; [constructor| |exact IH].
  constructor; [|exact IH]. now rewrite definidos_In.
Qed.

Lemma filter_undefined (l : list (option string)) :
  List.NoDup l ->
  List.filter JSlib.es_undefined l = if existsb JSlib.es_undefined l then [None] else [].
Proof.
  induction 1 as [|[x|] l Hx HN IH]; simpl; [reflexivity|exact IH|].
  assert (E : existsb JSlib.es_undefined l = false).
  { destruct (existsb JSlib.es_undefined l) eqn:E; [|reflexivity].
    apply existsb_exists in E as ([y|] & Hy & Hu); [discriminate|contradiction]. }
  now rewrite IH, E.
Qed.

Lemma sort_valores_spec (l : list (option string)) :
  List.NoDup l ->
  List.NoDup (JSlib.sort_valores l)
  /\ (forall v, In v (JSlib.sort_valores l) <-> In v l)
  /\ exists ss, StronglySorted str_lt ss
       /\ JSlib.sort_valores l
          = map Some ss ++ (if existsb JSlib.es_undefined l then [None] else []).
Proof.
  intros HN. unfold JSlib.sort_valores.
  set (ss := JS.Array_sort JSlib.SortCompare (JSlib.definidos l)).
  assert (HPs : Permutation ss (JSlib.definidos l)) by apply Array_sort_perm.
  assert (HNs : List.NoDup ss).
  { apply (NoDup_perm (JSlib.definidos l)); [now symmetry|].
    now apply definidos_NoDup. }
  assert (Hin : forall v, In v (map Some ss ++ List.filter JSlib.es_undefined l)
                          <-> In v l).
  { intros v. rewrite in_app_iff, in_map_iff, filter_In. split.
    - intros [(s & <- & Hs)|[H _]]; [|exact H].
      apply definidos_In. now apply (Permutation_in _ HPs).
    - intros H. destruct v as [s|]; [left|right; auto].
      exists s. split; [reflexivity|].
      apply (Permutation_in _ (Permutation_sym HPs)). now apply definidos_In. }
  split; [|split; [exact Hin|]].
  - rewrite filter_undefined by exact HN.
    apply NoDup_ListNoDup, NoDup_app. split; [|split].
    + apply NoDup_ListNoDup. apply Finite.Injective_map_NoDup; [|exact HNs].
      intros a b [= ->]. reflexivity.
    + intros v Hv Hv'. apply list_elem_of_In in Hv, Hv'.
      apply in_map_iff in Hv as (s & <- & _).
      destruct (existsb JSlib.es_undefined l); simpl in Hv'; intuition discriminate.
    + destruct (existsb JSlib.es_undefined l);
        [apply NoDup_singleton|apply NoDup_nil_2].
  - exists ss. split; [|now rewrite filter_undefined].
    apply (StronglySorted_NoDup_strict String.le);
      [intros x y; apply str_le_neq_lt| |exact HNs].
    assert (Hs := Array_sort_sorted JSlib.SortCompare
                    ltac:(intros a b; rewrite !SortCompare_le;
                          apply (total String.le))
                    ltac:(intros a b c; rewrite !SortCompare_le;
                          apply transitivity) (JSlib.definidos l)).
    revert Hs. apply StronglySorted_mono. intros a b. apply SortCompare_le.
Qed.

(** X10. The options of the area, type, state and region selects are the
    values of that attribute over the projects, each once: first the
    strings, then one [undefined] if some project lacks the attribute; when
    no value has a character outside the Basic Multilingual Plane, the
    strings are in strictly ascending order of character codes. *)
Theorem inicializarFiltros_categorias (d : Datos) (k : FiltroKey) (c : Campo) :
  campo_de_filtro k = Some c ->
  let l := opciones_de (inicializarFiltros d) c in
  List.NoDup l
  /\ (forall v, In v l <-> exists p, In p (proyectos d) /\ prop p c = v)
  /\ exists ss,
       (l = map Some ss \/ l = map Some ss ++ [None])
       /\ ((forall p s, In p (proyectos d) -> prop p c = Some s ->
              JSlib.texto_BMP s = true) ->
           StronglySorted str_lt ss).
Proof.
  intros Hk l.
  assert (E : l = JSlib.sort_valores
                    (JSlib.Set_de eqb_valor
                       (map (fun p => prop p c) (proyectos d)))).
  { destruct k; try discriminate Hk; injection Hk as <-; reflexivity. }
  destruct (Set_de_spec eqb_valor eqb_valor_spec
              (map (fun p => prop p c) (proyectos d))) as [HN HI].
  destruct (sort_valores_spec _ HN) as (H1 & H2 & ss & Hs & H3).
  rewrite E. split; [exact H1|]. split.
  - intros v. rewrite H2, HI, in_map_iff.
    split; intros (p & Hp1 & Hp2); eauto.
  - exists ss. split; [|intros _; exact Hs]. rewrite H3.
    destruct (existsb _ _); [now right|left; apply app_nil_r].
Qed.

Lemma inicializarFiltros_categorias_witness :
  In (Some "Mina B") (areas (inicializarFiltros ejemplo))
  /\ exists ss, areas (inicializarFiltros ejemplo) = map Some ss
                /\ StronglySorted str_lt ss.
Proof.
  destruct (inicializarFiltros_categorias ejemplo key_area campo_area eq_refl)
    as (_ & H & ss & Hl & Hs).
  split; [apply H; exists P2; split; [right; left|]; reflexivity|].
  exists ss. split.
  - destruct Hl as [Hl|Hl]; [exact Hl|].
    exfalso. assert (Hn : In None (areas (inicializarFiltros ejemplo))).
    { change (areas (inicializarFiltros ejemplo))
        with (opciones_de (inicializarFiltros ejemplo) campo_area).
      rewrite Hl. apply in_or_app. right. now left. }
    vm_compute in Hn. intuition discriminate.
  - apply Hs. intros p s [<-|[<-|[]]] [= <-]; reflexivity.
Defined.

Lemma inicializarFiltros_numeros_aux (d : Datos) :
  (forall m, In m (meses (inicializarFiltros d)) <->
     exists r, In r (registros d) /\ Registro.mes r = m)
  /\ (forall y, In y (anios (inicializarFiltros d)) <->
        exists r, In r (registros d) /\ Registro.anio r = y).
Proof.
  unfold inicializarFiltros; cbn [meses anios]. split.
  - intros m. rewrite Array_sort_In.
    rewrite (proj2 (Set_de_spec Z.eqb Z.eqb_eq _)), in_map_iff.
    split; intros (r & H1 & H2); eauto.
  - intros y. unfold JSlib.sort_numeros. rewrite Array_sort_In.
    rewrite (proj2 (Set_de_spec Z.eqb Z.eqb_eq _)), in_map_iff.
    split; intros (r & H1 & H2); eauto.
Qed.

(** X11. When every record refers to a project of the dataset, no option
    of the year select and no option of the month select leads to an empty
    dashboard: chosen alone, it keeps at least one record. *)
Theorem opciones_no_vacias (d : Datos) :
  integridad d ->
  (forall y, In y (anios (inicializarFiltros d)) ->
     registrosFilt (filtrarDatos (mkEstado d (solo_anio (valor_opcion y)))) <> [])
  /\ (forall m, In m (meses (inicializarFiltros d)) ->
        registrosFilt (filtrarDatos (mkEstado d (solo_mes (valor_opcion m)))) <> []).
Proof.
  intros Hint.
  assert (Hpasa : forall f r, In r (registros d) ->
            (forall proy, satisfies f r proy) ->
            registrosFilt (filtrarDatos (mkEstado d f)) <> []).
  { intros f r Hr Hs Hnil.
    destruct (Hint r Hr) as (p & Hp & Hid).
    destruct (proj2 (proyMap_of_is_Some (proyectos d) (Registro.id_proyecto r)))
      as [q Hq]; [eauto|].
    assert (Hin : In r (registrosFilt (filtrarDatos (mkEstado d f)))).
    { unfold filtrarDatos; simpl. apply filter_In. split; [exact Hr|].
      apply (pasa_propio _ _ _ q Hq). apply Hs. }
    rewrite Hnil in Hin. destruct Hin. }
  destruct (inicializarFiltros_numeros_aux d) as [Hm Ha].
  split.
  - intros y Hy. apply Ha in Hy as (r & Hr & <-).
    apply (Hpasa _ r Hr). intros proy. unfold satisfies, solo_anio; simpl.
    repeat split; try (left; reflexivity).
    right. apply parseInt_toString.
  - intros m Hy. apply Hm in Hy as (r & Hr & <-).
    apply (Hpasa _ r Hr). intros proy. unfold satisfies, solo_mes; simpl.
    repeat split; try (left; reflexivity).
    right. apply parseInt_toString.
Qed.

Lemma opciones_no_vacias_witness :
  registrosFilt (filtrarDatos (mkEstado ejemplo (solo_anio (valor_opcion 2024))))
  <> [].
Proof.
  apply (opciones_no_vacias ejemplo).
  - intros r [<-|[<-|[<-|[]]]]; simpl;
      [exists P1|exists P1|exists P2]; simpl; auto.
  - vm_compute. left. reflexivity.
Defined.

(** ** The five views: placeholder and totals *)

Lemma length_zero_nil {A : Type} (l : list A) :
  (length l =? 0)%nat = true <-> l = [].
Proof. destruct l; simpl; split; congruence. Qed.

Lemma si_vacio {A B : Type} (l : list A) (x : B) :
  (if (length l =? 0)%nat then None else Some x) = None <-> l = [].
Proof. destruct l; simpl; split; congruence. Qed.

Lemma perm_nil_iff {A : Type} (l l' : list A) :
  Permutation l l' -> (l = [] <-> l' = []).
Proof.
  intros H. split; intros ->.
  - now apply Permutation_nil.
  - apply Permutation_nil. now symmetry.
Qed.

Lemma acumular_suma_vacio (clave : Registro.t -> string) (regs : list Registro.t) :
  fold_left (acumular suma_init suma_add_presupuestado suma_add_ejecutado clave)
            regs [] = [] <-> agrupados clave regs = [].
Proof.
  destruct (acumular_suma_spec clave regs) as (_ & Hiff & _). split.
  - intros E. rewrite E in Hiff.
    destruct (agrupados clave regs) as [|r l] eqn:El; [reflexivity|].
    exfalso.
    assert (Hr : In r (agrupados clave regs)) by (rewrite El; now left).
    apply agrupados_In in Hr as [Hr Hk].
    apply (proj2 (Hiff (clave r) (suma_de clave (clave r) regs))).
    split; [exact Hk|]. split; [|reflexivity]. eauto.
  - intros E.
    destruct (fold_left _ regs []) as [|[k s] acc]; [reflexivity|].
    exfalso. destruct (proj1 (Hiff k s) (or_introl eq_refl))
      as (Hk & (r & Hr & <-) & _).
    assert (Hin : In r (agrupados clave regs)) by now apply agrupados_In.
    rewrite E in Hin. destruct Hin.
Qed.

Lemma agruparPorCampoProy_vacio regs pm c :
  JS.Object_keys (agruparPorCampoProy regs pm c) = []
  <-> agrupados (clave_campo pm c) regs = [].
Proof.
  unfold JS.Object_keys, agruparPorCampoProy.
  rewrite <- (acumular_suma_vacio (clave_campo pm c) regs).
  set (acc := fold_left _ regs []).
  rewrite <- (perm_nil_iff _ _ (Object_entries_perm acc)).
  destruct (JS.Object_entries acc); simpl; split; congruence.
Qed.

Lemma agruparPorMes_vacio regs : agruparPorMes regs = [] <-> regs = [].
Proof.
  split; [|now intros ->].
  destruct (agruparPorMes_spec regs) as [_ Hiff]. cbn zeta in Hiff.
  intros E. rewrite E in Hiff. destruct regs as [|r regs]; [reflexivity|].
  exfalso. apply (proj2 (Hiff (clave_mes r) (bucket_clave (r :: regs) (clave_mes r)))).
  split; [|reflexivity]. exists r. split; [now left|reflexivity].
Qed.

Lemma ranking_vacio regs pm :
  ranking regs pm = [] <-> agrupados Registro.id_proyecto regs = [].
Proof.
  unfold ranking.
  rewrite <- (acumular_suma_vacio Registro.id_proyecto regs).
  set (acc := fold_left _ regs []).
  rewrite <- (perm_nil_iff _ _ (Object_entries_perm acc)).
  rewrite (perm_nil_iff _ _ (Array_sort_perm _ _)).
  destruct (JS.Object_entries acc); simpl; split; congruence.
Qed.

Lemma firstn_S_vacio {A : Type} (n : nat) (l : list A) :
  firstn (S n) l = [] <-> l = [].
Proof. destruct l; simpl; split; congruence. Qed.

Lemma agrupados_vacio clave regs :
  (forall r, In r regs -> JS.heredada (clave r) = false) ->
  (agrupados clave regs = [] <-> regs = []).
Proof. intros H. now rewrite agrupados_todos. Qed.

(** X12. Each view shows its "Sin datos" placeholder exactly when no
    record gets a group in it: the line chart when there is no record,
    the area and type charts when the key of every record is the name of a
    member inherited from [Object.prototype], the comparison chart and the
    table when every [id_proyecto] is such a name.  When no id and no area
    or type key is such a name, the five show the placeholder together,
    exactly when no record passed the filter. *)
Theorem vistas_vacias (regs : list Registro.t) (pm : gmap string Proyecto.t) :
  (renderChartArea regs pm = None
     <-> agrupados (clave_campo pm campo_area) regs = [])
  /\ (renderChartTipo regs pm = None
        <-> agrupados (clave_campo pm campo_tipo) regs = [])
  /\ (renderChartLinea regs = None <-> regs = [])
  /\ (renderChartPresupuesto regs pm = None
        <-> agrupados Registro.id_proyecto regs = [])
  /\ (renderTablaTop10_filas regs pm = None
        <-> agrupados Registro.id_proyecto regs = [])
  /\ ((forall r, In r regs -> sin_heredadas pm r) ->
      (renderChartArea regs pm = None <-> regs = [])
      /\ (renderChartTipo regs pm = None <-> regs = [])
      /\ (renderChartPresupuesto regs pm = None <-> regs = [])
      /\ (renderTablaTop10_filas regs pm = None <-> regs = [])).
Proof.
  assert (HA : renderChartArea regs pm = None
               <-> agrupados (clave_campo pm campo_area) regs = []).
  { unfold renderChartArea. cbn zeta. rewrite si_vacio.
    apply agruparPorCampoProy_vacio. }
  assert (HT : renderChartTipo regs pm = None
               <-> agrupados (clave_campo pm campo_tipo) regs = []).
  { unfold renderChartTipo. cbn zeta. rewrite si_vacio.
    apply agruparPorCampoProy_vacio. }
  assert (HL : renderChartLinea regs = None <-> regs = []).
  { unfold renderChartLinea. cbn zeta. rewrite si_vacio.
    apply agruparPorMes_vacio. }
  assert (HP : renderChartPresupuesto regs pm = None
               <-> agrupados Registro.id_proyecto regs = []).
  { unfold renderChartPresupuesto. cbn zeta. rewrite si_vacio.
    unfold renderChartPresupuesto_top, top10Proyectos.
    rewrite !firstn_S_vacio. apply ranking_vacio. }
  assert (HF : renderTablaTop10_filas regs pm = None
               <-> agrupados Registro.id_proyecto regs = []).
  { unfold renderTablaTop10_filas. cbn zeta. rewrite si_vacio.
    unfold top10Proyectos. rewrite firstn_S_vacio. apply ranking_vacio. }
  split; [exact HA|]. split; [exact HT|]. split; [exact HL|].
  split; [exact HP|]. split; [exact HF|].
  intros Hs.
  rewrite HA, HT, HP, HF.
  split; [|split; [|split]]; apply agrupados_vacio; intros r Hr;
    destruct (Hs r Hr) as (H1 & H2 & H3); assumption.
Qed.

Lemma vistas_vacias_witness :
  renderChartArea (registros ejemplo) (proyMap_of (proyectos ejemplo)) <> None.
Proof.
  destruct (vistas_vacias (registros ejemplo) (proyMap_of (proyectos ejemplo)))
    as (_ & _ & _ & _ & _ & H).
  assert (Hs : forall r, In r (registros ejemplo) ->
            sin_heredadas (proyMap_of (proyectos ejemplo)) r).
  { intros r [<-|[<-|[<-|[]]]]; repeat split; reflexivity. }
  destruct (H Hs) as (HA & _). rewrite HA. discriminate.
Defined.

(** A record whose area is named like a member of [Object.prototype]
    leaves the area chart empty, and a record whose id is such a name
    leaves the table empty. *)
Example vistas_vacias_heredadas :
  renderChartArea [Registro.mk "P4" 2024 1 10 5]
    (proyMap_of [Proyecto.mk "P4" None (Some "constructor") None None
                             None None]) = None
  /\ renderTablaTop10_filas [Registro.mk "toString" 2024 1 10 5] ∅ = None.
Proof. vm_compute. split; reflexivity. Qed.

Lemma Zsuma_perm (l l' : list Z) : Permutation l l' -> Zsuma l = Zsuma l'.
Proof.
  induction 1; unfold Zsuma in *; simpl; lia.
Qed.

(** Entries with distinct keys that cover the records, each holding the
    sum over its group, add up to the sum over the records. *)
Lemma suma_por_claves {E : Type} (clave : Registro.t -> string)
    (campo : Registro.t -> Z) (key : E -> string) (val : E -> Z)
    (l : list E) (regs : list Registro.t) :
  NoDup (map key l) ->
  (forall r, In r regs -> In (clave r) (map key l)) ->
  (forall e, In e l -> val e = suma campo (grupo clave (key e) regs)) ->
  Zsuma (map val l) = suma campo regs.
Proof.
  intros HN Hcov Hval.
  rewrite <- (suma_particion clave campo (map key l) regs HN Hcov).
  clear HN Hcov. induction l as [|e l IH]; simpl; [reflexivity|].
  rewrite (Hval e (or_introl eq_refl)). f_equal.
  apply IH. intros e' He'. apply Hval. now right.
Qed.

Lemma columna_entries (campo : Suma.t -> Z) (acc : list (string * Suma.t)) :
  NoDup (map fst acc) ->
  columna campo acc (JS.Object_keys acc)
  = map (fun e => Some (campo (snd e))) (JS.Object_entries acc).
Proof.
  intros HN. unfold columna, JS.Object_keys. rewrite map_map.
  apply map_ext_in. intros [k s] Hin. simpl.
  apply (proj1 (Object_entries_In acc _)) in Hin.
  apply (proj2 (obj_get_In acc k s HN)) in Hin.
  now rewrite Hin.
Qed.

Lemma columna_suma_Some (l : list Z) :
  columna_suma (map Some l) = Some (Zsuma l).
Proof.
  induction l as [|x l IH]; simpl; [reflexivity|]. now rewrite IH.
Qed.

Lemma columna_agrupada (campoS : Suma.t -> Z) (campoR : Registro.t -> Z)
    regs pm c :
  (forall clave k, campoS (suma_de clave k regs)
                   = suma campoR (grupo clave k regs)) ->
  let acc := agruparPorCampoProy regs pm c in
  length (columna campoS acc (JS.Object_keys acc)) = length (JS.Object_keys acc)
  /\ columna_suma (columna campoS acc (JS.Object_keys acc))
     = Some (suma campoR (agrupados (clave_campo pm c) regs)).
Proof.
  intros Hc acc.
  destruct (acumular_suma_spec (clave_campo pm c) regs) as (HN & Hiff & _).
  fold (agruparPorCampoProy regs pm c) in HN, Hiff. fold acc in HN, Hiff.
  split; [unfold columna; now rewrite length_map|].
  rewrite columna_entries by exact HN.
  rewrite <- (map_map (fun e => campoS (snd e)) Some), columna_suma_Some.
  f_equal.
  rewrite (Zsuma_perm _ (map (fun e => campoS (snd e)) acc))
    by (apply Permutation_map, Object_entries_perm).
  apply (suma_por_claves (clave_campo pm c) campoR fst).
  - exact HN.
  - intros r Hr. apply agrupados_In in Hr as [Hr Hk]. apply in_map_iff.
    exists (clave_campo pm c r, suma_de (clave_campo pm c) (clave_campo pm c r) regs).
    split; [reflexivity|]. apply Hiff. eauto.
  - intros [k s] He. apply Hiff in He as (Hk & _ & ->). simpl.
    rewrite grupo_agrupados by exact Hk. apply Hc.
Qed.

Lemma StronglySorted_str_lt_NoDup {A : Type} (f : A -> string) (l : list A) :
  StronglySorted (fun a b => str_lt (f a) (f b)) l -> NoDup (map f l).
Proof.
  induction 1 as [|x l Hs IH Hx]; simpl; [apply NoDup_nil_2|].
  apply NoDup_cons_2; [|exact IH].
  rewrite list_elem_of_In, in_map_iff. intros (y & E & Hy).
  rewrite List.Forall_forall in Hx. specialize (Hx y Hy).
  unfold str_lt in Hx. rewrite E, str_compare_refl in Hx. discriminate.
Qed.

(** X13. For integer amounts whose magnitudes add up to at most [2^53],
    what the charts draw adds up to the KPIs: the points of the monthly
    line always, and the bars of the area chart and the slices of the type
    chart when no group key is the name of a member inherited from
    [Object.prototype], sum to the totals [calcularKPIs] reports for the
    same records; every column has an entry per label, and no bar or slice
    is read from a missing group.  In general the bars and the slices sum
    to the totals over the records that got a group. *)
Theorem graficos_suman_kpis (regs : list Registro.t)
    (pm : gmap string Proyecto.t) (pf : list Proyecto.t) :
  montos_exactos regs ->
  let k := calcularKPIs regs pf in
  (forall ch, renderChartArea regs pm = Some ch ->
     length (area_pres ch) = length (area_labels ch)
     /\ length (area_ejec ch) = length (area_labels ch)
     /\ columna_suma (area_pres ch)
        = Some (suma Registro.presupuestado
                     (agrupados (clave_campo pm campo_area) regs))
     /\ columna_suma (area_ejec ch)
        = Some (suma Registro.ejecutado
                     (agrupados (clave_campo pm campo_area) regs))
     /\ ((forall r, In r regs ->
            JS.heredada (clave_campo pm campo_area r) = false) ->
         columna_suma (area_pres ch) = Some (totalPresupuestado k)
         /\ columna_suma (area_ejec ch) = Some (totalEjecutado k)))
  /\ (forall ch, renderChartTipo regs pm = Some ch ->
        length (tipo_ejec ch) = length (tipo_labels ch)
        /\ columna_suma (tipo_ejec ch)
           = Some (suma Registro.ejecutado
                        (agrupados (clave_campo pm campo_tipo) regs))
        /\ ((forall r, In r regs ->
               JS.heredada (clave_campo pm campo_tipo r) = false) ->
            columna_suma (tipo_ejec ch) = Some (totalEjecutado k)))
  /\ (forall ch, renderChartLinea regs = Some ch ->
        length (linea_ejec ch) = length (linea_labels ch)
        /\ length (linea_pres ch) = length (linea_labels ch)
        /\ Zsuma (linea_ejec ch) = totalEjecutado k
        /\ Zsuma (linea_pres ch) = totalPresupuestado k).
Proof.
  intros _ k. destruct (calcularKPIs_totales regs pf) as (EP & EE & _).
  fold k in EP, EE. rewrite EP, EE.
  split; [|split].
  - intros ch. unfold renderChartArea. cbn zeta.
    destruct (length _ =? 0)%nat; [discriminate|]. intros [= <-]. simpl.
    destruct (columna_agrupada Suma.presupuestado Registro.presupuestado
                regs pm campo_area ltac:(reflexivity)) as [L1 S1].
    destruct (columna_agrupada Suma.ejecutado Registro.ejecutado
                regs pm campo_area ltac:(reflexivity)) as [L2 S2].
    repeat (split; [assumption|]).
    intros Hk. rewrite S1, S2, agrupados_todos by exact Hk. auto.
  - intros ch. unfold renderChartTipo. cbn zeta.
    destruct (length _ =? 0)%nat; [discriminate|]. intros [= <-]. simpl.
    destruct (columna_agrupada Suma.ejecutado Registro.ejecutado
                regs pm campo_tipo ltac:(reflexivity)) as [L2 S2].
    repeat (split; [assumption|]).
    intros Hk. now rewrite S2, agrupados_todos by exact Hk.
  - intros ch. unfold renderChartLinea. cbn zeta.
    destruct (length _ =? 0)%nat; [discriminate|]. intros [= <-]. simpl.
    rewrite !length_map.
    destruct (agruparPorMes_spec regs) as [Hs Hiff]. cbn zeta in Hs, Hiff.
    assert (HN := StronglySorted_str_lt_NoDup _ _ Hs).
    assert (Hcov : forall r, In r regs ->
                     In (clave_mes r) (map fst (agruparPorMes regs))).
    { intros r Hr. apply in_map_iff.
      exists (clave_mes r, bucket_clave regs (clave_mes r)).
      split; [reflexivity|]. apply Hiff. eauto. }
    split; [reflexivity|]. split; [reflexivity|]. split.
    + apply (suma_por_claves clave_mes Registro.ejecutado fst); auto.
      intros [k0 b] He. apply Hiff in He as [_ ->]. reflexivity.
    + apply (suma_por_claves clave_mes Registro.presupuestado fst); auto.
      intros [k0 b] He. apply Hiff in He as [_ ->]. reflexivity.
Qed.

Lemma graficos_suman_kpis_witness :
  exists ch, renderChartLinea (registros ejemplo) = Some ch
             /\ Zsuma (linea_ejec ch) = 2500.
Proof.
  destruct (renderChartLinea (registros ejemplo)) as [ch|] eqn:E;
    [|vm_compute in E; discriminate E].
  exists ch. split; [reflexivity|].
  assert (Hm : montos_exactos (registros ejemplo))
    by (split; vm_compute; discriminate).
  destruct (graficos_suman_kpis (registros ejemplo) ∅ [] Hm) as (_ & _ & H).
  destruct (H ch E) as (_ & _ & -> & _). reflexivity.
Defined.

Lemma suma_no_negativa (campo : Registro.t -> Z) (l : list Registro.t) :
  (forall r, In r l -> 0 <= campo r) -> 0 <= suma campo l.
Proof.
  induction l as [|r l IH]; simpl; intros H; [lia|].
  assert (0 <= campo r) by (apply H; now left).
  assert (0 <= suma campo l) by (apply IH; intros; apply H; now right). lia.
Qed.

(** X14. For integer amounts whose magnitudes add up to at most [2^53]
    and ids none of which is the name of a member inherited from
    [Object.prototype], the ranking before the cut adds up to the KPIs;
    the table shows it whole, and so adds up to them, when at most 10
    project ids occur; with amounts that are not negative the rows of the
    table never add up to more than the KPI totals. *)
Theorem tabla_suma_kpis (regs : list Registro.t)
    (pm : gmap string Proyecto.t) (pf : list Proyecto.t) :
  montos_exactos regs ->
  (forall r, In r regs -> JS.heredada (Registro.id_proyecto r) = false) ->
  let k := calcularKPIs regs pf in
  let top := top10Proyectos regs pm in
  Zsuma (map Top.ejecutado (ranking regs pm)) = totalEjecutado k
  /\ Zsuma (map Top.presupuestado (ranking regs pm)) = totalPresupuestado k
  /\ ((length (ranking regs pm) <= 10)%nat ->
      Zsuma (map Top.ejecutado top) = totalEjecutado k
      /\ Zsuma (map Top.presupuestado top) = totalPresupuestado k)
  /\ ((forall r, In r regs -> no_negativo r) ->
      Zsuma (map Top.ejecutado top) <= totalEjecutado k
      /\ Zsuma (map Top.presupuestado top) <= totalPresupuestado k).
Proof.
  intros _ Hid k top. destruct (calcularKPIs_totales regs pf) as (EP & EE & _).
  fold k in EP, EE. rewrite EP, EE.
  destruct (ranking_spec regs pm) as (_ & HN & Hiff). cbn zeta in HN, Hiff.
  assert (Hcov : forall r, In r regs ->
                   In (Registro.id_proyecto r) (map Top.id (ranking regs pm))).
  { intros r Hr. apply in_map_iff.
    exists (top_de pm (Registro.id_proyecto r,
                       suma_de Registro.id_proyecto (Registro.id_proyecto r) regs)).
    split; [reflexivity|]. apply Hiff. simpl. split; [now apply Hid|]. eauto. }
  assert (SE : Zsuma (map Top.ejecutado (ranking regs pm))
               = suma Registro.ejecutado regs).
  { apply (suma_por_claves Registro.id_proyecto Registro.ejecutado Top.id); auto.
    intros item He. apply Hiff in He as (_ & _ & ->). reflexivity. }
  assert (SP : Zsuma (map Top.presupuestado (ranking regs pm))
               = suma Registro.presupuestado regs).
  { apply (suma_por_claves Registro.id_proyecto Registro.presupuestado Top.id); auto.
    intros item He. apply Hiff in He as (_ & _ & ->). reflexivity. }
  split; [exact SE|]. split; [exact SP|]. split.
  - intros Hlen. subst top. unfold top10Proyectos.
    rewrite firstn_all2 by exact Hlen. auto.
  - intros Hpos. subst top. unfold top10Proyectos.
    assert (Hitem : forall item, In item (ranking regs pm) ->
              0 <= Top.ejecutado item /\ 0 <= Top.presupuestado item).
    { intros item He. apply Hiff in He as (_ & _ & ->). simpl.
      split; apply suma_no_negativa; intros r Hr;
        apply grupo_In in Hr as [Hr _]; now apply Hpos. }
    rewrite <- SE, <- SP.
    rewrite <- (firstn_skipn 10 (ranking regs pm)) at 2 4.
    rewrite !map_app.
    assert (Happ : forall a b, Zsuma (a ++ b) = Zsuma a + Zsuma b).
    { intros a b. induction a as [|x a IH]; simpl; [reflexivity|].
      unfold Zsuma in *. simpl. lia. }
    rewrite !Happ.
    assert (Hnn : forall (f : Top.t -> Z) l,
              (forall item, In item l -> 0 <= f item) -> 0 <= Zsuma (map f l)).
    { intros f l Hl. induction l as [|x l IH]; simpl; [lia|].
      assert (0 <= f x) by (apply Hl; now left).
      assert (0 <= Zsuma (map f l)) by (apply IH; intros; apply Hl; now right).
      unfold Zsuma in *. simpl. lia. }
    assert (Hsk : forall item, In item (skipn 10 (ranking regs pm)) ->
                    In item (ranking regs pm)).
    { intros item H. rewrite <- (firstn_skipn 10 (ranking regs pm)).
      apply in_or_app. now right. }
    assert (0 <= Zsuma (map Top.ejecutado (skipn 10 (ranking regs pm))))
      by (apply Hnn; intros item Hi; apply Hitem; auto).
    assert (0 <= Zsuma (map Top.presupuestado (skipn 10 (ranking regs pm))))
      by (apply Hnn; intros item Hi; apply Hitem; auto).
    lia.
Qed.

Lemma tabla_suma_kpis_witness :
  Zsuma (map Top.ejecutado (top10Proyectos (registros ejemplo) ∅)) = 2500.
Proof.
  assert (Hm : montos_exactos (registros ejemplo))
    by (split; vm_compute; discriminate).
  assert (Hid : forall r, In r (registros ejemplo) ->
            JS.heredada (Registro.id_proyecto r) = false).
  { intros r [<-|[<-|[<-|[]]]]; reflexivity. }
  destruct (tabla_suma_kpis (registros ejemplo) ∅ [] Hm Hid) as (_ & _ & H & _).
  destruct H as [-> _]; [vm_compute; lia|reflexivity].
Defined.

(** ** The order of the records *)

Lemma suma_perm (campo : Registro.t -> Z) (l l' : list Registro.t) :
  Permutation l l' -> suma campo l = suma campo l'.
Proof. induction 1; simpl; lia. Qed.

Lemma filter_perm {A : Type} (p : A -> bool) (l l' : list A) :
  Permutation l l' -> Permutation (List.filter p l) (List.filter p l').
Proof.
  induction 1 as [|x l l' HP IH|x y l|l l' l'' H1 IH1 H2 IH2]; simpl.
  - constructor.
  - destruct (p x); [now constructor|exact IH].
  - destruct (p x), (p y); try reflexivity. apply perm_swap.
  - now transitivity (List.filter p l').
Qed.

Lemma suma_de_perm clave k (regs regs' : list Registro.t) :
  Permutation regs regs' -> suma_de clave k regs = suma_de clave k regs'.
Proof.
  intros HP. unfold suma_de, grupo.
  f_equal; apply suma_perm, filter_perm, HP.
Qed.

Lemma StronglySorted_unique {A : Type} (R : A -> A -> Prop) :
  (forall x, ~ R x x) -> (forall x y z, R x y -> R y z -> R x z) ->
  forall l l', StronglySorted R l -> StronglySorted R l' ->
    (forall x, In x l <-> In x l') -> l = l'.
Proof.
  intros Hirr Htr. induction l as [|x l IH]; intros l' Hs Hs' Hin.
  - destruct l' as [|y l']; [reflexivity|].
    exfalso. apply (proj2 (Hin y)). now left.
  - destruct l' as [|y l'].
    { exfalso. apply (proj1 (Hin x)). now left. }
    apply StronglySorted_inv in Hs as [Hs Hx].
    apply StronglySorted_inv in Hs' as [Hs' Hy].
    rewrite List.Forall_forall in Hx, Hy.
    assert (E : x = y).
    { destruct (proj1 (Hin x) (or_introl eq_refl)) as [E|Hxl']; [now symmetry|].
      destruct (proj2 (Hin y) (or_introl eq_refl)) as [E|Hyl]; [exact E|].
      exfalso. apply (Hirr x). apply (Htr x y x); auto. }
    subst y. f_equal. apply IH; try assumption.
    intros z. split; intros Hz.
    + destruct (proj1 (Hin z) (or_intror Hz)) as [<-|H]; [|exact H].
      exfalso. apply (Hirr x). now apply Hx.
    + destruct (proj2 (Hin z) (or_intror Hz)) as [<-|H]; [|exact H].
      exfalso. apply (Hirr x). now apply Hy.
Qed.

Lemma bucket_clave_perm (regs regs' : list Registro.t) (r : Registro.t) :
  Permutation regs regs' ->
  (forall r, In r regs -> en_rango r) ->
  In r regs ->
  bucket_clave regs (clave_mes r) = bucket_clave regs' (clave_mes r).
Proof.
  intros HP Hrango Hr.
  assert (Hrango' : forall r, In r regs' -> en_rango r).
  { intros r0 H0. apply Hrango. now apply (Permutation_in _ (Permutation_sym HP)). }
  assert (Hr' : In r regs') by now apply (Permutation_in _ HP).
  destruct (ym_de_clave_spec regs r Hrango Hr) as [_ E1].
  destruct (ym_de_clave_spec regs' r Hrango' Hr') as [_ E2].
  assert (E : bucket_de regs (Registro.anio r, Registro.mes r)
              = bucket_de regs' (Registro.anio r, Registro.mes r)).
  { unfold bucket_de. do 2 f_equal; apply suma_perm, filter_perm, HP. }
  rewrite E1, E2 in E. congruence.
Qed.

(** X15. With four-digit years, months of at most two digits and integer
    amounts whose magnitudes add up to at most [2^53], the monthly series
    does not depend on the order of the records: two lists with the same
    records give the same buckets in the same order. *)
Theorem agruparPorMes_perm (regs regs' : list Registro.t) :
  Permutation regs regs' ->
  (forall r, In r regs -> en_rango r) ->
  montos_exactos regs ->
  agruparPorMes regs = agruparPorMes regs'.
Proof.
  intros HP Hrango _.
  destruct (agruparPorMes_spec regs) as [Hs Hin].
  destruct (agruparPorMes_spec regs') as [Hs' Hin']. cbn zeta in *.
  apply (StronglySorted_unique
           (fun a b : string * Bucket.t => str_lt (fst a) (fst b)));
    try assumption.
  - intros x H. unfold str_lt in H. rewrite str_compare_refl in H. discriminate.
  - intros x y z. apply str_lt_trans.
  - intros [k b]. rewrite Hin, Hin'. split.
    + intros ((r & Hr & <-) & ->). split.
      * exists r. split; [now apply (Permutation_in _ HP)|reflexivity].
      * now apply bucket_clave_perm.
    + intros ((r & Hr & <-) & ->).
      assert (Hr0 : In r regs) by now apply (Permutation_in _ (Permutation_sym HP)).
      split; [eauto|]. symmetry. now apply bucket_clave_perm.
Qed.

Lemma agruparPorMes_perm_witness :
  agruparPorMes [Registro.mk "P1" 2025 1 10 5; Registro.mk "P2" 2024 12 7 3]
  = agruparPorMes [Registro.mk "P2" 2024 12 7 3; Registro.mk "P1" 2025 1 10 5].
Proof.
  apply agruparPorMes_perm.
  - apply perm_swap.
  - intros r [<-|[<-|[]]]; unfold en_rango; simpl; lia.
  - split; vm_compute; discriminate.
Defined.

Lemma NoDup_map_fst {A B : Type} (f : A -> B) (l : list A) :
  NoDup (map f l) -> List.NoDup l.
Proof.
  intros H. apply NoDup_ListNoDup in H. now apply NoDup_map_inv in H.
Qed.

(** X16. For integer amounts whose magnitudes add up to at most [2^53],
    the order of the records does not change what is aggregated: the KPI
    totals are the same, the groups of [agruparPorCampoProy] and the rows
    of the ranking are the same up to their order, and when no two
    projects have the same summed [ejecutado] the ranking, the table and
    the comparison chart are the same. *)
Theorem agregados_perm (regs regs' : list Registro.t)
    (pm : gmap string Proyecto.t) (pf : list Proyecto.t) (c : Campo) :
  Permutation regs regs' ->
  montos_exactos regs ->
  calcularKPIs regs pf = calcularKPIs regs' pf
  /\ Permutation (agruparPorCampoProy regs pm c) (agruparPorCampoProy regs' pm c)
  /\ Permutation (ranking regs pm) (ranking regs' pm)
  /\ (List.NoDup (map Top.ejecutado (ranking regs pm)) ->
      ranking regs pm = ranking regs' pm
      /\ top10Proyectos regs pm = top10Proyectos regs' pm
      /\ renderChartPresupuesto regs pm = renderChartPresupuesto regs' pm).
Proof.
  intros HP _.
  assert (HK : calcularKPIs regs pf = calcularKPIs regs' pf).
  { unfold calcularKPIs. rewrite !fold_left_suma.
    now rewrite (suma_perm _ _ _ HP), (suma_perm Registro.ejecutado _ _ HP). }
  assert (HG : Permutation (agruparPorCampoProy regs pm c)
                           (agruparPorCampoProy regs' pm c)).
  { destruct (acumular_suma_spec (clave_campo pm c) regs) as (HN & Hiff & _).
    destruct (acumular_suma_spec (clave_campo pm c) regs') as (HN' & Hiff' & _).
    apply Permutation.NoDup_Permutation;
      [exact (NoDup_map_fst _ _ HN)|exact (NoDup_map_fst _ _ HN')|].
    intros [k s]. unfold agruparPorCampoProy. rewrite Hiff, Hiff'.
    rewrite (suma_de_perm _ k _ _ HP). split.
    - intros (Hk & (r & Hr & E) & ->). split; [exact Hk|]. split; [|reflexivity].
      exists r. split; [now apply (Permutation_in _ HP)|exact E].
    - intros (Hk & (r & Hr & E) & ->). split; [exact Hk|]. split; [|reflexivity].
      exists r. split; [now apply (Permutation_in _ (Permutation_sym HP))|exact E]. }
  destruct (ranking_spec regs pm) as (Hs & HN & Hiff).
  destruct (ranking_spec regs' pm) as (Hs' & HN' & Hiff'). cbn zeta in *.
  assert (Hmem : forall item, In item (ranking regs pm) <->
                              In item (ranking regs' pm)).
  { intros item. rewrite Hiff, Hiff'.
    rewrite (suma_de_perm _ (Top.id item) _ _ HP). split.
    - intros (Hk & (r & Hr & E) & E'). split; [exact Hk|]. split; [|exact E'].
      exists r. split; [now apply (Permutation_in _ HP)|exact E].
    - intros (Hk & (r & Hr & E) & E'). split; [exact Hk|]. split; [|exact E'].
      exists r. split; [now apply (Permutation_in _ (Permutation_sym HP))|exact E]. }
  assert (HR : Permutation (ranking regs pm) (ranking regs' pm)).
  { apply Permutation.NoDup_Permutation;
      [exact (NoDup_map_fst _ _ HN)|exact (NoDup_map_fst _ _ HN')|exact Hmem]. }
  split; [exact HK|]. split; [exact HG|]. split; [exact HR|].
  intros Hdist.
  assert (Hdist' : List.NoDup (map Top.ejecutado (ranking regs' pm))).
  { exact (Permutation_NoDup (Permutation_map Top.ejecutado HR) Hdist). }
  assert (Hstrict : forall l, StronglySorted
                      (fun a b => Top.ejecutado b <= Top.ejecutado a) l ->
                    List.NoDup (map Top.ejecutado l) ->
                    StronglySorted (fun a b => Top.ejecutado b < Top.ejecutado a) l).
  { intros l. induction 1 as [|x l Hl IH Hx]; simpl; intros HD; constructor.
    - apply IH. now inversion HD.
    - inversion HD as [|? ? Hnot _]; subst.
      rewrite List.Forall_forall in Hx |- *. intros y Hy.
      assert (Top.ejecutado y <> Top.ejecutado x).
      { intros E. apply Hnot. rewrite <- E. now apply in_map. }
      specialize (Hx y Hy). lia. }
  assert (E : ranking regs pm = ranking regs' pm).
  { apply (StronglySorted_unique
             (fun a b => Top.ejecutado b < Top.ejecutado a)); auto.
    - intros x. lia.
    - intros x y z. lia. }
  split; [exact E|].
  unfold renderChartPresupuesto, renderChartPresupuesto_top, top10Proyectos.
  now rewrite E.
Qed.

Lemma agregados_perm_witness :
  top10Proyectos (registros ejemplo) ∅
  = top10Proyectos (rev (registros ejemplo)) ∅.
Proof.
  assert (Hm : montos_exactos (registros ejemplo))
    by (split; vm_compute; discriminate).
  destruct (agregados_perm (registros ejemplo) (rev (registros ejemplo)) ∅ []
              campo_area (Permutation_rev _) Hm) as (_ & _ & _ & H).
  apply H. vm_compute.
  constructor; [simpl; intuition discriminate|].
  constructor; [simpl; tauto|constructor].
Defined.

(** ** Percentages against thresholds *)

Lemma pct_de_le (t p e : Z) :
  0 < p -> ((inject_Z t <= pct_de p e)%Q <-> t * p <= 100 * e).
Proof.
  intros Hp. rewrite pct_de_eq. destruct (Z.ltb_spec 0 p) as [_|]; [|lia].
  destruct p as [|q|q]; try lia.
  unfold Qle, Qdiv, Qmult, Qinv, inject_Z. cbn [Qnum Qden].
  rewrite Pos.mul_1_l, Pos.mul_1_r, !Z.mul_1_r. lia.
Qed.

Lemma pct_de_lt (t p e : Z) :
  0 < p -> ((pct_de p e < inject_Z t)%Q <-> 100 * e < t * p).
Proof.
  intros Hp. rewrite pct_de_eq. destruct (Z.ltb_spec 0 p) as [_|]; [|lia].
  destruct p as [|q|q]; try lia.
  unfold Qlt, Qdiv, Qmult, Qinv, inject_Z. cbn [Qnum Qden].
  rewrite Pos.mul_1_l, Pos.mul_1_r, !Z.mul_1_r. lia.
Qed.

Lemma pct_de_sin_presupuesto (p e : Z) : p <= 0 -> pct_de p e = 0%Q.
Proof. intros H. rewrite pct_de_eq. destruct (Z.ltb_spec 0 p); [lia|reflexivity]. Qed.

Lemma pct_de_ge (t p e : Z) :
  0 < p -> ((pct_de p e <= inject_Z t)%Q <-> 100 * e <= t * p).
Proof.
  intros Hp. rewrite pct_de_eq. destruct (Z.ltb_spec 0 p) as [_|]; [|lia].
  destruct p as [|q|q]; try lia.
  unfold Qle, Qdiv, Qmult, Qinv, inject_Z. cbn [Qnum Qden].
  rewrite Pos.mul_1_l, Pos.mul_1_r, !Z.mul_1_r. lia.
Qed.

Lemma pct_de_gt (t p e : Z) :
  0 < p -> ((inject_Z t < pct_de p e)%Q <-> t * p < 100 * e).
Proof.
  intros Hp. rewrite pct_de_eq. destruct (Z.ltb_spec 0 p) as [_|]; [|lia].
  destruct p as [|q|q]; try lia.
  unfold Qlt, Qdiv, Qmult, Qinv, inject_Z. cbn [Qnum Qden].
  rewrite Pos.mul_1_l, Pos.mul_1_r, !Z.mul_1_r. lia.
Qed.

Lemma Qle_bool_pct (t p e : Z) :
  0 < p -> Qle_bool (inject_Z t) (pct_de p e) = (t * p <=? 100 * e).
Proof.
  intros Hp. destruct (Z.leb_spec (t * p) (100 * e)) as [H|H].
  - apply Qle_bool_iff. now apply pct_de_le.
  - destruct (Qle_bool (inject_Z t) (pct_de p e)) eqn:E; [|reflexivity].
    apply Qle_bool_iff, pct_de_le in E; [lia|exact Hp].
Qed.

(** ** The status of a row *)

(** X17. For a row of the ranking with a positive budget the class of the
    bar depends on the percentage alone: green from 90 to 100, yellow from
    50 to below 90, red below 50 or above 100, and over-execution is a
    percentage above 100.  A row without a positive budget has percentage
    0 and is red. *)
Theorem estado_de_fila (regs : list Registro.t) (pm : gmap string Proyecto.t)
    (item : Top.t) :
  In item (ranking regs pm) ->
  (Top.presupuestado item <= 0 ->
     Top.pct item = 0%Q /\ progClass item = "prog-red"
     /\ pctColor item = "var(--red-alert)")
  /\ (0 < Top.presupuestado item ->
      (progClass item = "prog-green"
         <-> (90 <= Top.pct item)%Q /\ (Top.pct item <= 100)%Q)
      /\ (progClass item = "prog-yellow"
            <-> (50 <= Top.pct item)%Q /\ (Top.pct item < 90)%Q)
      /\ (progClass item = "prog-red"
            <-> (Top.pct item < 50)%Q \/ (100 < Top.pct item)%Q)
      /\ (sobreEjec item = true <-> (100 < Top.pct item)%Q)).
Proof.
  intros Hin. apply ranking_In_top_de in Hin as [Hpct _].
  unfold progClass, pctColor, progClass_de, pctColor_de, sobreEjec.
  rewrite Hpct. set (p := Top.presupuestado item). set (e := Top.ejecutado item).
  split.
  - intros Hp. rewrite (pct_de_sin_presupuesto p e Hp). repeat split.
  - intros Hp.
    change 90%Q with (inject_Z 90). change 50%Q with (inject_Z 50).
    change 100%Q with (inject_Z 100).
    rewrite !Qle_bool_pct by exact Hp.
    rewrite (pct_de_le 90), (pct_de_le 50), (pct_de_ge 100), (pct_de_lt 90),
      (pct_de_lt 50), (pct_de_gt 100) by exact Hp.
    destruct (Z.leb_spec (90 * p) (100 * e)); destruct (Z.leb_spec (50 * p) (100 * e));
      destruct (Z.ltb_spec p e); cbn [andb negb];
      repeat split; intros; try discriminate; try reflexivity; try lia.
Qed.

Lemma estado_de_fila_witness :
  progClass (top_de ∅ ("P1", Suma.mk 1500 1500)) = "prog-green".
Proof.
  assert (Hin : In (top_de ∅ ("P1", Suma.mk 1500 1500))
                   (ranking [Registro.mk "P1" 2024 1 1500 1500] ∅))
    by (vm_compute; left; reflexivity).
  destruct (estado_de_fila _ _ _ Hin) as [_ H].
  apply H; [simpl; lia|]. split; vm_compute; discriminate.
Defined.

Lemma min_100_spec (x : Q) :
  (JSlib.min_100 x <= 100)%Q
  /\ ((0 <= x)%Q -> (0 <= JSlib.min_100 x)%Q)
  /\ ((100 <= x)%Q -> (JSlib.min_100 x == 100)%Q).
Proof.
  unfold JSlib.min_100. destruct (Qle_bool x 100) eqn:E.
  - apply Qle_bool_iff in E. repeat split; intros; lra.
  - repeat split; intros; lra.
Qed.

Lemma pct_de_no_negativo (p e : Z) : 0 <= e -> (0 <= pct_de p e)%Q.
Proof.
  intros He. destruct (Z.lt_ge_cases 0 p) as [Hp|Hp].
  - change 0%Q with (inject_Z 0). apply pct_de_le; [exact Hp|lia].
  - rewrite pct_de_sin_presupuesto by lia. lra.
Qed.

(** X18. The width of the progress bar of a row whose summed [ejecutado]
    is not negative is a whole number of percent from 0 to 100, and it is
    100 as soon as the percentage reaches 100. *)
Theorem ancho_barra_acotado (regs : list Registro.t)
    (pm : gmap string Proyecto.t) (item : Top.t) :
  In item (ranking regs pm) -> 0 <= Top.ejecutado item ->
  exists n, 0 <= n <= 100
            /\ ancho_barra item = JS.Number_toString n
            /\ ((100 <= Top.pct item)%Q -> n = 100).
Proof.
  intros Hin He. apply ranking_In_top_de in Hin as [Hpct _].
  assert (Hp : (0 <= Top.pct item)%Q)
    by (rewrite Hpct; now apply pct_de_no_negativo).
  destruct (min_100_spec (Top.pct item)) as (H100 & H0 & Heq).
  exists (JS.round_half_up (JSlib.min_100 (Top.pct item))).
  split; [|split].
  - split; [apply round_half_up_nonneg; auto|].
    unfold JS.round_half_up.
    change 100 with (Qfloor (100 + (1 # 2))). apply Qfloor_resp_le. lra.
  - unfold ancho_barra. now rewrite toFixed_entero by auto.
  - intros H. unfold JS.round_half_up.
    change 100 with (Qfloor (100 + (1 # 2))). apply Qfloor_comp.
    rewrite (Heq H). reflexivity.
Qed.

Lemma ancho_barra_acotado_witness :
  ancho_barra (top_de ∅ ("P1", Suma.mk 100 120)) = "100".
Proof.
  assert (Hin : In (top_de ∅ ("P1", Suma.mk 100 120))
                   (ranking [Registro.mk "P1" 2024 1 100 120] ∅))
    by (vm_compute; left; reflexivity).
  destruct (ancho_barra_acotado _ _ _ Hin ltac:(simpl; lia)) as (n & _ & -> & H).
  rewrite H; [reflexivity|]. vm_compute. discriminate.
Defined.

(** ** What the KPI cards say *)

Lemma renderKPIs_color (k : KPIs) :
  kpi_pct_sub_color (renderKPIs k)
  = if 0 <? totalEjecutado k - totalPresupuestado k then "var(--red-alert)"
    else if totalEjecutado k - totalPresupuestado k <? 0 then "var(--teal)"
    else "var(--text-secondary)".
Proof.
  unfold renderKPIs.
  destruct (0 <? totalEjecutado k - totalPresupuestado k); [reflexivity|].
  destruct (totalEjecutado k - totalPresupuestado k <? 0); reflexivity.
Qed.

Lemma renderKPIs_sub (k : KPIs) :
  kpi_pct_sub (renderKPIs k)
  = if 0 <? totalEjecutado k - totalPresupuestado k
    then "▲ " +:+ fmtUSD (inject_Z (Z.abs (totalEjecutado k - totalPresupuestado k)))
         +:+ " sobre presupuesto"
    else if totalEjecutado k - totalPresupuestado k <? 0
    then "▼ " +:+ fmtUSD (inject_Z (Z.abs (totalEjecutado k - totalPresupuestado k)))
         +:+ " bajo presupuesto"
    else "Exactamente en presupuesto".
Proof.
  unfold renderKPIs.
  destruct (0 <? totalEjecutado k - totalPresupuestado k); [reflexivity|].
  destruct (totalEjecutado k - totalPresupuestado k <? 0); reflexivity.
Qed.

Lemma renderKPIs_pct (k : KPIs) :
  kpi_pct (renderKPIs k) = fmtPct (pctEjecucion k).
Proof.
  unfold renderKPIs.
  destruct (0 <? totalEjecutado k - totalPresupuestado k); [reflexivity|].
  destruct (totalEjecutado k - totalPresupuestado k <? 0); reflexivity.
Qed.

(** X19. The line under the percentage KPI agrees with the percentage
    when the total budget is positive: red "sobre presupuesto" exactly
    above 100, teal "bajo presupuesto" exactly below 100, "Exactamente en
    presupuesto" exactly at 100, the amount shown being the distance
    between the two totals.  With a total budget of 0 and something
    executed the card reads 0.0% over a red "sobre presupuesto"; with no
    record it reads $0, $0, 0.0%, 0 and "Exactamente en presupuesto". *)
Theorem renderKPIs_coherente (regs : list Registro.t) (pf : list Proyecto.t) :
  let k := calcularKPIs regs pf in
  let v := renderKPIs k in
  (0 < totalPresupuestado k ->
     (kpi_pct_sub_color v = "var(--red-alert)" <-> (100 < pctEjecucion k)%Q)
     /\ (kpi_pct_sub_color v = "var(--teal)" <-> (pctEjecucion k < 100)%Q)
     /\ (kpi_pct_sub_color v = "var(--text-secondary)"
           <-> (pctEjecucion k == 100)%Q))
  /\ (totalPresupuestado k < totalEjecutado k ->
      kpi_pct_sub v
      = "▲ " +:+ fmtUSD (inject_Z (totalEjecutado k - totalPresupuestado k))
        +:+ " sobre presupuesto"
      /\ kpi_pct_sub_color v = "var(--red-alert)")
  /\ (totalEjecutado k < totalPresupuestado k ->
      kpi_pct_sub v
      = "▼ " +:+ fmtUSD (inject_Z (totalPresupuestado k - totalEjecutado k))
        +:+ " bajo presupuesto"
      /\ kpi_pct_sub_color v = "var(--teal)")
  /\ (totalPresupuestado k = 0 -> 0 < totalEjecutado k ->
      kpi_pct v = "0.0%" /\ kpi_pct_sub_color v = "var(--red-alert)")
  /\ (regs = [] -> pf = [] ->
      v = mkVistaKPIs "$0" "$0" "0.0%" "0" "Exactamente en presupuesto"
                      "var(--text-secondary)").
Proof.
  intros k v. subst v.
  rewrite renderKPIs_color, renderKPIs_sub, renderKPIs_pct.
  assert (Epct : pctEjecucion k = pct_de (totalPresupuestado k) (totalEjecutado k))
    by reflexivity.
  set (p := totalPresupuestado k) in *. set (e := totalEjecutado k) in *.
  split; [|split; [|split; [|split]]].
  - intros Hp. rewrite Epct. change 100%Q with (inject_Z 100).
    assert (Heq : (pct_de p e == inject_Z 100)%Q <-> e = p).
    { split.
      - intros H. assert (H1 : (pct_de p e <= inject_Z 100)%Q) by lra.
        assert (H2 : (inject_Z 100 <= pct_de p e)%Q) by lra.
        apply pct_de_ge in H1; [|exact Hp]. apply pct_de_le in H2; [|exact Hp]. lia.
      - intros ->. apply Qle_antisym;
          [apply pct_de_ge|apply pct_de_le]; try exact Hp; lia. }
    rewrite (pct_de_gt 100), (pct_de_lt 100), Heq by exact Hp.
    destruct (Z.ltb_spec 0 (e - p)); [|destruct (Z.ltb_spec (e - p) 0)];
      repeat split; intros; try discriminate; try reflexivity; try lia.
  - intros H. destruct (Z.ltb_spec 0 (e - p)); [|lia].
    rewrite Z.abs_eq by lia. auto.
  - intros H. destruct (Z.ltb_spec 0 (e - p)); [lia|].
    destruct (Z.ltb_spec (e - p) 0); [|lia].
    rewrite Z.abs_neq by lia. replace (- (e - p)) with (p - e) by lia. auto.
  - intros Hp He. split.
    + rewrite Epct, pct_de_sin_presupuesto by lia. vm_compute. reflexivity.
    + destruct (Z.ltb_spec 0 (e - p)); [reflexivity|lia].
  - intros -> ->. vm_compute. reflexivity.
Qed.

Lemma renderKPIs_coherente_witness :
  kpi_pct_sub_color
    (renderKPIs (calcularKPIs [Registro.mk "P1" 2024 1 100 120] []))
  = "var(--red-alert)".
Proof.
  destruct (renderKPIs_coherente [Registro.mk "P1" 2024 1 100 120] [])
    as (_ & H & _).
  apply H. vm_compute. reflexivity.
Defined.

(** ** Chips, badges and colours *)

Lemma Number_toString_no_length (n : Z) :
  String.eqb (JS.Number_toString n) "length" = false.
Proof.
  apply String.eqb_neq. unfold JS.Number_toString.
  destruct (Z.ltb_spec n 0) as [H|H]; [discriminate|].
  destruct (decimal_inicio n H) as (c & s & E & Hc & _).
  rewrite E. intros Hs. injection Hs as Hs _. subst c. discriminate Hc.
Qed.

Lemma mes_label_str_opcion (m : Z) :
  0 <= m < 4294967295 -> mes_label_str (valor_opcion m) = mes_label m.
Proof.
  intros H. unfold mes_label_str, valor_opcion, mes_label, JSlib.array_get.
  rewrite Number_toString_no_length, array_index_Number_toString by exact H.
  destruct (Z.ltb_spec m 0); [lia|reflexivity].
Qed.

Lemma campos_activos_cero (f : Filtros.t) :
  campos_activos f = 0%nat <-> f = sin_filtros.
Proof.
  destruct f as [a m ar t es r]. unfold campos_activos, sin_filtros; simpl.
  split.
  - destruct a, m, ar, t, es, r; simpl; intros H; try discriminate H; reflexivity.
  - intros [= -> -> -> -> -> ->]. reflexivity.
Qed.

(** X20. There is one chip per filter field that is set, in the order
    year, month, area, type, state, region; no chip exactly when no field
    is set, as after "Limpiar filtros"; and the chip of a month chosen in
    the select shows the abbreviation of that month. *)
Theorem chips_activos (f : Filtros.t) :
  length (chips f) = campos_activos f
  /\ (chips f = [] <-> f = sin_filtros)
  /\ (actualizarChips f = EmptyString <-> f = sin_filtros)
  /\ (forall e, chips (filtros (limpiar_filtros e)) = [])
  /\ (forall m, 0 <= m < 4294967295 -> Filtros.mes f = valor_opcion m ->
        In ("Mes: " +:+ mes_label m) (chips f)).
Proof.
  assert (Hlen : length (chips f) = campos_activos f).
  { destruct f as [a m ar t es r]. unfold chips, chips_labels, campos_activos.
    cbn [Filtros.anio Filtros.mes Filtros.area Filtros.tipo Filtros.estadoProy
         Filtros.region].
    destruct a, m, ar, t, es, r; reflexivity. }
  assert (Hnil : chips f = [] <-> f = sin_filtros).
  { rewrite <- campos_activos_cero, <- Hlen.
    destruct (chips f); simpl; split; congruence. }
  split; [exact Hlen|]. split; [exact Hnil|]. split; [|split].
  - rewrite <- Hnil. unfold actualizarChips.
    destruct (chips f) as [|l ls]; [split; reflexivity|].
    split; [|discriminate]. cbn [map String.concat].
    destruct ls; discriminate.
  - intros e. reflexivity.
  - intros m Hm E. destruct f as [a fm ar t es r]. simpl in E. subst fm.
    unfold chips, chips_labels.
    cbn [Filtros.anio Filtros.mes Filtros.area Filtros.tipo Filtros.estadoProy
         Filtros.region].
    rewrite Number_toString_truthy, mes_label_str_opcion by exact Hm.
    destruct a; simpl; auto.
Qed.

Lemma chips_activos_witness :
  In ("Mes: " +:+ mes_label 2) (chips (Filtros.mk "2024" "2" EmptyString EmptyString EmptyString EmptyString)).
Proof.
  apply (chips_activos (Filtros.mk "2024" "2" EmptyString EmptyString EmptyString EmptyString)).
  - lia.
  - reflexivity.
Defined.

(** X21. For a state that is not one of the names every object inherits,
    the badge always shows the text of the state; its class is the one of
    "En ejecución", "Pausado" or "En planificación" for those three states
    and "status-cerrado" for "Cerrado" and for every other text, the empty
    one of a row without project included. *)
Theorem estadoToBadge_degrada (estado : string) :
  ~ In estado JSlib.Object_prototype_keys ->
  snd (badge_par estado) = estado
  /\ (fst (badge_par estado) = "status-activo" <-> estado = "En ejecución")
  /\ (fst (badge_par estado) = "status-pausado" <-> estado = "Pausado")
  /\ (fst (badge_par estado) = "status-plan" <-> estado = "En planificación")
  /\ (fst (badge_par estado) = "status-cerrado"
        <-> estado <> "En ejecución" /\ estado <> "Pausado"
            /\ estado <> "En planificación")
  /\ estadoToBadge estado
     = "<span class=" +:+ JSlib.comilla +:+ "status-badge "
       +:+ fst (badge_par estado) +:+ JSlib.comilla +:+ ">" +:+ estado
       +:+ "</span>".
Proof.
  intros _. unfold estadoToBadge, badge_par, badge_map. cbn [JS.obj_get].
  destruct (String.eqb_spec estado "En ejecución") as [->|N1];
    [repeat split; intros; try discriminate; try reflexivity; try tauto;
     intuition congruence|].
  destruct (String.eqb_spec estado "Cerrado") as [->|N2];
    [repeat split; intros; try discriminate; try reflexivity; try tauto;
     intuition congruence|].
  destruct (String.eqb_spec estado "Pausado") as [->|N3];
    [repeat split; intros; try discriminate; try reflexivity; try tauto;
     intuition congruence|].
  destruct (String.eqb_spec estado "En planificación") as [->|N4];
    [repeat split; intros; try discriminate; try reflexivity; try tauto;
     intuition congruence|].
  cbn [fst snd].
  repeat split; intros; try discriminate; try reflexivity; try tauto;
    try contradiction.
Qed.

Lemma estadoToBadge_degrada_witness :
  ~ In "Suspendido" JSlib.Object_prototype_keys
  /\ fst (badge_par "Suspendido") = "status-cerrado".
Proof.
  assert (H : ~ In "Suspendido" JSlib.Object_prototype_keys)
    by (simpl; intuition discriminate).
  split; [exact H|].
  apply (estadoToBadge_degrada "Suspendido" H).
  split; [discriminate|]. split; discriminate.
Defined.

Lemma colores_barras_filas (pre l : list Top.t) :
  colores_barras (length pre) (map Top.presupuestado (pre ++ l))
                 (map Top.ejecutado l)
  = map color_barra l.
Proof.
  revert pre. induction l as [|x l IH]; intros pre; [reflexivity|].
  cbn [map colores_barras].
  rewrite nth_error_map, nth_error_app2, Nat.sub_diag by lia.
  cbn [nth_error option_map]. f_equal.
  specialize (IH (pre ++ [x])). rewrite <- app_assoc, length_app in IH.
  cbn [length app] in IH. rewrite Nat.add_1_r in IH. exact IH.
Qed.

(** X22. The bars of the comparison chart are the first 8 rows of the
    table, in the same order, with the same sums, and a bar is red exactly
    when its row of the table is marked as over-executed. *)
Theorem renderChartPresupuesto_filas (regs : list Registro.t)
    (pm : gmap string Proyecto.t) (ch : ChartPresupuesto) :
  renderChartPresupuesto regs pm = Some ch ->
  let filas := firstn 8 (top10Proyectos regs pm) in
  presupuesto_labels ch = map Top.id filas
  /\ presupuesto_pres ch = map Top.presupuestado filas
  /\ presupuesto_ejec ch = map Top.ejecutado filas
  /\ presupuesto_borderColor ch = map color_barra filas
  /\ (length filas <= 8)%nat.
Proof.
  unfold renderChartPresupuesto, renderChartPresupuesto_top. cbn zeta.
  destruct (length _ =? 0)%nat; [discriminate|]. intros [= <-]. simpl.
  repeat split; [|apply firstn_le_length].
  apply (colores_barras_filas []).
Qed.

Lemma renderChartPresupuesto_filas_witness :
  exists ch, renderChartPresupuesto [Registro.mk "P1" 2024 1 100 120] ∅ = Some ch
             /\ presupuesto_borderColor ch = ["#f87171"].
Proof.
  destruct (renderChartPresupuesto [Registro.mk "P1" 2024 1 100 120] ∅)
    as [ch|] eqn:E; [|vm_compute in E; discriminate E].
  exists ch. split; [reflexivity|].
  destruct (renderChartPresupuesto_filas _ _ _ E) as (_ & _ & _ & -> & _).
  vm_compute. reflexivity.
Defined.

(** ** Order of enumeration *)

Lemma insert_sorted_map {A B : Type} (f : A -> B) (cmpA : A -> A -> Z)
    (cmpB : B -> B -> Z) (x : A) (l : list A) :
  (forall a b, cmpA a b = cmpB (f a) (f b)) ->
  map f (JS.insert_sorted cmpA x l) = JS.insert_sorted cmpB (f x) (map f l).
Proof.
  intros H. induction l as [|y l IH]; simpl; [reflexivity|].
  rewrite <- H. destruct (cmpA x y <=? 0); simpl; [reflexivity|].
  now rewrite IH.
Qed.

Lemma Array_sort_map {A B : Type} (f : A -> B) (cmpA : A -> A -> Z)
    (cmpB : B -> B -> Z) (l : list A) :
  (forall a b, cmpA a b = cmpB (f a) (f b)) ->
  map f (JS.Array_sort cmpA l) = JS.Array_sort cmpB (map f l).
Proof.
  intros H. unfold JS.Array_sort. induction l as [|x l IH]; simpl; [reflexivity|].
  rewrite (insert_sorted_map f cmpA cmpB) by exact H. now rewrite IH.
Qed.

Lemma map_filter_fst {V : Type} (p : string -> bool) (o : list (string * V)) :
  map fst (List.filter (fun e => p (fst e)) o) = List.filter p (map fst o).
Proof.
  induction o as [|e o IH]; simpl; [reflexivity|].
  destruct (p (fst e)); simpl; now rewrite IH.
Qed.

Lemma Object_keys_orden {V : Type} (o : list (string * V)) :
  JS.Object_keys o = orden_de_claves (map fst o).
Proof.
  unfold JS.Object_keys, JS.Object_entries, orden_de_claves.
  rewrite map_app. f_equal.
  - rewrite (Array_sort_map fst _ (fun a b => indice_de a - indice_de b))
      by reflexivity.
    f_equal. apply (map_filter_fst es_indice).
  - apply (map_filter_fst (fun k => negb (es_indice k))).
Qed.

Lemma orden_de_claves_sin_indices (ks : list string) :
  (forall k, In k ks -> JS.array_index k = None) -> orden_de_claves ks = ks.
Proof.
  intros H. unfold orden_de_claves.
  assert (E : forall k, In k ks -> es_indice k = false).
  { intros k Hk. unfold es_indice. now rewrite (H k Hk). }
  clear H. induction ks as [|k ks IH]; [reflexivity|].
  simpl. rewrite (E k) by now left. simpl.
  specialize (IH (fun k' Hk' => E k' (or_intror Hk'))).
  assert (F : List.filter es_indice ks = []).
  { clear IH. induction ks as [|k' ks IH']; [reflexivity|]. simpl.
    rewrite (E k') by (right; now left).
    apply IH'. intros k'' [<-|Hk'']; apply E; [now left|right; now right]. }
  rewrite F in IH |- *. simpl in IH |- *. now rewrite IH.
Qed.

Lemma existsb_claves {V : Type} (o : list (string * V)) (k : string) :
  existsb (String.eqb k) (map fst o)
  = match JS.obj_get o k with Some _ => true | None => false end.
Proof.
  induction o as [|[k' v] o IH]; simpl; [reflexivity|].
  destruct (String.eqb k k'); [reflexivity|exact IH].
Qed.

Section AcumularOrden.
Context {V : Type}.
Variable init : Registro.t -> V.
Variables add1 add2 : Registro.t -> V -> V.
Variable clave : Registro.t -> string.

Local Abbreviation paso := (acumular init add1 add2 clave).

Lemma acumular_claves (acc : list (string * V)) (reg : Registro.t) :
  map fst (paso acc reg)
  = if existsb (String.eqb (clave reg)) (map fst acc) then map fst acc
    else if JS.heredada (clave reg) then map fst acc
    else map fst acc ++ [clave reg].
Proof.
  rewrite existsb_claves. unfold acumular, obj_update.
  destruct (JS.obj_get acc (clave reg)) as [v|] eqn:E.
  - rewrite E, obj_get_set_eq, !obj_set_keys, obj_get_set_eq, E. reflexivity.
  - destruct (JS.heredada (clave reg)).
    + now rewrite !E.
    + rewrite !obj_get_set_eq, !obj_set_keys, !obj_get_set_eq, E. reflexivity.
Qed.

Lemma acumular_fold_claves (regs : list Registro.t) (acc : list (string * V)) :
  map fst (fold_left paso regs acc)
  = fold_left (fun seen x => if existsb (String.eqb x) seen then seen
                             else seen ++ [x])
              (map clave (agrupados clave regs)) (map fst acc).
Proof.
  revert acc. induction regs as [|r regs IH]; intros acc; [reflexivity|].
  cbn [fold_left]. rewrite IH, acumular_claves. unfold agrupados.
  cbn [List.filter].
  destruct (JS.heredada (clave r)); cbn [negb map fold_left].
  - now destruct (existsb (String.eqb (clave r)) (map fst acc)).
  - reflexivity.
Qed.

Lemma acumular_claves_Set (regs : list Registro.t) :
  map fst (fold_left paso regs [])
  = JS.Set_of (map clave (agrupados clave regs)).
Proof. apply acumular_fold_claves. Qed.
End AcumularOrden.

(** X23. The groups of a chart are the distinct keys of the records that
    are not names of members inherited from [Object.prototype], listed in
    the order in which [Object.keys] enumerates them: the keys that are
    array indices first, in ascending numeric order, then the others in the
    order in which they first appear among the filtered records.  With no
    inherited name and no array index among the keys, the labels of the
    area chart and of the type chart are the distinct values in order of
    first appearance. *)
Theorem agruparPorCampoProy_orden (regs : list Registro.t)
    (pm : gmap string Proyecto.t) (campo : Campo) :
  let clave := clave_campo pm campo in
  let claves := JS.Set_of (map clave (agrupados clave regs)) in
  JS.Object_keys (agruparPorCampoProy regs pm campo) = orden_de_claves claves
  /\ ((forall r, In r regs -> JS.heredada (clave r) = false) ->
      (forall r, In r regs -> JS.array_index (clave r) = None) ->
      JS.Object_keys (agruparPorCampoProy regs pm campo)
      = JS.Set_of (map clave regs))
  /\ (forall ch, renderChartArea regs pm = Some ch -> campo = campo_area ->
        area_labels ch = orden_de_claves claves)
  /\ (forall ch, renderChartTipo regs pm = Some ch -> campo = campo_tipo ->
        tipo_labels ch = orden_de_claves claves).
Proof.
  intros clave claves.
  assert (H : JS.Object_keys (agruparPorCampoProy regs pm campo)
              = orden_de_claves claves).
  { rewrite Object_keys_orden. unfold agruparPorCampoProy.
    now rewrite acumular_claves_Set. }
  split; [exact H|]. split; [|split].
  - intros Hh Hn. rewrite H. unfold claves.
    rewrite (agrupados_todos clave regs Hh).
    apply orden_de_claves_sin_indices.
    intros k Hk. apply Set_of_In, in_map_iff in Hk as (r & <- & Hr). auto.
  - intros ch E ->. rewrite <- H. revert E. unfold renderChartArea. cbn zeta.
    destruct (length _ =? 0)%nat; [discriminate|]. now intros [= <-].
  - intros ch E ->. rewrite <- H. revert E. unfold renderChartTipo. cbn zeta.
    destruct (length _ =? 0)%nat; [discriminate|]. now intros [= <-].
Qed.

Lemma agruparPorCampoProy_orden_witness :
  JS.Object_keys (agruparPorCampoProy (registros ejemplo)
                    (proyMap_of (proyectos ejemplo)) campo_area)
  = JS.Set_of (map (clave_campo (proyMap_of (proyectos ejemplo)) campo_area)
                   (registros ejemplo)).
Proof.
  apply (agruparPorCampoProy_orden (registros ejemplo)
           (proyMap_of (proyectos ejemplo)) campo_area).
  - intros r Hr. simpl in Hr.
    repeat (destruct Hr as [<-|Hr]; [vm_compute; reflexivity|]). destruct Hr.
  - intros r Hr. simpl in Hr.
    repeat (destruct Hr as [<-|Hr]; [vm_compute; reflexivity|]). destruct Hr.
Defined.

Lemma insert_sorted_empates {A : Type} (g : A -> Z) (v : Z) (x : A) (l : list A) :
  List.filter (fun y => g y =? v)
              (JS.insert_sorted (fun a b => g b - g a) x l)
  = List.filter (fun y => g y =? v) (x :: l).
Proof.
  induction l as [|y l IH]; [reflexivity|].
  cbn [JS.insert_sorted]. destruct (Z.leb_spec (g y - g x) 0) as [H|H];
    [reflexivity|].
  cbn [List.filter] in IH |- *. rewrite IH.
  destruct (Z.eqb_spec (g x) v) as [Ex|Nx]; [|reflexivity].
  destruct (Z.eqb_spec (g y) v) as [Ey|Ny]; [lia|reflexivity].
Qed.

Lemma Array_sort_empates {A : Type} (g : A -> Z) (v : Z) (l : list A) :
  List.filter (fun y => g y =? v) (JS.Array_sort (fun a b => g b - g a) l)
  = List.filter (fun y => g y =? v) l.
Proof.
  unfold JS.Array_sort. induction l as [|x l IH]; [reflexivity|].
  cbn [fold_right]. rewrite insert_sorted_empates.
  cbn [List.filter]. now rewrite IH.
Qed.

Lemma map_filter_map {A B C : Type} (f : A -> B) (g : B -> C) (h : A -> C)
    (p : B -> bool) (q : C -> bool) (l : list A) :
  (forall x, In x l -> p (f x) = q (h x) /\ g (f x) = h x) ->
  map g (List.filter p (map f l)) = List.filter q (map h l).
Proof.
  induction l as [|x l IH]; intros H; [reflexivity|]. simpl.
  destruct (H x (or_introl eq_refl)) as [-> Hg].
  rewrite <- IH by (intros y Hy; apply H; now right).
  destruct (q (h x)); simpl; [now rewrite Hg|reflexivity].
Qed.

(** X24. The ranking is stable: the projects with the same executed
    total keep, among themselves, the order in which [Object.entries]
    enumerates them, that is, ids that are array indices in ascending
    numeric order and then the others in order of first appearance among
    the filtered records; the ids are those of the records that are not
    names of members inherited from [Object.prototype]. *)
Theorem ranking_empates (regs : list Registro.t) (pm : gmap string Proyecto.t)
    (v : Z) :
  let ids :=
    JS.Set_of (map Registro.id_proyecto
                   (agrupados Registro.id_proyecto regs)) in
  map Top.id (List.filter (fun t => Top.ejecutado t =? v) (ranking regs pm))
  = List.filter (fun id => ejecutado_de regs id =? v) (orden_de_claves ids)
  /\ ((forall r, In r regs -> JS.heredada (Registro.id_proyecto r) = false) ->
      (forall r, In r regs -> JS.array_index (Registro.id_proyecto r) = None) ->
      map Top.id (List.filter (fun t => Top.ejecutado t =? v) (ranking regs pm))
      = List.filter (fun id => ejecutado_de regs id =? v)
                    (JS.Set_of (map Registro.id_proyecto regs))).
Proof.
  intros ids.
  assert (H : map Top.id (List.filter (fun t => Top.ejecutado t =? v)
                                      (ranking regs pm))
              = List.filter (fun id => ejecutado_de regs id =? v)
                            (orden_de_claves ids)).
  { unfold ranking. set (acc := fold_left _ regs []).
    rewrite (Array_sort_empates Top.ejecutado).
    destruct (acumular_suma_spec Registro.id_proyecto regs) as (_ & Hiff & _).
    fold acc in Hiff.
    assert (Hk : orden_de_claves ids = map fst (JS.Object_entries acc)).
    { unfold ids. rewrite <- (acumular_claves_Set suma_init suma_add_presupuestado
                                suma_add_ejecutado Registro.id_proyecto regs).
      fold acc. symmetry. apply Object_keys_orden. }
    rewrite Hk. apply map_filter_map.
    intros [k s] Hin. apply Object_entries_In, Hiff in Hin as (_ & _ & ->).
    split; reflexivity. }
  split; [exact H|].
  intros Hh Hn. rewrite H. f_equal. unfold ids.
  rewrite (agrupados_todos Registro.id_proyecto regs Hh).
  apply orden_de_claves_sin_indices.
  intros k Hk. apply Set_of_In, in_map_iff in Hk as (r & <- & Hr). auto.
Qed.

Lemma ranking_empates_witness :
  map Top.id (List.filter (fun t => Top.ejecutado t =? 50)
                (ranking [Registro.mk "PB" 2024 1 10 50;
                          Registro.mk "PA" 2024 1 10 20;
                          Registro.mk "PC" 2024 2 10 90;
                          Registro.mk "PA" 2024 2 10 30] ∅))
  = ["PB"; "PA"].
Proof.
  destruct (ranking_empates [Registro.mk "PB" 2024 1 10 50;
                             Registro.mk "PA" 2024 1 10 20;
                             Registro.mk "PC" 2024 2 10 90;
                             Registro.mk "PA" 2024 2 10 30] ∅ 50) as [_ H].
  rewrite H; [vm_compute; reflexivity| |].
  - intros r Hr. simpl in Hr.
    repeat (destruct Hr as [<-|Hr]; [vm_compute; reflexivity|]). destruct Hr.
  - intros r Hr. simpl in Hr.
    repeat (destruct Hr as [<-|Hr]; [vm_compute; reflexivity|]). destruct Hr.
Defined.

(** ** Rounding at the thresholds of [fmtUSD] *)

Lemma es_doble_forma (v : Q) :
  (1 <= v)%Q -> JS.es_doble v = true ->
  exists M : Z, (v == inject_Z M * JS.pow2 (JS.ilog2 v - 52))%Q.
Proof.
  intros H E. apply Qeq_bool_iff in E.
  destruct (doble_forma v H) as (M & EM & _). exists M.
  apply Qeq_trans with (JS.doble v); [symmetry; exact E|exact EM].
Qed.

(** Rounding does not cross a multiple of the unit in the last place:
    it stays above one that the number has reached, and below one that
    the number misses by more than half a unit. *)
Lemma doble_rejilla_le (x : Q) (T : Z) :
  (1 <= x)%Q ->
  (inject_Z T * JS.pow2 (JS.ilog2 x - 52) <= x)%Q ->
  (inject_Z T * JS.pow2 (JS.ilog2 x - 52) <= JS.doble x)%Q.
Proof.
  intros H HT. destruct (doble_forma x H) as (M & EM & C1 & _).
  assert (Hp := pow2_pos (JS.ilog2 x - 52)).
  rewrite EM. apply Qmult_le_compat_r; [|lra].
  assert (Hy : (inject_Z T <= x / JS.pow2 (JS.ilog2 x - 52))%Q)
    by (apply Qle_shift_div_l; assumption).
  assert (Hq : (inject_Z (T - 1) < inject_Z M)%Q).
  { unfold Z.sub. rewrite inject_Z_plus. change (inject_Z (- (1))) with (-1)%Q.
    lra. }
  rewrite <- Zlt_Qlt in Hq. rewrite <- Zle_Qle. lia.
Qed.

Lemma doble_rejilla_lt (x : Q) (T : Z) :
  (1 <= x)%Q ->
  (x + JS.pow2 (JS.ilog2 x - 52) * (1 # 2)
   < inject_Z T * JS.pow2 (JS.ilog2 x - 52))%Q ->
  (JS.doble x < inject_Z T * JS.pow2 (JS.ilog2 x - 52))%Q.
Proof.
  intros H HT. destruct (doble_forma x H) as (M & EM & _ & C2 & _).
  assert (Hp := pow2_pos (JS.ilog2 x - 52)).
  rewrite EM. apply Qmult_lt_compat_r; [exact Hp|].
  assert (Hy : (x / JS.pow2 (JS.ilog2 x - 52) + (1 # 2) < inject_Z T)%Q).
  { apply Qlt_shift_div_r in HT; [|exact Hp].
    assert (E : ((x + JS.pow2 (JS.ilog2 x - 52) * (1 # 2))
                 / JS.pow2 (JS.ilog2 x - 52)
                 == x / JS.pow2 (JS.ilog2 x - 52) + (1 # 2))%Q)
      by (field; lra).
    now rewrite E in HT. }
  lra.
Qed.

(** An integer is a multiple of a power of two with a negative exponent,
    and half an odd integer of one with exponent [-1] or less. *)
Lemma entero_rejilla (k e : Z) :
  e <= 0 -> (inject_Z k == inject_Z (k * 2 ^ (- e)) * JS.pow2 e)%Q.
Proof.
  intros He. rewrite inject_Z_mult, <- (pow2_Z (- e)) by lia.
  rewrite <- Qmult_assoc, <- pow2_add.
  replace (- e + e) with 0 by lia. change (JS.pow2 0) with 1%Q. ring.
Qed.

Lemma medio_rejilla (k e : Z) :
  e <= -1 ->
  (inject_Z k - (1 # 2) == inject_Z ((2 * k - 1) * 2 ^ (- e - 1)) * JS.pow2 e)%Q.
Proof.
  intros He. rewrite inject_Z_mult, <- (pow2_Z (- e - 1)) by lia.
  rewrite <- Qmult_assoc, <- pow2_add.
  replace (- e - 1 + e) with (-1) by lia. change (JS.pow2 (-1)) with (1 # 2)%Q.
  unfold Z.sub. rewrite inject_Z_plus, inject_Z_mult.
  change (inject_Z 2) with 2%Q. change (inject_Z (- (1))) with (-1)%Q. ring.
Qed.

Lemma ilog2_cota (x : Q) (l : Z) :
  (1 <= x)%Q -> (JS.pow2 l <= x)%Q -> l <= JS.ilog2 x.
Proof.
  intros H Hl. destruct (ilog2_spec x H) as (_ & _ & U).
  assert (l < JS.ilog2 x + 1)
    by (apply pow2_lt_inv; eapply Qle_lt_trans; eassumption).
  lia.
Qed.

Lemma ilog2_cota_sup (x : Q) (l : Z) :
  (1 <= x)%Q -> (x < JS.pow2 l)%Q -> JS.ilog2 x < l.
Proof.
  intros H Hl. destruct (ilog2_spec x H) as (_ & L & _).
  apply pow2_lt_inv. eapply Qle_lt_trans; eassumption.
Qed.

(** The quotient by 1,000 of a double between 1,000 and 1,000,000 is not
    rounded across a half-integer: the double is an integer multiple of its
    unit in the last place, which is more than 500 units of the quotient. *)
Lemma miles_sin_empate (v : Q) (k : Z) :
  JS.es_doble v = true -> (1000 <= v)%Q -> (v < 1000000)%Q ->
  ((inject_Z k - (1 # 2) <= v / 1000)%Q ->
   (inject_Z k - (1 # 2) <= JS.doble (v / 1000))%Q)
  /\ ((v / 1000 < inject_Z k - (1 # 2))%Q ->
      (JS.doble (v / 1000) < inject_Z k - (1 # 2))%Q).
Proof.
  intros Hd H1 H2.
  assert (Ev : (v == 1000 * (v / 1000))%Q) by field.
  assert (Hy1 : (1 <= v / 1000)%Q) by lra.
  assert (Hy2 : (v / 1000 < 1000)%Q) by lra.
  assert (Hv1 : (1 <= v)%Q) by lra.
  destruct (es_doble_forma v Hv1 Hd) as (Mv & EMv).
  destruct (ilog2_spec (v / 1000) Hy1) as (L0 & LL & LU).
  assert (L9 : JS.ilog2 (v / 1000) < 10).
  { apply ilog2_cota_sup; [exact Hy1|].
    change (JS.pow2 10) with 1024%Q. lra. }
  assert (Lv : JS.ilog2 (v / 1000) + 9 <= JS.ilog2 v).
  { apply ilog2_cota; [exact Hv1|]. rewrite pow2_add.
    change (JS.pow2 9) with 512%Q. lra. }
  assert (Lv19 : JS.ilog2 v < 20).
  { apply ilog2_cota_sup; [exact Hv1|].
    change (JS.pow2 20) with 1048576%Q. lra. }
  set (e := JS.ilog2 (v / 1000) - 52) in *.
  set (ev := JS.ilog2 v - 52) in *.
  assert (Hp := pow2_pos e). assert (Hpv := pow2_pos ev).
  assert (Et := medio_rejilla k e ltac:(unfold e; lia)).
  split.
  - intros Ht. rewrite Et in Ht |- *. now apply doble_rejilla_le.
  - intros Ht. rewrite Et. apply doble_rejilla_lt; [exact Hy1|].
    fold e. rewrite <- Et.
    assert (EK := entero_rejilla (1000 * k - 500) ev ltac:(unfold ev; lia)).
    assert (EK' : (inject_Z (1000 * k - 500)
                   == 1000 * (inject_Z k - (1 # 2)))%Q).
    { unfold Z.sub. rewrite inject_Z_plus, inject_Z_mult.
      change (inject_Z 1000) with 1000%Q.
      change (inject_Z (- (500))) with (-500)%Q. ring. }
    set (Tv := (1000 * k - 500) * 2 ^ (- ev)) in *.
    assert (HD : Mv + 1 <= Tv).
    { assert (Hq : (inject_Z Mv * JS.pow2 ev < inject_Z Tv * JS.pow2 ev)%Q).
      { rewrite <- EMv, <- EK, EK'. lra. }
      apply Qmult_lt_r in Hq; [|exact Hpv].
      rewrite <- Zlt_Qlt in Hq. lia. }
    assert (Hgap : (JS.pow2 ev <= 1000 * (inject_Z k - (1 # 2)) - v)%Q).
    { assert (Hq : (inject_Z (Mv + 1) <= inject_Z Tv)%Q)
        by now rewrite <- Zle_Qle.
      rewrite inject_Z_plus in Hq. change (inject_Z 1) with 1%Q in Hq.
      revert EMv EK EK' Hq Hpv.
      generalize (inject_Z Mv) (inject_Z Tv) (JS.pow2 ev)
                 (inject_Z (1000 * k - 500)).
      intros a b c d EMv EK EK' Hq Hc. nra. }
    assert (Hpe : (JS.pow2 e * 512 <= JS.pow2 ev)%Q).
    { change 512%Q with (JS.pow2 9). rewrite <- pow2_add.
      apply pow2_le. unfold e, ev. lia. }
    lra.
Qed.

(** X25. For a double between 1,000 and 1,000,000 the amount is shown as
    a whole number of thousands between 1 and 1000, the nearest one; from
    999,500 on that number is 1000, so the card reads "$1000K" and not
    "$1.0M"; in the same way an amount from 999.5 up to 1,000 reads
    "$1000". *)
Theorem fmtUSD_umbrales (v : Q) :
  (JS.es_doble v = true -> (1000 <= v)%Q -> (v < 1000000)%Q ->
   exists n, fmtUSD v = "$" +:+ JS.Number_toString n +:+ "K"
             /\ 1 <= n <= 1000
             /\ (inject_Z (1000 * n) - 500 <= v)%Q
             /\ (v < inject_Z (1000 * n) + 500)%Q
             /\ (n = 1000 <-> (999500 <= v)%Q))
  /\ (((1999 # 2) <= v)%Q -> (v < 1000)%Q -> fmtUSD v = "$1000").
Proof.
  split.
  - intros Hd H1 H2. exists (JS.round_half_up (JS.doble (v / 1000))).
    split; [now apply fmtUSD_miles|].
    destruct (round_half_up_cotas (JS.doble (v / 1000))) as [L0 U0].
    set (n := JS.round_half_up (JS.doble (v / 1000))) in *.
    assert (L : (inject_Z n - (1 # 2) <= v / 1000)%Q).
    { destruct (Qlt_le_dec (v / 1000) (inject_Z n - (1 # 2))) as [C|C];
        [|exact C].
      apply (proj2 (miles_sin_empate v n Hd H1 H2)) in C. lra. }
    assert (U : (v / 1000 < inject_Z n + (1 # 2))%Q).
    { destruct (Qlt_le_dec (v / 1000) (inject_Z n + (1 # 2))) as [C|C];
        [exact C|].
      assert (C' : (inject_Z (n + 1) - (1 # 2) <= v / 1000)%Q).
      { rewrite inject_Z_plus. change (inject_Z 1) with 1%Q. lra. }
      apply (proj1 (miles_sin_empate v (n + 1) Hd H1 H2)) in C'.
      rewrite inject_Z_plus in C'. change (inject_Z 1) with 1%Q in C'. lra. }
    clear L0 U0.
    assert (Ev : (v == 1000 * (v / 1000))%Q) by field.
    revert L U Ev. generalize (v / 1000)%Q. intros y L U Ev.
    rewrite inject_Z_mult. change (inject_Z 1000) with 1000%Q.
    assert (Hlo : 1 <= n).
    { assert (Hq : (inject_Z 0 < inject_Z n)%Q)
        by (change (inject_Z 0) with 0%Q; lra).
      rewrite <- Zlt_Qlt in Hq. lia. }
    assert (Hhi : n <= 1000).
    { assert (Hq : (inject_Z n < inject_Z 1001)%Q)
        by (change (inject_Z 1001) with 1001%Q; lra).
      rewrite <- Zlt_Qlt in Hq. lia. }
    split; [lia|]. split; [lra|]. split; [lra|]. split.
    + intros E. rewrite E in L. change (inject_Z 1000) with 1000%Q in L. lra.
    + intros H. assert (Hq : (inject_Z 999 < inject_Z n)%Q)
        by (change (inject_Z 999) with 999%Q; lra).
      rewrite <- Zlt_Qlt in Hq. lia.
  - intros H1 H2. rewrite fmtUSD_base, toFixed_entero by lra.
    unfold entero.
    destruct (round_half_up_cotas v) as [L U].
    assert (E : JS.round_half_up v = 1000).
    { set (n := JS.round_half_up v) in *.
      assert (Hq : (inject_Z 999 < inject_Z n)%Q)
        by (change (inject_Z 999) with 999%Q; lra).
      assert (Hq' : (inject_Z n < inject_Z 1001)%Q)
        by (change (inject_Z 1001) with 1001%Q; lra).
      rewrite <- Zlt_Qlt in Hq, Hq'. lia. }
    rewrite E. reflexivity.
Qed.

Lemma fmtUSD_umbrales_witness : fmtUSD 999500 = "$1000K".
Proof.
  destruct (fmtUSD_umbrales 999500) as [H _].
  destruct H as (n & -> & _ & _ & _ & Hn);
    [vm_compute; reflexivity|vm_compute; discriminate
    |vm_compute; reflexivity|].
  rewrite (proj2 Hn); [reflexivity|]. vm_compute. discriminate.
Defined.

(** ** The filter, as the program runs it *)

Lemma attr_ok_None (sel : string) : attr_ok sel None <-> sel = EmptyString.
Proof. unfold attr_ok. split; [intros [H|H]; [exact H|discriminate H]|now left]. Qed.

(** X26. A record of the dataset is kept by [filtrarDatos] in exactly two
    cases.  Either the lookup has a project under its [id_proyecto] (the
    last project of the dataset with that id) and every set field of the
    selection agrees with the record ([anio], [mes]) or with that project
    ([area], [tipo], [estado], [region]).  Or no project has that id, the
    id is the name of a member of [Object.prototype], the four categorical
    fields are unset and the numeric ones agree with the record.  So when
    the id is not such a name, a record without a project is never kept. *)
Theorem filtrarDatos_caracterizacion (e : Estado) (reg : Registro.t) :
  let r := filtrarDatos e in
  let f := filtros e in
  (In reg (registrosFilt r) <->
   In reg (registros (datos e))
   /\ ((exists proy,
          proyMap r !! Registro.id_proyecto reg = Some proy
          /\ In proy (proyectos (datos e))
          /\ Proyecto.id proy = Registro.id_proyecto reg
          /\ satisfies f reg proy)
       \/ ((~ exists p, In p (proyectos (datos e))
                        /\ Proyecto.id p = Registro.id_proyecto reg)
           /\ In (Registro.id_proyecto reg) JS.Object_prototype_keys
           /\ num_ok (Filtros.anio f) (Registro.anio reg)
           /\ num_ok (Filtros.mes f) (Registro.mes reg)
           /\ Filtros.area f = EmptyString /\ Filtros.tipo f = EmptyString
           /\ Filtros.estadoProy f = EmptyString
           /\ Filtros.region f = EmptyString)))
  /\ (~ In (Registro.id_proyecto reg) JS.Object_prototype_keys ->
      In reg (registrosFilt r) ->
      exists proy, In proy (proyectos (datos e))
                   /\ Proyecto.id proy = Registro.id_proyecto reg
                   /\ satisfies f reg proy).
Proof.
  intros r f.
  assert (Hiff : In reg (registrosFilt r) <->
    In reg (registros (datos e))
    /\ ((exists proy,
           proyMap r !! Registro.id_proyecto reg = Some proy
           /\ In proy (proyectos (datos e))
           /\ Proyecto.id proy = Registro.id_proyecto reg
           /\ satisfies f reg proy)
        \/ ((~ exists p, In p (proyectos (datos e))
                         /\ Proyecto.id p = Registro.id_proyecto reg)
            /\ In (Registro.id_proyecto reg) JS.Object_prototype_keys
            /\ num_ok (Filtros.anio f) (Registro.anio reg)
            /\ num_ok (Filtros.mes f) (Registro.mes reg)
            /\ Filtros.area f = EmptyString /\ Filtros.tipo f = EmptyString
            /\ Filtros.estadoProy f = EmptyString
            /\ Filtros.region f = EmptyString))).
  { subst r f. rewrite filtrarDatos_In.
    change (proyMap (filtrarDatos e)) with (proyMap_of (proyectos (datos e))).
    set (pm := proyMap_of (proyectos (datos e))).
    set (id := Registro.id_proyecto reg).
    assert (Hnone : pm !! id = None <->
              ~ exists p, In p (proyectos (datos e)) /\ Proyecto.id p = id).
    { unfold pm. rewrite <- proyMap_of_is_Some.
      destruct (proyMap_of (proyectos (datos e)) !! id); split.
      - discriminate.
      - intros H. elim H. eauto.
      - intros _ [x Hx]. discriminate Hx.
      - reflexivity. }
    split.
    - intros (Hin & Hl & Hs). split; [exact Hin|].
      destruct (JS.leer pm id) as [proy| |] eqn:El.
      + left. exists proy. apply leer_propio in El.
        destruct (proyMap_of_Some _ _ _ El) as [H1 H2].
        repeat split; try assumption; apply Hs.
      + right. apply leer_heredado in El as [E1 E2].
        destruct Hs as (S1 & S2 & S3 & S4 & S5 & S6).
        cbn [prop_de] in S3, S4, S5, S6.
        rewrite attr_ok_None in S3, S4, S5, S6.
        rewrite <- Hnone, <- heredada_In. auto 10.
      + now elim Hl.
    - intros (Hin & [(proy & El & _ & _ & Hs)
                    |(Hn & Hk & S1 & S2 & S3 & S4 & S5 & S6)]).
      + apply leer_propio in El. fold id in El. rewrite El.
        split; [exact Hin|]. split; [discriminate|exact Hs].
      + apply Hnone in Hn. apply heredada_In in Hk.
        rewrite (proj2 (leer_heredado pm id) (conj Hn Hk)).
        split; [exact Hin|]. split; [discriminate|].
        unfold satisface. cbn [prop_de]. rewrite !attr_ok_None. auto 10. }
  split; [exact Hiff|].
  intros Hk Hin. apply Hiff in Hin as [_ [(proy & _ & H1 & H2 & H3)|(_ & H & _)]].
  - eauto.
  - contradiction.
Qed.

Lemma filtrarDatos_caracterizacion_witness :
  let e := mkEstado ejemplo (Filtros.mk "2024" EmptyString "Mina B" EmptyString
                                        EmptyString EmptyString) in
  exists proy, In proy (proyectos ejemplo)
               /\ Proyecto.id proy = "P2"
               /\ satisfies (filtros e) (Registro.mk "P2" 2024 1 2000 1000) proy.
Proof.
  intros e.
  apply (proj2 (filtrarDatos_caracterizacion e (Registro.mk "P2" 2024 1 2000 1000))).
  - simpl. intuition discriminate.
  - vm_compute. left. reflexivity.
Defined.
